(** * ask.uni: the ask-and-route pipeline of [src/ask.js]

    A shallow embedding of the helpers and the three routes of [ask.js]
    (POST /ask, GET /sessions/:email, GET /session/:email/:sessionId),
    together with the properties the design document states about them.

    Conventions of the embedding.
    - A JavaScript string is a [string]: a sequence of code units below 256.
    - A value that may be [undefined], [null] or missing is an [option];
      the empty string is falsy, as in JavaScript.
    - Values are typed as the handler uses them: the fields of a request are
      strings, an account lists stores with a name and an owner, a
      classification has a list of store names, a map from store names to
      questions and a list of unanswered parts.  JSON values of other shapes
      are outside the embedding, except where the code guards against them.
    - The files under [database/] are the fields of [world]; [JSON.stringify]
      followed by [JSON.parse] is the identity on the documents the code
      writes, so a file holds the document itself ([Parsed]) or text that
      does not parse ([Unparseable]).  The four directories of the database
      are flat, and a write to a file of one of them succeeds: the file
      system takes the name and has room.
    - Paths are POSIX paths.  The path of a session file is built by
      [path.join] from a session id that is not sanitized, so it need not be
      a file of the chat directory: it is normalised as [path.join] does and
      then located ([place]).  Below a subdirectory of the chat directory
      there is nothing, and reading or writing there rejects.  Files outside
      the chat directory are kept in [elsewhere], read as session documents;
      that such a file may also be a file of another directory of the
      database is not part of the embedding, so what is stated about the
      other directories, or about a session file after a write to a
      provider log, is stated for session files of the chat directory.
    - What the handler cannot compute from its inputs is a field of [env]:
      the clock, the random digits of a session id, [JSON.parse] on the
      classifier's text, the classifier service, the retrieval service
      ([./rag], which [ask.js] requires and calls but does not define), and
      whether a file can be created at a path outside the chat directory.
    - One request is run at a time: the detached blocks of the handler run
      to their end, in program order, before anything else touches the
      files.  [trace] records the calls the properties speak about. *)

From Stdlib Require Import String Ascii List ZArith Lia Bool.
From stdpp Require Import base option list strings gmap pretty.
Import ListNotations.
Local Open Scope string_scope.

(* ================================================================= *)
(** ** Strings as the code uses them *)

Definition code (c : ascii) : nat := nat_of_ascii c.

(** White space of [String.prototype.trim] and of the regular expression
    class [\s], among the code units below 256: TAB, LF, VT, FF, CR, SP and
    NBSP. *)
Definition is_space (c : ascii) : bool :=
  let n := code c in
  (Nat.leb 9 n && Nat.leb n 13) || Nat.eqb n 32 || Nat.eqb n 160.

Definition in_range (lo hi : nat) (c : ascii) : bool :=
  Nat.leb lo (code c) && Nat.leb (code c) hi.

(** The complement of the class [[^a-zA-Z0-9@._-]]. *)
Definition is_safe_char (c : ascii) : bool :=
  in_range 97 122 c || in_range 65 90 c || in_range 48 57 c
  || Nat.eqb (code c) 64 || Nat.eqb (code c) 46
  || Nat.eqb (code c) 95 || Nat.eqb (code c) 45.

(** [s.replace(/[^a-zA-Z0-9@._-]/g, "_")] *)
Fixpoint sanitize (s : string) : string :=
  match s with
  | EmptyString => EmptyString
  | String c r => String (if is_safe_char c then c else "_"%char) (sanitize r)
  end.

Fixpoint trimStart (s : string) : string :=
  match s with
  | EmptyString => EmptyString
  | String c r => if is_space c then trimStart r else s
  end.

Fixpoint trimEnd (s : string) : string :=
  match s with
  | EmptyString => EmptyString
  | String c r =>
      match trimEnd r with
      | EmptyString => if is_space c then EmptyString else String c EmptyString
      | r' => String c r'
      end
  end.

(** [s.trim()] *)
Definition trim (s : string) : string := trimEnd (trimStart s).

(** [s.split(/\s+/)]: the pieces between maximal runs of white space.  A
    leading or a trailing run leaves an empty piece, and the empty string
    splits into one empty piece.  [cur] is the piece being read, [gap] says
    that the previous code unit was white space. *)
Fixpoint splitWs (cur : string) (gap : bool) (s : string) : list string :=
  match s with
  | EmptyString => [cur]
  | String c r =>
      if is_space c
      then (if gap then splitWs EmptyString true r
            else cur :: splitWs EmptyString true r)
      else splitWs (cur +:+ String c EmptyString) false r
  end.

Definition split_space (s : string) : list string := splitWs EmptyString false s.

(** [a.join(sep)] *)
Fixpoint join (sep : string) (l : list string) : string :=
  match l with
  | [] => EmptyString
  | [x] => x
  | x :: r => x +:+ sep +:+ join sep r
  end.

(** [s.split(sep)] for a one-unit separator; [cur] is the piece being
    read. *)
Fixpoint splitOn (sep : ascii) (cur : string) (s : string) : list string :=
  match s with
  | EmptyString => [cur]
  | String c r =>
      if Ascii.eqb c sep then cur :: splitOn sep EmptyString r
      else splitOn sep (cur +:+ String c EmptyString) r
  end.

(** [s.indexOf(c)] and [s.lastIndexOf(c)] for a one-unit needle; [None] is
    the source's [-1]. *)
Fixpoint indexOf (c : ascii) (s : string) : option nat :=
  match s with
  | EmptyString => None
  | String d r => if Ascii.eqb c d then Some 0 else S <$> indexOf c r
  end.

Fixpoint lastIndexOf (c : ascii) (s : string) : option nat :=
  match s with
  | EmptyString => None
  | String d r =>
      match lastIndexOf c r with
      | Some i => Some (S i)
      | None => if Ascii.eqb c d then Some 0 else None
      end
  end.

Fixpoint dropStr (n : nat) (s : string) : string :=
  match n, s with
  | O, _ => s
  | S n', EmptyString => EmptyString
  | S n', String _ r => dropStr n' r
  end.

Fixpoint takeStr (n : nat) (s : string) : string :=
  match n, s with
  | O, _ => EmptyString
  | S n', EmptyString => EmptyString
  | S n', String c r => String c (takeStr n' r)
  end.

(** [s.slice(a, b)] for indices inside the string; empty when [b <= a]. *)
Definition slice (a b : nat) (s : string) : string := takeStr (b - a) (dropStr a s).

(** [s.startsWith(p)] *)
Fixpoint startsWith (p s : string) : bool :=
  match p, s with
  | EmptyString, _ => true
  | String _ _, EmptyString => false
  | String a p', String b s' => Ascii.eqb a b && startsWith p' s'
  end.

(** Truthiness of a string-or-missing value. *)
Definition truthy (v : option string) : bool :=
  match v with
  | Some (String _ _) => true
  | _ => false
  end.

(** [v || null] on such a value. *)
Definition orNull (v : option string) : option string :=
  if truthy v then v else None.

(* ================================================================= *)
(** ** Session naming *)

(** [generateSessionName(question)].  The argument is [None] when the value
    passed is not a string (the [typeof] guard); the empty string is caught
    by [!question]. *)
Definition generateSessionName (question : option string) : string :=
  match question with
  | None | Some EmptyString => "New Session"
  | Some q =>
      let words := split_space (trim q) in
      if Nat.leb (length words) 10 then trim q
      else join " " (take 10 words) +:+ "..."
  end.

(** The words of a string as the design document counts them: the maximal
    runs of code units that are not white space. *)
Fixpoint wordsFrom (cur : string) (s : string) : list string :=
  match s with
  | EmptyString => match cur with EmptyString => [] | _ => [cur] end
  | String c r =>
      if is_space c
      then match cur with
           | EmptyString => wordsFrom EmptyString r
           | _ => cur :: wordsFrom EmptyString r
           end
      else wordsFrom (cur +:+ String c EmptyString) r
  end.

Definition words (s : string) : list string := wordsFrom EmptyString s.

(** Whether a string begins, or ends, with white space. *)
Definition firstIsSpace (s : string) : bool :=
  match s with
  | String c _ => is_space c
  | EmptyString => false
  end.

Fixpoint lastIsSpace (s : string) : bool :=
  match s with
  | EmptyString => false
  | String c EmptyString => is_space c
  | String _ r => lastIsSpace r
  end.

(* ================================================================= *)
(** ** Data model *)

(** An entry of [student.accessibleStores]. *)
Record AccessibleStore := {
  storeName : string;
  accountEmail : option string
}.

Record Student := {
  universityEmail : option string;
  accessibleStores : option (list AccessibleStore)
}.

Record ApiKeyInfo := { key : option string }.
Record University := { apiKeyInfo : option ApiKeyInfo }.

(** An item of [unanswered]. *)
Record Unanswered := { un_text : string; un_reason : string }.

Record ClassificationResult := {
  stores : option (list string);
  split_questions : option (gmap string string);
  unanswered : option (list Unanswered)
}.

(** What [JSON.parse] makes of the classifier's text: [null], a value that is
    not an object (a number, a string, a boolean, an array), or an object
    read at the three fields of a classification. *)
Inductive parsed :=
  | PNull
  | PNonObject
  | PObject (c : ClassificationResult).

(** A grounding chunk, read at [chunk.retrievedContext.text]. *)
Record Chunk := { retrievedContext_text : option string }.

(** [ragResp.data], read at [response_text] and at
    [grounding_metadata?.groundingChunks]. *)
Record RagData := {
  response_text : option string;
  groundingChunks : option (list Chunk)
}.

Record RagResponse := {
  success : bool;
  data : option RagData
}.

(** An element of [ragResults]. *)
Record RagResult := {
  rr_store : string;
  rr_answerText : string;
  rr_groundingChunks : list Chunk
}.

(** A message object.  [msg_unresolvedParts] and [msg_searchedIn] are [None]
    when the object literal has no such field; [Some None] is [null]. *)
Record Message := {
  msg_role : string;
  msg_question : string;
  msg_answer : string;
  msg_storesUsed : list string;
  msg_grounding : list string;
  msg_timestamp : string;
  msg_unresolvedParts : option (list Unanswered);
  msg_searchedIn : option (option string)
}.

Record Session := {
  sessionId : string;
  sessionName : option string;
  email : string;
  createdAt : string;
  updatedAt : string;
  messages : option (list Message)
}.

(** The question sent for a store, [splitQuestions[store]] or the question
    of the request: a string, or, for a store that is named like a member of
    [Object.prototype] and has no entry of its own, that member. *)
Inductive asked :=
  | Asked (q : string)
  | Inherited (member : string).

Record ProviderLogEntry := {
  provider_email : option string;
  user_email : string;
  store_name : string;
  log_question : asked;
  response : option string;
  log_grounding : option (list Chunk);
  asked_at : string
}.

(** The body passed to [res.json], with the status set before it.  A field is
    [None] when the body has no such field; [Some None] is [null]. *)
Record Response := {
  status : nat;
  res_error : option string;
  res_sessionId : option (option string);
  res_answer : option string;
  res_storesUsed : option (list string);
  res_grounding : option (list string);
  res_unanswered : option (list Unanswered);
  res_searchedIn : option (option string)
}.

Definition errorResponse (st : nat) (msg : string) : Response :=
  {| status := st; res_error := Some msg; res_sessionId := None;
     res_answer := None; res_storesUsed := None; res_grounding := None;
     res_unanswered := None; res_searchedIn := None |}.

(** [req.body] *)
Record Request := {
  req_email : option string;
  req_question : option string;
  req_sessionId : option string
}.

(** The content of a file that is read through [JSON.parse]. *)
Inductive file (A : Type) :=
  | Parsed (doc : A)
  | Unparseable.
Arguments Parsed {A} doc.
Arguments Unparseable {A}.

(** A provider log file: an array of entries, another JSON value, or text
    that does not parse. *)
Inductive logfile :=
  | LogArray (arr : list ProviderLogEntry)
  | LogNotArray
  | LogCorrupt.

(** The calls a request makes that the properties below speak about. *)
Inductive event :=
  | CallAskQuestion (apiKey : option string) (storesArray : list string) (q : asked)
  | CallResJson (r : Response)
  | CallCreateSessionFile (mail sid : string) (name : option string)
  | CallAppendMessage (mail sid : string) (m : Message)
  | CallAppendProviderLog (providerEmail : string) (logDoc : ProviderLogEntry).

(** A directory as [readdir] lists it: writing an existing file keeps its
    place, a new file comes last.  (The order of [readdir] is the
    platform's; nothing below depends on the place of a new file.) *)
Definition dir (A : Type) := list (string * A).

Fixpoint readFile {A} (name : string) (d : dir A) : option A :=
  match d with
  | [] => None
  | (n, c) :: r => if String.eqb n name then Some c else readFile name r
  end.

Fixpoint writeFile {A} (name : string) (c : A) (d : dir A) : dir A :=
  match d with
  | [] => [(name, c)]
  | (n, c0) :: r =>
      if String.eqb n name then (n, c) :: r else (n, c0) :: writeFile name c r
  end.

(** A normalised path, relative to [__dirname]: [ups] steps up, then the
    [names] down.  A path that steps above [__dirname] is kept apart from
    the paths below it: that it may come back into [__dirname] by name is
    not part of the embedding. *)
Definition path : Type := nat * list string.

(** The segments of a relative name applied to a directory, as
    [path.normalize] does: an empty segment and [.] are dropped, [..]
    cancels the name before it.  [rev_names] holds the names of the
    directory, the last one first. *)
Fixpoint walk (ups : nat) (rev_names : list string) (segs : list string) : path :=
  match segs with
  | [] => (ups, rev rev_names)
  | seg :: rest =>
      if String.eqb seg "" || String.eqb seg "." then walk ups rev_names rest
      else if String.eqb seg ".."
           then match rev_names with
                | [] => walk (S ups) [] rest
                | _ :: above => walk ups above rest
                end
           else walk ups (seg :: rev_names) rest
  end.

(** [path.join(dir, name)] *)
Definition path_join (dir : path) (name : string) : path :=
  walk (fst dir) (rev (snd dir)) (splitOn "/" EmptyString name).

Definition dirname : path := (0, []).
Definition DB_DIR : path := path_join dirname "database".
Definition CHAT_DIR : path := path_join DB_DIR "chat_sessions".

(** Where a path leads: to a file of the chat directory, below a
    subdirectory of the chat directory (or to the directory itself), where
    there is no file, or outside the chat directory. *)
Inductive place :=
  | InChat (f : string)
  | NoSuchFile
  | Elsewhere (p : path).

Definition locate (p : path) : place :=
  match p with
  | (0, d :: c :: below) =>
      if String.eqb d "database" && String.eqb c "chat_sessions"
      then match below with
           | [f] => InChat f
           | _ => NoSuchFile
           end
      else Elsewhere p
  | _ => Elsewhere p
  end.

(** [database/], the files outside the chat directory that session paths
    reach, and what one run has done so far. *)
Record world := {
  students : gmap string (file Student);
  universities : gmap string (file University);
  chat_sessions : dir (file Session);
  provider_questions : gmap string logfile;
  elsewhere : gmap path (file Session);
  dates : nat;
  trace : list event
}.

(** A JavaScript completion: a value, or a thrown exception. *)
Inductive completion (A : Type) :=
  | Normal (a : A)
  | Throw.
Arguments Normal {A} a.
Arguments Throw {A}.

(** What the code obtains from outside. *)
Record env := {
  (** the text of the [n]-th [new Date().toISOString()] of the run *)
  toISOString : nat -> string;
  (** [Date.now()] and the base-36 digits of [Math.random()] behind the
      point, where the session id is minted *)
  Date_now : Z;
  random_digits : list nat;
  (** [JSON.parse]; [None] when it throws *)
  JSON_parse : string -> option parsed;
  (** [model.generateContent] followed by the extraction of its text, for a
      key, the store names of the prompt and the question; [None] when the
      call rejects *)
  generateContent : string -> list string -> string -> option string;
  (** [RAGService.askQuestion], for the number of calls already made by the
      request and its three arguments: [Throw] when the call rejects,
      [Normal None] for a falsy result.  The shape of a result is the one
      the handler reads: [success], [data], [data.response_text],
      [data.grounding_metadata?.groundingChunks]. *)
  askQuestion : nat -> option string -> list string -> asked
                -> completion (option RagResponse);
  (** whether a file can be created at a path outside the chat directory *)
  creatable : path -> bool
}.

(* ================================================================= *)
(** ** Completions and the state of a run *)

(** [try { body } catch { handler }] *)
Definition tryCatch {A} (body : completion A) (handler : A) : A :=
  match body with
  | Normal a => a
  | Throw => handler
  end.

Definition M (A : Type) : Type := world -> A * world.

Definition ret {A} (a : A) : M A := fun w => (a, w).

Definition bind {A B} (m : M A) (k : A -> M B) : M B :=
  fun w => let (a, w') := m w in k a w'.

Notation "'let*' x ':=' m 'in' k" := (bind m (fun x => k))
  (at level 10, x name, m at level 100, k at level 200).
Notation "m ';;' k" := (bind m (fun _ => k))
  (at level 100, k at level 200, right associativity).

(** The world after the calls [evs] were made. *)
Definition emit (evs : list event) (w : world) : world :=
  {| students := students w; universities := universities w;
     chat_sessions := chat_sessions w;
     provider_questions := provider_questions w;
     elsewhere := elsewhere w;
     dates := dates w; trace := (trace w ++ evs)%list |}.

Definition call (e : event) : M unit := fun w => (tt, emit [e] w).

(** [fs.readFile(file, "utf8")] on the path of a session file; [None] when
    it rejects. *)
Definition readChat (target : path) : M (option (file Session)) :=
  fun w =>
    (match locate target with
     | InChat f => readFile f (chat_sessions w)
     | NoSuchFile => None
     | Elsewhere p => elsewhere w !! p
     end, w).

Definition readLog (name : string) : M (option logfile) :=
  fun w => (provider_questions w !! name, w).

Definition writeLog (name : string) (arr : list ProviderLogEntry) : M unit :=
  fun w =>
    (tt, {| students := students w; universities := universities w;
            chat_sessions := chat_sessions w;
            provider_questions := <[name := LogArray arr]> (provider_questions w);
            elsewhere := elsewhere w;
            dates := dates w; trace := trace w |}).

(** [await m; k] inside a [try]: a rejection of [m] skips [k]. *)
Definition andThen (m k : M (completion unit)) : M (completion unit) :=
  let* r := m in
  match r with
  | Normal _ => k
  | Throw => ret Throw
  end.

Notation "m '>>>' k" := (andThen m k) (at level 100, k at level 200, right associativity).

(** A call that does not reject. *)
Definition settled (m : M unit) : M (completion unit) := m ;; ret (Normal tt).

(** [(async () => { try { body } catch (err) { console.error(...) } })()] *)
Definition detached (body : M (completion unit)) : M unit := body ;; ret tt.

Definition nl : string := String "010"%char EmptyString.

Section Pipeline.

Context (E : env).

(** [new Date().toISOString()] *)
Definition now : M string :=
  fun w =>
    (toISOString E (dates w),
     {| students := students w; universities := universities w;
        chat_sessions := chat_sessions w;
        provider_questions := provider_questions w;
        elsewhere := elsewhere w;
        dates := S (dates w); trace := trace w |}).

(** [fs.writeFile(file, JSON.stringify(s, null, 2))] on the path of a session
    file.  Outside the chat directory the write succeeds on a file that
    exists, and creates one where the environment allows it. *)
Definition writeChat (target : path) (s : Session) : M (completion unit) :=
  fun w =>
    match locate target with
    | InChat f =>
        (Normal tt,
         {| students := students w; universities := universities w;
            chat_sessions := writeFile f (Parsed s) (chat_sessions w);
            provider_questions := provider_questions w;
            elsewhere := elsewhere w;
            dates := dates w; trace := trace w |})
    | NoSuchFile => (Throw, w)
    | Elsewhere p =>
        if bool_decide (is_Some (elsewhere w !! p)) || creatable E p
        then (Normal tt,
              {| students := students w; universities := universities w;
                 chat_sessions := chat_sessions w;
                 provider_questions := provider_questions w;
                 elsewhere := <[p := Parsed s]> (elsewhere w);
                 dates := dates w; trace := trace w |})
        else (Throw, w)
    end.

(* ----------------------------------------------------------------- *)
(** *** Helpers: reading accounts, the Conversation Store, the Audit Log *)

Definition readStudent (mail : string) : M (option Student) :=
  fun w =>
    (match students w !! (sanitize mail +:+ ".json") with
     | Some (Parsed s) => Some s
     | _ => None
     end, w).

(** [None] as argument: [email.replace] throws on [undefined] and the
    function's [catch] returns [null]. *)
Definition readUniversity (mail : option string) : M (option University) :=
  fun w =>
    (match mail with
     | None => None
     | Some m =>
         match universities w !! (sanitize m +:+ ".json") with
         | Some (Parsed u) => Some u
         | _ => None
         end
     end, w).

(** [path.join(CHAT_DIR, `${safeEmail}__${sessionId}.json`)] *)
Definition getSessionFile (mail sid : string) : path :=
  path_join CHAT_DIR (sanitize mail +:+ "__" +:+ sid +:+ ".json").

(** The [catch] block of [appendMessageToSessionFile]: a session made on the
    fly. *)
Definition synthesize (mail sid : string) (messageObj : Message)
  : M (completion unit) :=
  let* c := now in
  let* u := now in
  writeChat (getSessionFile mail sid)
    {| sessionId := sid;
       sessionName := Some (generateSessionName (Some (msg_question messageObj)));
       email := mail; createdAt := c; updatedAt := u;
       messages := Some [messageObj] |}.

(** [Throw] when the function rejects: the write of its [catch] block
    failed. *)
Definition appendMessageToSessionFile (mail sid : string) (messageObj : Message)
  : M (completion unit) :=
  call (CallAppendMessage mail sid messageObj) ;;
  let file := getSessionFile mail sid in
  let* content := readChat file in
  match content with
  | Some (Parsed session) =>
      let msgs := (default [] (messages session) ++ [messageObj])%list in
      let* t := now in
      let* written :=
        writeChat file
          {| sessionId := sessionId session; sessionName := sessionName session;
             email := email session; createdAt := createdAt session;
             updatedAt := t; messages := Some msgs |} in
      match written with
      | Normal _ => ret (Normal tt)
      | Throw => synthesize mail sid messageObj
      end
  | _ =>
      (* the session file is missing or does not parse *)
      synthesize mail sid messageObj
  end.

Definition createSessionFile (mail sid : string) (name : option string)
  : M (completion unit) :=
  call (CallCreateSessionFile mail sid name) ;;
  let file := getSessionFile mail sid in
  let* c := now in
  let* u := now in
  writeChat file
    {| sessionId := sid; sessionName := name; email := mail;
       createdAt := c; updatedAt := u; messages := Some [] |}.

Definition appendProviderLog (providerEmail : string) (logDoc : ProviderLogEntry)
  : M unit :=
  call (CallAppendProviderLog providerEmail logDoc) ;;
  let file := sanitize providerEmail +:+ ".json" in
  let* content := readLog file in
  let arr := match content with
             | Some (LogArray a) => a
             | _ => []
             end in
  writeLog file (arr ++ [logDoc])%list.

(* ----------------------------------------------------------------- *)
(** *** The classifier adapter *)

(** [{ stores: stores, split_questions: {}, unanswered: [] }] *)
Definition selectAll (storeNames : list string) : parsed :=
  PObject {| stores := Some storeNames; split_questions := Some ∅;
             unanswered := Some [] |}.

(** [{ stores: [], split_questions: {}, unanswered: [] }] *)
Definition selectNone : parsed :=
  PObject {| stores := Some []; split_questions := Some ∅;
             unanswered := Some [] |}.

(** [try { body } catch (err) { return handler }] around a function body. *)
Definition tryReturn {A} (body : completion A) (handler : completion A)
  : completion A :=
  match body with
  | Normal a => Normal a
  | Throw => handler
  end.

(** [raw.slice(start, end + 1)] for the first opening and the last closing
    brace of [raw], when both exist. *)
Definition braceSpan (raw : string) : option string :=
  match indexOf "{"%char raw, lastIndexOf "}"%char raw with
  | Some start, Some end_ => Some (slice start (end_ + 1) raw)
  | _, _ => None
  end.

Definition classifyStores (geminiKey : option string) (storeNames : list string)
    (question : string) : completion parsed :=
  tryReturn
    match geminiKey with
    | Some (String _ _ as k) =>
        match generateContent E k storeNames question with
        | None => Throw
        | Some EmptyString => Normal selectNone
        | Some txt =>
            let raw := trim txt in
            match JSON_parse E raw with
            | Some v => Normal v
            | None =>
                match braceSpan raw with
                | Some sub =>
                    match JSON_parse E sub with
                    | Some v => Normal v
                    | None => Normal (selectAll storeNames)
                    end
                | None => Normal (selectAll storeNames)
                end
            end
        end
    | _ => Normal (selectAll storeNames)
    end
    (Normal (selectAll storeNames)).

(* ----------------------------------------------------------------- *)
(** *** POST /ask *)

Definition resJson (r : Response) : M unit := call (CallResJson r).

(** A digit of [Number.prototype.toString(36)]. *)
Definition digit36 (d : nat) : ascii :=
  ascii_of_nat (if Nat.ltb (d mod 36) 10 then 48 + d mod 36 else 87 + d mod 36).

(** [Math.random().toString(36).slice(2, 8)] *)
Definition random_suffix : string :=
  string_of_list_ascii (map digit36 (take 6 (random_digits E))).

(** ["session_" + Date.now() + "_" + Math.random().toString(36).slice(2, 8)] *)
Definition mintSessionId : string :=
  "session_" +:+ pretty (Date_now E) +:+ "_" +:+ random_suffix.

(** How the fan-out loop is left: by the [return] of its failure branch, with
    the [ragResults] collected until then, at its end, or by the rejection
    of a retrieval call. *)
Inductive fanOutExit :=
  | ShortCircuit (ragResults : list RagResult)
  | AllAnswered (ragResults : list RagResult) (allGrounding : list string)
  | Rejected (ragResults : list RagResult).

(** [!ragResp || !ragResp.success || !ragResp.data] is false. *)
Definition usable (ragResp : option RagResponse) : option RagData :=
  match ragResp with
  | Some r => if success r then data r else None
  | None => None
  end.

(** The texts pushed to [allGrounding] for one store. *)
Definition groundingTexts (chunks : list Chunk) : list string :=
  omap (fun chunk => orNull (retrievedContext_text chunk)) chunks.

(** [`**${r.store}**:\n${r.answerText}`] *)
Definition labeled (r : RagResult) : string :=
  "**" +:+ rr_store r +:+ "**:" +:+ nl +:+ rr_answerText r.

(** Step 3 of the handler. *)
Definition mergeAnswers (ragResults : list RagResult) : string :=
  match ragResults with
  | [r] => rr_answerText r
  | _ => join (nl +:+ nl) (map labeled ragResults)
  end.

Section OneRequest.

(** The variables of one request that the loop and the three detached
    blocks close over. *)
Context (mail question sid : string) (isNewSession : bool)
        (name : option string) (accessible : list AccessibleStore)
        (geminiKey : option string) (splitQuestions : gmap string string).

(** The names a plain object inherits from [Object.prototype]; each of
    them is a function, or for [__proto__] the prototype itself, and so
    truthy. *)
Definition objectPrototype : list string :=
  [ "constructor"; "__defineGetter__"; "__defineSetter__"; "hasOwnProperty";
    "__lookupGetter__"; "__lookupSetter__"; "isPrototypeOf";
    "propertyIsEnumerable"; "toString"; "valueOf"; "__proto__";
    "toLocaleString" ].

(** [(splitQuestions && splitQuestions[store]) ? splitQuestions[store] :
    question], on the object [JSON.parse] made or on [{}]: a property of its
    own comes first, then an inherited one. *)
Definition qForStore (store : string) : asked :=
  match splitQuestions !! store with
  | Some (String _ _ as q) => Asked q
  | Some EmptyString => Asked question
  | None =>
      if bool_decide (store ∈ objectPrototype) then Inherited store
      else Asked question
  end.

(** [accessible.find(x => x.storeName === store)] *)
Definition findDept (store : string) : option AccessibleStore :=
  List.find (fun x => String.eqb (storeName x) store) accessible.

(** [dept?.accountEmail || null] *)
Definition deptEmail (store : string) : option string :=
  orNull (findDept store ≫= accountEmail).

(** [if (isNewSession) await createSessionFile(email, sessionId, sessionName)] *)
Definition createIfNew : M (completion unit) :=
  if isNewSession then createSessionFile mail sid name else ret (Normal tt).

(** The branch taken when the classifier selects no store. *)
Definition noStoreSelected (unans : list Unanswered) : M unit :=
  let answerText := "Sorry, none of the departments can answer this." in
  resJson {| status := 200; res_error := None; res_sessionId := Some (Some sid);
             res_answer := Some answerText; res_storesUsed := Some [];
             res_grounding := None; res_unanswered := Some unans;
             res_searchedIn := None |} ;;
  detached
    (createIfNew >>>
     let* t := now in
     appendMessageToSessionFile mail sid
       {| msg_role := "assistant"; msg_question := question;
          msg_answer := answerText; msg_storesUsed := []; msg_grounding := [];
          msg_timestamp := t; msg_unresolvedParts := Some unans;
          msg_searchedIn := None |}).

(** The failure branch of the loop body, up to its [return]. *)
Definition ragFailed (store : string) : M unit :=
  let answerText := "Sorry we didn't find any information related to this." in
  resJson {| status := 200; res_error := None; res_sessionId := Some (Some sid);
             res_answer := Some answerText; res_storesUsed := None;
             res_grounding := None; res_unanswered := None;
             res_searchedIn := Some (deptEmail store) |} ;;
  detached
    (createIfNew >>>
     (let* t := now in
      appendMessageToSessionFile mail sid
        {| msg_role := "assistant"; msg_question := question;
           msg_answer := answerText; msg_storesUsed := [store];
           msg_grounding := []; msg_timestamp := t;
           msg_unresolvedParts := None;
           msg_searchedIn := Some (deptEmail store) |}) >>>
     settled
       match deptEmail store with
       | Some provider =>
           let* asked_at := now in
           appendProviderLog provider
             {| provider_email := Some provider; user_email := mail;
                store_name := store; log_question := qForStore store;
                response := None; log_grounding := None; asked_at := asked_at |}
       | None => ret tt
       end).

(** [for (const store of predictedStores) { ... }] *)
Fixpoint fanOut (predicted : list string) (ragResults : list RagResult)
    (allGrounding : list string) : M fanOutExit :=
  match predicted with
  | [] => ret (AllAnswered ragResults allGrounding)
  | store :: rest =>
      let q := qForStore store in
      call (CallAskQuestion geminiKey [store] q) ;;
      match askQuestion E (length ragResults) geminiKey [store] q with
      | Throw => ret (Rejected ragResults)
      | Normal ragResp =>
          match usable ragResp with
          | None => ragFailed store ;; ret (ShortCircuit ragResults)
          | Some d =>
              let answerText := default "" (response_text d) in
              let chunks := default [] (groundingChunks d) in
              fanOut rest
                (ragResults ++ [{| rr_store := store; rr_answerText := answerText;
                                   rr_groundingChunks := chunks |}])%list
                (allGrounding ++ groundingTexts chunks)%list
          end
      end
  end.

(** The provider logs of step 5. *)
Fixpoint logProviders (ragResults : list RagResult) : M unit :=
  match ragResults with
  | [] => ret tt
  | r :: rest =>
      let store := rr_store r in
      let providerEmail := deptEmail store in
      let* asked_at := now in
      appendProviderLog (default "unknown" providerEmail)
        {| provider_email := providerEmail; user_email := mail;
           store_name := store; log_question := qForStore store;
           response := Some (rr_answerText r);
           log_grounding := Some (rr_groundingChunks r); asked_at := asked_at |} ;;
      logProviders rest
  end.

(** Steps 3 to 5. *)
Definition respondAndPersist (predicted : list string)
    (ragResults : list RagResult) (allGrounding : list string) : M unit :=
  let finalAnswer := mergeAnswers ragResults in
  resJson {| status := 200; res_error := None; res_sessionId := Some (Some sid);
             res_answer := Some finalAnswer; res_storesUsed := Some predicted;
             res_grounding := Some allGrounding; res_unanswered := None;
             res_searchedIn := None |} ;;
  detached
    (createIfNew >>>
     (let* t := now in
      appendMessageToSessionFile mail sid
        {| msg_role := "assistant"; msg_question := question;
           msg_answer := finalAnswer; msg_storesUsed := predicted;
           msg_grounding := allGrounding; msg_timestamp := t;
           msg_unresolvedParts := None; msg_searchedIn := None |}) >>>
     settled (logProviders ragResults)).

(** Steps 2 to 5, for the stores the classifier selected.  A retrieval call
    that rejects throws into the outer [catch] of the handler, before any
    response was sent. *)
Definition route (predicted : list string) (unans : list Unanswered) : M unit :=
  match predicted with
  | [] => noStoreSelected unans
  | _ =>
      let* exit := fanOut predicted [] [] in
      match exit with
      | ShortCircuit _ => ret tt
      | AllAnswered ragResults allGrounding =>
          respondAndPersist predicted ragResults allGrounding
      | Rejected _ => resJson (errorResponse 500 "Internal Server Error")
      end
  end.

End OneRequest.

(** The body of the zero-stores response. *)
Definition noStoresAvailable : Response :=
  {| status := 200; res_error := None; res_sessionId := Some None;
     res_answer := Some "No RAG stores available for your account.";
     res_storesUsed := Some []; res_grounding := Some [];
     res_unanswered := None; res_searchedIn := None |}.

(** [university?.apiKeyInfo?.key || null] *)
Definition universityKey (university : option University) : option string :=
  orNull (info ← (u ← university; apiKeyInfo u); key info).

(** [router.post("/ask", ...)] *)
Definition ask (req : Request) : M unit :=
  match req_email req, req_question req with
  | Some (String _ _ as mail), Some (String _ _ as question) =>
      let* student := readStudent mail in
      match student with
      | None => resJson (errorResponse 404 "Student not found")
      | Some student =>
          let accessible := default [] (accessibleStores student) in
          let storeNames := map storeName accessible in
          if Nat.eqb (length storeNames) 0 then resJson noStoresAvailable
          else
            let* university := readUniversity (universityEmail student) in
            let geminiKey := universityKey university in
            let isNewSession := negb (truthy (req_sessionId req)) in
            let sid := if isNewSession then mintSessionId
                       else default EmptyString (req_sessionId req) in
            let name := if isNewSession
                        then Some (generateSessionName (Some question))
                        else None in
            let go := route mail question sid isNewSession name accessible
                            geminiKey in
            match classifyStores geminiKey storeNames question with
            | Normal (PObject c) =>
                go (default ∅ (split_questions c)) (default [] (stores c))
                   (default [] (unanswered c))
            | Normal PNonObject => go ∅ [] []
            | Normal PNull | Throw =>
                (* the outer catch, before any response was sent *)
                resJson (errorResponse 500 "Internal Server Error")
            end
      end
  | _, _ => resJson (errorResponse 400 "email & question required")
  end.

(* ----------------------------------------------------------------- *)
(** *** The session query routes *)

(** The result of [ToNumber] on a string, as far as the comparator of
    [GET /sessions/:email] needs it: not a number, or an integer. *)
Inductive jsnum :=
  | NaN
  | Num (z : Z).

Definition is_digit (c : ascii) : bool := in_range 48 57 c.

Fixpoint digitsValue (acc : Z) (s : string) : option Z :=
  match s with
  | EmptyString => Some acc
  | String c r =>
      if is_digit c
      then digitsValue (10 * acc + Z.of_nat (code c - 48))%Z r
      else None
  end.

(** [StringToNumber]: the empty or blank string is 0, an optionally signed
    run of decimal digits is its value.  A string holding a code unit that
    occurs in no numeric literal, such as the [T], the [:] and the inner [-]
    of an ISO timestamp, is [NaN].  Literals with a fraction, an exponent, a
    radix prefix or [Infinity] are not represented: nothing below evaluates
    the function on them. *)
Definition StringToNumber (s : string) : jsnum :=
  match trim s with
  | EmptyString => Num 0
  | String c r as t =>
      let body := if Ascii.eqb c "+"%char || Ascii.eqb c "-"%char then r else t in
      match body with
      | EmptyString => NaN
      | _ =>
          match digitsValue 0 body with
          | Some v => Num (if Ascii.eqb c "-"%char then - v else v)
          | None => NaN
          end
      end
  end.

(** [(x.createdAt || 0)] converted for the subtraction. *)
Definition createdAtNumber (c : string) : jsnum :=
  match c with
  | EmptyString => Num 0
  | _ => StringToNumber c
  end.

(** [a - b] *)
Definition jsSub (a b : jsnum) : jsnum :=
  match a, b with
  | Num x, Num y => Num (x - y)
  | _, _ => NaN
  end.

Record SessionInfo := {
  si_sessionId : string;
  si_sessionName : option string;
  si_createdAt : string
}.

(** [(a, b) => (b.createdAt || 0) - (a.createdAt || 0)] *)
Definition byCreatedAt (a b : SessionInfo) : jsnum :=
  jsSub (createdAtNumber (si_createdAt b)) (createdAtNumber (si_createdAt a)).

(** [Array.prototype.sort(comparefn)]: a stable sort; [x] moves behind [y]
    only when [comparefn(x, y) > 0], and a [NaN] result counts as [+0]. *)
Definition movesBehind (cmp : SessionInfo -> SessionInfo -> jsnum)
    (x y : SessionInfo) : bool :=
  match cmp x y with
  | Num v => Z.ltb 0 v
  | NaN => false
  end.

Fixpoint insertSorted (cmp : SessionInfo -> SessionInfo -> jsnum)
    (x : SessionInfo) (l : list SessionInfo) : list SessionInfo :=
  match l with
  | [] => [x]
  | y :: r => if movesBehind cmp x y then y :: insertSorted cmp x r else x :: l
  end.

Definition sortBy (cmp : SessionInfo -> SessionInfo -> jsnum)
    (l : list SessionInfo) : list SessionInfo :=
  foldr (insertSorted cmp) [] l.

(** The loop of [GET /sessions/:email] over [readdir(CHAT_DIR)]. *)
Fixpoint collectSessions (prefix : string) (files : dir (file Session))
  : list SessionInfo :=
  match files with
  | [] => []
  | (name, content) :: rest =>
      if startsWith prefix name
      then match content with
           | Parsed d =>
               {| si_sessionId := sessionId d; si_sessionName := sessionName d;
                  si_createdAt := createdAt d |} :: collectSessions prefix rest
           | Unparseable => collectSessions prefix rest
           end
      else collectSessions prefix rest
  end.

(** [router.get("/sessions/:email", ...)]: the [sessions] of the response. *)
Definition listSessions (mail : string) (w : world) : list SessionInfo :=
  sortBy byCreatedAt (collectSessions (sanitize mail +:+ "__") (chat_sessions w)).

(** [router.get("/session/:email/:sessionId", ...)]: the document sent, or
    [None] for the 404 response. *)
Definition getSession (mail sid : string) (w : world) : option Session :=
  match fst (readChat (getSessionFile mail sid) w) with
  | Some (Parsed d) => Some d
  | _ => None
  end.

End Pipeline.

(* ================================================================= *)
(** ** The classifier adapter as the design document words it *)

(** The length of the shortest prefix of [s] that closes [depth] more braces
    than it opens. *)
Fixpoint closingAt (depth : nat) (s : string) : option nat :=
  match s with
  | EmptyString => None
  | String c r =>
      if Ascii.eqb c "{"%char then S <$> closingAt (S depth) r
      else if Ascii.eqb c "}"%char
           then match depth with
                | 0 => None
                | 1 => Some 1
                | S d => S <$> closingAt d r
                end
           else S <$> closingAt depth r
  end.

(** The extraction as the design document words it: the first balanced
    top-level structure of the text, from its first opening brace to the
    brace that closes it. *)
Definition firstBalanced (raw : string) : option string :=
  start ← indexOf "{"%char raw;
  len ← closingAt 0 (dropStr start raw);
  Some (takeStr len (dropStr start raw)).

(** The adapter as the design document words it: parse the text directly,
    else parse its first balanced structure, else select all stores; the same
    fallback without a credential and when the call fails. *)
Definition classifyStores_documented (E : env) (geminiKey : option string)
    (storeNames : list string) (question : string) : completion parsed :=
  match geminiKey with
  | Some (String _ _ as k) =>
      match generateContent E k storeNames question with
      | None => Normal (selectAll storeNames)
      | Some txt =>
          match JSON_parse E (trim txt) with
          | Some v => Normal v
          | None =>
              match firstBalanced (trim txt) ≫= JSON_parse E with
              | Some v => Normal v
              | None => Normal (selectAll storeNames)
              end
          end
      end
  | _ => Normal (selectAll storeNames)
  end.

(* ================================================================= *)
(** ** Observations on a trace *)

(** The store arrays of the retrieval calls, in call order. *)
Definition retrievals (t : list event) : list (list string) :=
  omap (fun e => match e with
                 | CallAskQuestion _ st _ => Some st
                 | _ => None
                 end) t.

(** The provider log appends, in call order. *)
Definition providerLogs (t : list event) : list (string * ProviderLogEntry) :=
  omap (fun e => match e with
                 | CallAppendProviderLog p d => Some (p, d)
                 | _ => None
                 end) t.

Definition isRetrieval (e : event) : bool :=
  match e with
  | CallAskQuestion _ _ _ => true
  | _ => false
  end.

Definition isPersistence (e : event) : bool :=
  match e with
  | CallCreateSessionFile _ _ _ | CallAppendMessage _ _ _
  | CallAppendProviderLog _ _ => true
  | _ => false
  end.

(** The element of [ragResults] built from a usable answer. *)
Definition resultOf (store : string) (d : RagData) : RagResult :=
  {| rr_store := store; rr_answerText := default "" (response_text d);
     rr_groundingChunks := default [] (groundingChunks d) |}.

(** The evidence of a usable answer: the texts of its chunks that carry one. *)
Definition evidence (d : RagData) : list string :=
  groundingTexts (default [] (groundingChunks d)).

(* ================================================================= *)
(** ** What the properties of the fan-out speak about *)

(** The usable answers of a fan-out over [sts] whose first call is the
    [n]-th of the request; [None] when one of the calls rejects or has no
    usable answer. *)
(** What a retrieval call gives the loop: a usable answer, or none when the
    call rejects or its result is not usable. *)
Definition answerOf (c : completion (option RagResponse)) : option RagData :=
  match c with
  | Normal ragResp => usable ragResp
  | Throw => None
  end.

Fixpoint answersOf (E : env) (apiKey : option string) (qFor : string -> asked)
    (n : nat) (sts : list string) : option (list RagData) :=
  match sts with
  | [] => Some []
  | st :: rest =>
      d ← answerOf (askQuestion E n apiKey [st] (qFor st));
      ds ← answersOf E apiKey qFor (S n) rest;
      Some (d :: ds)
  end.

(** The retrieval calls of a fan-out over [sts]. *)
Definition asksFor (apiKey : option string) (qFor : string -> asked)
    (sts : list string) : list event :=
  map (fun st => CallAskQuestion apiKey [st] (qFor st)) sts.

(** The session create of a detached block, when the session is new. *)
Definition created (isNewSession : bool) (mail sid : string)
    (name : option string) : list event :=
  if isNewSession then [CallCreateSessionFile mail sid name] else [].

(** Whether a write to the session file of [mail] and [sid] succeeds. *)
Definition sessionWritable (E : env) (mail sid : string) (w : world) : bool :=
  match locate (getSessionFile mail sid) with
  | InChat _ => true
  | NoSuchFile => false
  | Elsewhere p => bool_decide (is_Some (elsewhere w !! p)) || creatable E p
  end.

(** Whether the session file of [mail] and [sid] is a file of the chat
    directory. *)
Definition inChatDir (mail sid : string) : bool :=
  match locate (getSessionFile mail sid) with
  | InChat _ => true
  | _ => false
  end.

(** The calls of a detached block: the optional create, the append of the
    message, and the provider logs; a session write that fails ends it. *)
Definition persisted (writable isNewSession : bool) (mail sid : string)
    (name : option string) (m : Message) (logs : list event) : list event :=
  if writable
  then (created isNewSession mail sid name ++ CallAppendMessage mail sid m :: logs)%list
  else if isNewSession then [CallCreateSessionFile mail sid name]
       else [CallAppendMessage mail sid m].

(** The provider log of step 5 for one result, asked at [t]. *)
Definition answeredLog (mail : string) (qFor : string -> asked)
    (provider : string -> option string) (r : RagResult) (t : string) : event :=
  CallAppendProviderLog (default "unknown" (provider (rr_store r)))
    {| provider_email := provider (rr_store r); user_email := mail;
       store_name := rr_store r; log_question := qFor (rr_store r);
       response := Some (rr_answerText r);
       log_grounding := Some (rr_groundingChunks r); asked_at := t |}.

(** The provider log of the failure branch, when the provider resolves. *)
Definition failedLog (mail : string) (qFor : string -> asked)
    (provider : string -> option string) (store : string) (t : string)
  : list event :=
  match provider store with
  | Some p =>
      [CallAppendProviderLog p
         {| provider_email := Some p; user_email := mail; store_name := store;
            log_question := qFor store; response := None;
            log_grounding := None; asked_at := t |}]
  | None => []
  end.

(** The section of the merged answer for one store. *)
Definition section (store : string) (d : RagData) : string :=
  "**" +:+ store +:+ "**:" +:+ nl +:+ default "" (response_text d).

(** The order of the calls of one request: retrieval calls, then the
    response, then an optional session create, then the message append, then
    provider logs for stores of the message, in the order of its
    [storesUsed]. *)
Inductive phase :=
  | Retrieving
  | Responded
  | Created
  | Logging (remaining : list string).

Fixpoint skipTo (store : string) (remaining : list string) : option (list string) :=
  match remaining with
  | [] => None
  | st :: rest => if String.eqb st store then Some rest else skipTo store rest
  end.

Definition step (p : phase) (e : event) : option phase :=
  match p, e with
  | Retrieving, CallAskQuestion _ _ _ => Some Retrieving
  | Retrieving, CallResJson _ => Some Responded
  | Responded, CallCreateSessionFile _ _ _ => Some Created
  | Responded, CallAppendMessage _ _ m => Some (Logging (msg_storesUsed m))
  | Created, CallAppendMessage _ _ m => Some (Logging (msg_storesUsed m))
  | Logging remaining, CallAppendProviderLog _ d =>
      Logging <$> skipTo (store_name d) remaining
  | _, _ => None
  end.

Fixpoint steps (p : phase) (evs : list event) : option phase :=
  match evs with
  | [] => Some p
  | e :: rest => p' ← step p e; steps p' rest
  end.

(** A request's calls are in order when they lead from [Retrieving] to a
    phase after the response. *)
Definition inOrder (evs : list event) : bool :=
  match steps Retrieving evs with
  | Some Retrieving | None => false
  | Some _ => true
  end.

(* ================================================================= *)
(** ** A worked scenario

    The account has the stores admissions and library; the classifier's text
    is ["J"] surrounded by blanks, which parses to a selection of both stores
    with a rewritten question for the library. *)

Module Scenario.

Definition accessible : list AccessibleStore :=
  [ {| storeName := "admissions"; accountEmail := Some "adm@u.edu" |};
    {| storeName := "library"; accountEmail := Some "lib@u.edu" |};
    {| storeName := "sports"; accountEmail := None |} ].

Definition student : Student :=
  {| universityEmail := Some "u@u.edu"; accessibleStores := Some accessible |}.

Definition emptyStudent : Student :=
  {| universityEmail := Some "u@u.edu"; accessibleStores := Some [] |}.

Definition w0 : world :=
  {| students := {[ "s@u.edu.json" := Parsed student;
                    "e@u.edu.json" := Parsed emptyStudent ]};
     universities :=
       {[ "u@u.edu.json" := Parsed {| apiKeyInfo := Some {| key := Some "K" |} |} ]};
     chat_sessions := []; provider_questions := ∅; elsewhere := ∅;
     dates := 0; trace := [] |}.

Definition answer (a : string) : RagData :=
  {| response_text := Some a;
     groundingChunks := Some [ {| retrievedContext_text := Some ("on " +:+ a) |};
                               {| retrievedContext_text := None |} ] |}.

Definition classification : ClassificationResult :=
  {| stores := Some ["admissions"; "library"];
     split_questions := Some {[ "library" := "When does the library open?" ]};
     unanswered := Some [] |}.

Definition sportsOnly : ClassificationResult :=
  {| stores := Some ["sports"]; split_questions := None; unanswered := None |}.

Definition clock (n : nat) : string := "2024-01-0" +:+ pretty (S n) +:+ "T09:00:00.000Z".

Definition parse (s : string) : option parsed :=
  if String.eqb s "J" then Some (PObject classification)
  else if String.eqb s "S" then Some (PObject sportsOnly)
  else None.

(** Both selected stores answer. *)
Definition E0 : env :=
  {| toISOString := clock;
     Date_now := 1700000000000; random_digits := [10; 11; 12; 1; 2; 3];
     JSON_parse := parse;
     generateContent := fun _ _ _ => Some " J ";
     askQuestion := fun n _ _ _ =>
       Normal (Some {| success := true;
                       data := Some (answer (match n with
                                             | 0 => "9am"
                                             | _ => "8am-10pm"
                                             end)) |});
     creatable := fun _ => false |}.

(** The first store answers, the second one does not. *)
Definition E1 : env :=
  {| toISOString := clock;
     Date_now := 1700000000000; random_digits := [10; 11; 12; 1; 2; 3];
     JSON_parse := parse;
     generateContent := fun _ _ _ => Some " J ";
     askQuestion := fun n _ _ _ =>
       match n with
       | 0 => Normal (Some {| success := true; data := Some (answer "9am") |})
       | _ => Normal (Some {| success := false; data := None |})
       end;
     creatable := fun _ => false |}.

(** The first store answers, the call for the second one rejects. *)
Definition E2 : env :=
  {| toISOString := clock;
     Date_now := 1700000000000; random_digits := [10; 11; 12; 1; 2; 3];
     JSON_parse := parse;
     generateContent := fun _ _ _ => Some " J ";
     askQuestion := fun n _ _ _ =>
       match n with
       | 0 => Normal (Some {| success := true; data := Some (answer "9am") |})
       | _ => Throw
       end;
     creatable := fun _ => false |}.

(** Both calls succeed, the second one with an empty text. *)
Definition E3 : env :=
  {| toISOString := clock;
     Date_now := 1700000000000; random_digits := [10; 11; 12; 1; 2; 3];
     JSON_parse := parse;
     generateContent := fun _ _ _ => Some " J ";
     askQuestion := fun n _ _ _ =>
       match n with
       | 0 => Normal (Some {| success := true; data := Some (answer "9am") |})
       | _ => Normal (Some {| success := true;
                              data := Some {| response_text := Some "";
                                              groundingChunks := None |} |})
       end;
     creatable := fun _ => false |}.


Definition question : string := "When do admissions and the library open?".

Definition request : Request :=
  {| req_email := Some "s@u.edu"; req_question := Some question;
     req_sessionId := None |}.

Definition emptyRequest : Request :=
  {| req_email := Some "e@u.edu"; req_question := Some question;
     req_sessionId := Some "session_1_zzzzzz" |}.

End Scenario.

(** Two replies of the classifier service that are not a classification. *)

Module Replies.

Definition emptyObject : ClassificationResult :=
  {| stores := None; split_questions := None; unanswered := None |}.

(** A parser that agrees with [JSON.parse] on the texts below: it accepts
    the empty object alone. *)
Definition parseEmptyObject (s : string) : option parsed :=
  if String.eqb s "{}" then Some (PObject emptyObject) else None.

(** The classifier answers with two objects and a word between them. *)
Definition twoObjects : env :=
  {| toISOString := Scenario.clock; Date_now := 0; random_digits := [];
     JSON_parse := parseEmptyObject;
     generateContent := fun _ _ _ => Some "{} or {}";
     askQuestion := fun _ _ _ _ => Normal None;
     creatable := fun _ => false |}.

(** The classifier answers with an empty text. *)
Definition emptyText : env :=
  {| toISOString := Scenario.clock; Date_now := 0; random_digits := [];
     JSON_parse := parseEmptyObject;
     generateContent := fun _ _ _ => Some "";
     askQuestion := fun _ _ _ _ => Normal None;
     creatable := fun _ => false |}.

End Replies.

(** A chat directory with a history. *)

Module History.

(** Two sessions of one student, created one after the other. *)
Definition first : world :=
  snd (createSessionFile Scenario.E0 "s@u.edu" "session_1" (Some "Opening hours")
         Scenario.w0).

Definition second : world :=
  snd (createSessionFile Scenario.E0 "s@u.edu" "session_2" (Some "Fees") first).

End History.

(* ================================================================= *)
(** ** Further observations on the pipeline *)

(** Whether every code unit of a string satisfies [p]. *)
Fixpoint allChars (p : ascii -> bool) (s : string) : bool :=
  match s with
  | EmptyString => true
  | String c r => p c && allChars p r
  end.

(** The entries a provider log file holds, as [appendProviderLog] reads
    them: none when the file is missing, is no array, or does not parse. *)
Definition entriesOf (content : option logfile) : list ProviderLogEntry :=
  match content with
  | Some (LogArray arr) => arr
  | _ => []
  end.


Definition isProviderLog (e : event) : bool :=
  match e with
  | CallAppendProviderLog _ _ => true
  | _ => false
  end.

(** The session id a request is answered under:
    [sessionId || `session_${Date.now()}_${...}`]. *)
Definition sessionOf (E : env) (req : Request) : string :=
  if truthy (req_sessionId req) then default EmptyString (req_sessionId req)
  else mintSessionId E.

(** The calls one request adds to the trace. *)
Definition callsOf (E : env) (req : Request) (w : world) : list event :=
  drop (length (trace w)) (trace (snd (ask E req w))).

(** The statuses of the responses one request sends, in the order they are
    sent. *)
Definition statusesOf (E : env) (req : Request) (w : world) : list nat :=
  omap (fun e => match e with CallResJson r => Some (status r) | _ => None end)
       (callsOf E req w).

(** The entry of the listing for a session document. *)
Definition infoOf (d : Session) : SessionInfo :=
  {| si_sessionId := sessionId d; si_sessionName := sessionName d;
     si_createdAt := createdAt d |}.

Module Edge.

(** Replies of the classifier that parse to [null], to a number, and to a
    classification that selects no store. *)
Definition nothing : ClassificationResult :=
  {| stores := Some []; split_questions := None;
     unanswered := Some [ {| un_text := "Where is the moon?";
                             un_reason := "No department can answer this" |} ] |}.

Definition parse (s : string) : option parsed :=
  if String.eqb s "null" then Some PNull
  else if String.eqb s "42" then Some PNonObject
  else if String.eqb s "N" then Some (PObject nothing)
  else None.

Definition replying (txt : string) : env :=
  {| toISOString := Scenario.clock; Date_now := 1700000000000;
     random_digits := [10; 11; 12; 1; 2; 3]; JSON_parse := parse;
     generateContent := fun _ _ _ => Some txt;
     askQuestion := fun _ _ _ _ => Normal None;
     creatable := fun _ => false |}.

(** A request that continues the first session of [History.second]. *)
Definition followUp : Request :=
  {| req_email := Some "s@u.edu"; req_question := Some Scenario.question;
     req_sessionId := Some "session_1" |}.


(** A message as step 5 of the handler appends it. *)
Definition gym : Message :=
  {| msg_role := "assistant"; msg_question := "Where is the gym?";
     msg_answer := "Behind the library."; msg_storesUsed := ["sports"];
     msg_grounding := []; msg_timestamp := "t";
     msg_unresolvedParts := None; msg_searchedIn := None |}.

End Edge.

(* ================================================================= *)
(** ** The department routes of [src/accounts.js]: tickets and uploads

    The same conventions.  An account, a ticket and an upload entry are read
    at the fields the routes use; [tk_rest] and [up_rest] stand for the
    fields they pass through.  A field that is absent is [None].  The
    uploads of an account are an object from category names to arrays of
    entries.  The calls to ImageKit and to the retrieval service are
    recorded in [calls]; whether one resolves is a parameter of the route.
    The login route (bcrypt) and the upload route (multer, ImageKit) are not
    embedded.  The email of an account and the id of a ticket are read as
    the name of a file of their directory; one with a path separator, which
    [path.join] resolves to a file elsewhere, is outside the embedding. *)

(** [s.endsWith(suffix)] *)
Fixpoint endsWith (suffix s : string) : bool :=
  if String.eqb s suffix then true
  else match s with
       | EmptyString => false
       | String _ r => endsWith suffix r
       end.

Module Accounts.

Record Account := {
  accountEmail : option string;
  universityEmail : option string;
  apiKey : option string;
  ragStore : option (option string)     (* [acc.ragStore], and its [storeName] *)
}.

Record Ticket := {
  tk_accountEmail : option string;
  tk_status : option string;
  tk_solution : option string;
  tk_updatedAt : option string;
  tk_rest : list (string * string)
}.

Record Upload := {
  filename : string;
  imagekitFileId : option string;
  documentId : option string;           (* [ragData?.documentId] *)
  up_rest : list (string * string)
}.

(** [imagekit.deleteFile] and [RAGService.deleteDocument]. *)
Inductive call :=
  | DeleteFile (fileId : option string)
  | DeleteDocument (key storeName : option string) (docId : string).

(** [database/accounts], [database/tickets] and [database/uploads], the Date
    objects made so far, and the external calls made so far. *)
Record db := {
  accounts : dir (file Account);
  tickets : dir (file Ticket);
  uploads : dir (file (gmap string (list Upload)));
  made : nat;
  calls : list call
}.

Inductive reply :=
  | Failed (status : nat) (error : string)
  | Tickets (departmentEmail : option string) (totalPending totalCompleted : nat)
            (pending completed : list Ticket)
  | TicketSolved (ticket : Ticket)
  | FileDeleted (uploads : gmap string (list Upload)).

(** [readAccount], [readTicket]: [null] when the file is missing or does not
    parse. *)
Definition readJson {A} (d : dir (file A)) (id : string) : option A :=
  match readFile (id +:+ ".json") d with
  | Some (Parsed a) => Some a
  | _ => None
  end.

(** [readUploads]: three empty categories when the file is missing or does
    not parse. *)
Definition readUploads (d : db) (mail : string) : gmap string (list Upload) :=
  match readJson (uploads d) mail with
  | Some u => u
  | None => {[ "notice" := []; "faq" := []; "impData" := [] ]}
  end.

(** The first loop of [GET /tickets/:accountEmail]; [None] when a file that
    ends in [.json] does not parse: [JSON.parse] throws into the [catch] of
    the route. *)
Fixpoint departmentAccounts (departmentEmail : option string)
    (files : dir (file Account)) (acc : list (option string))
  : option (list (option string)) :=
  match files with
  | [] => Some acc
  | (a, content) :: rest =>
      if endsWith ".json" a
      then match content with
           | Parsed accData =>
               if bool_decide (universityEmail accData = departmentEmail)
               then departmentAccounts departmentEmail rest
                      (acc ++ [accountEmail accData])%list
               else departmentAccounts departmentEmail rest acc
           | Unparseable => None
           end
      else departmentAccounts departmentEmail rest acc
  end.

(** The second loop. *)
Fixpoint sortTickets (dept : list (option string)) (files : dir (file Ticket))
    (pending completed : list Ticket) : option (list Ticket * list Ticket) :=
  match files with
  | [] => Some (pending, completed)
  | (f, content) :: rest =>
      if endsWith ".json" f
      then match content with
           | Parsed t =>
               if bool_decide (tk_accountEmail t ∈ dept)
               then if bool_decide (tk_status t = Some "pending")
                    then sortTickets dept rest (pending ++ [t])%list completed
                    else sortTickets dept rest pending (completed ++ [t])%list
               else sortTickets dept rest pending completed
           | Unparseable => None
           end
      else sortTickets dept rest pending completed
  end.

(** [router.get('/tickets/:accountEmail', ...)] *)
Definition getTickets (mail : string) (d : db) : reply :=
  match readJson (accounts d) mail with
  | None => Failed 404 "Account not found"
  | Some account =>
      let departmentEmail := universityEmail account in
      match departmentAccounts departmentEmail (accounts d) [] with
      | None => Failed 500 "Internal server error"
      | Some dept =>
          match sortTickets dept (tickets d) [] [] with
          | None => Failed 500 "Internal server error"
          | Some (pending, completed) =>
              Tickets departmentEmail (length pending) (length completed)
                      pending completed
          end
      end
  end.

(** [router.put('/ticket/solve', ...)] *)
Definition solveTicket (E : env) (ticketId solution : option string) (d : db)
  : reply * db :=
  match ticketId, solution with
  | Some (String _ _ as id), Some (String _ _ as sol) =>
      match readJson (tickets d) id with
      | None => (Failed 404 "Ticket not found", d)
      | Some ticket =>
          let solved :=
            {| tk_accountEmail := tk_accountEmail ticket;
               tk_status := Some "completed"; tk_solution := Some sol;
               tk_updatedAt := Some (toISOString E (made d));
               tk_rest := tk_rest ticket |} in
          (TicketSolved solved,
           {| accounts := accounts d;
              tickets := writeFile (id +:+ ".json") (Parsed solved) (tickets d);
              uploads := uploads d; made := S (made d); calls := calls d |})
      end
  | _, _ => (Failed 400 "ticketId & solution required", d)
  end.

(** [router.delete('/upload/delete/:accountEmail', ...)].  [resolves] says
    whether an external call resolves; when it rejects, the [catch] of the
    route answers 500 after the calls made until then.  So it does when the
    category is no key of the uploads ([undefined.find]) and when the entry
    has a document id and the account no [ragStore]. *)
Definition deleteUpload (resolves : call -> bool) (mail : string)
    (category name : option string) (d : db) : reply * db :=
  let after (cs : list call) :=
    {| accounts := accounts d; tickets := tickets d; uploads := uploads d;
       made := made d; calls := (calls d ++ cs)%list |} in
  match category, name with
  | Some (String _ _ as cat), Some (String _ _ as fname) =>
      match readJson (accounts d) mail with
      | None => (Failed 404 "Account not found", d)
      | Some acc =>
          let ups := readUploads d mail in
          match ups !! cat with
          | None => (Failed 500 "Internal server error", d)
          | Some entries =>
              match List.find (fun f => String.eqb (filename f) fname) entries with
              | None => (Failed 404 "File not found", d)
              | Some fileEntry =>
                  let c1 := DeleteFile (imagekitFileId fileEntry) in
                  if negb (resolves c1)
                  then (Failed 500 "Internal server error", after [c1])
                  else
                    let finish (cs : list call) :=
                      let ups' :=
                        <[cat := List.filter
                                   (fun f => negb (String.eqb (filename f) fname))
                                   entries]> ups in
                      (FileDeleted ups',
                       {| accounts := accounts d; tickets := tickets d;
                          uploads := writeFile (mail +:+ ".json") (Parsed ups') (uploads d);
                          made := made d; calls := (calls d ++ cs)%list |}) in
                    match documentId fileEntry with
                    | Some (String _ _ as doc) =>
                        match ragStore acc with
                        | None => (Failed 500 "Internal server error", after [c1])
                        | Some storeName =>
                            let c2 := DeleteDocument (apiKey acc) storeName doc in
                            if resolves c2 then finish [c1; c2]
                            else (Failed 500 "Internal server error", after [c1; c2])
                        end
                    | _ => finish [c1]
                    end
              end
          end
      end
  | _, _ => (Failed 400 "category & filename required", d)
  end.

End Accounts.

(** The documents of the files of a directory that end in [.json], in
    directory order. *)
Definition jsonDocs {A} (d : dir (file A)) : list A :=
  omap (fun fc => if endsWith ".json" (fst fc)
                  then match snd fc with Parsed a => Some a | Unparseable => None end
                  else None) d.

(** A directory with a file that ends in [.json] and does not parse. *)
Definition corrupt {A} (d : dir (file A)) : Prop :=
  exists f, endsWith ".json" f = true /\ (f, Unparseable) ∈ d.

Module Desk.

Import Accounts.

Definition clerk : Account :=
  {| accountEmail := Some "lib@u.edu"; universityEmail := Some "u@u.edu";
     apiKey := Some "K"; ragStore := Some (Some "library") |}.

Definition ticket (who status : string) : Ticket :=
  {| tk_accountEmail := Some who; tk_status := Some status; tk_solution := None;
     tk_updatedAt := None; tk_rest := [("question", "Where is my card?")] |}.

Definition upload (name id : string) (doc : option string) : Upload :=
  {| filename := name; imagekitFileId := Some id; documentId := doc; up_rest := [] |}.

Definition d0 : db :=
  {| accounts := [ ("lib@u.edu.json", Parsed clerk) ];
     tickets := [ ("t1.json", Parsed (ticket "lib@u.edu" "pending"));
                  ("t2.json", Parsed (ticket "lib@u.edu" "completed"));
                  ("t3.json", Parsed (ticket "adm@v.edu" "pending")) ];
     uploads := [ ("lib@u.edu.json",
                   Parsed {[ "notice" := [ upload "hours.pdf" "ik1" (Some "doc1");
                                           upload "map.pdf" "ik2" None;
                                           upload "hours.pdf" "ik3" None ];
                             "faq" := [] ]}) ];
     made := 0; calls := [] |}.

(** The same desk with a ticket file of another department that does not
    parse. *)
Definition broken : db :=
  {| accounts := accounts d0;
     tickets := (tickets d0 ++ [("t4.json", Unparseable)])%list;
     uploads := uploads d0; made := 0; calls := [] |}.

(** ImageKit resolves, the retrieval service rejects. *)
Definition ragDown (c : call) : bool :=
  match c with
  | DeleteFile _ => true
  | DeleteDocument _ _ _ => false
  end.

End Desk.

(* ================================================================= *)
(** ** The system-admin routes: universities and their accounts

    The helpers [readUniversity] and [getUniversityAccounts] and the routes
    GET /universities/all and GET /universities/:email.  A document is a
    JSON object; a field holds a string or another value, kept as its JSON
    text.  The routes of the key pool call [./apikey], and the status route
    [./universityadmin]; neither is part of the sources, and those routes
    are not embedded. *)
Module Admin.

Inductive value :=
  | Str (s : string)
  | Other (json : string).

#[global] Instance value_eq_dec : EqDecision value.
Proof. solve_decision. Defined.

Definition obj := gmap string value.

Record db := {
  universities : dir (file obj);
  accounts : dir (file obj)
}.

Inductive reply :=
  | Failed (status : nat) (error : string)
  | All (count : nat) (universities : list obj)
  | Details (university : obj) (count : nat) (list : list obj).

(** [const { password, ...rest } = o] *)
Definition withoutPassword (o : obj) : obj := delete "password" o.

(** [readUniversity]: [null] when the file is missing or does not parse. *)
Definition readUniversity (d : db) (email : string) : option obj :=
  match readFile (sanitize email +:+ ".json") (universities d) with
  | Some (Parsed u) => Some u
  | _ => None
  end.

(** The loop of [getUniversityAccounts]; [None] when [JSON.parse] throws. *)
Fixpoint accountsOf (universityEmail : string) (files : dir (file obj))
    (accounts : list obj) : option (list obj) :=
  match files with
  | [] => Some accounts
  | (f, content) :: rest =>
      if endsWith ".json" f
      then match content with
           | Parsed account =>
               if bool_decide (account !! "universityEmail" = Some (Str universityEmail))
               then accountsOf universityEmail rest
                      (accounts ++ [withoutPassword account])%list
               else accountsOf universityEmail rest accounts
           | Unparseable => None
           end
      else accountsOf universityEmail rest accounts
  end.

(** [getUniversityAccounts]: its [catch] returns the empty array. *)
Definition getUniversityAccounts (d : db) (universityEmail : string) : list obj :=
  default [] (accountsOf universityEmail (accounts d) []).

(** The loop of GET /universities/all. *)
Fixpoint universitiesOf (files : dir (file obj)) (universities : list obj)
  : option (list obj) :=
  match files with
  | [] => Some universities
  | (f, content) :: rest =>
      if endsWith ".json" f
      then match content with
           | Parsed university =>
               universitiesOf rest (universities ++ [withoutPassword university])%list
           | Unparseable => None
           end
      else universitiesOf rest universities
  end.

(** [router.get('/universities/all', ...)] *)
Definition allUniversities (d : db) : reply :=
  match universitiesOf (universities d) [] with
  | Some universities => All (length universities) universities
  | None => Failed 500 "Internal server error"
  end.

(** [router.get('/universities/:email', ...)] *)
Definition universityDetails (d : db) (email : string) : reply :=
  match readUniversity d email with
  | None => Failed 404 "University not found"
  | Some university =>
      let accounts := getUniversityAccounts d email in
      Details (withoutPassword university) (length accounts) accounts
  end.

End Admin.

Module Registry.

Import Admin.

Definition campus : obj :=
  {[ "email" := Str "u@u.edu"; "password" := Str "$2b$10$hash"; "isActive" := Other "true" ]}.

Definition clerk (mail : string) : obj :=
  {[ "accountEmail" := Str mail; "universityEmail" := Str "u@u.edu";
     "password" := Str "$2b$10$hash" ]}.

Definition d0 : db :=
  {| universities := [ ("u@u.edu.json", Parsed campus) ];
     accounts := [ ("lib@u.edu.json", Parsed (clerk "lib@u.edu"));
                   ("adm@u.edu.json", Parsed (clerk "adm@u.edu")) ] |}.

(** The same registry with an account file, of whatever university, that
    does not parse. *)
Definition broken : db :=
  {| universities := universities d0;
     accounts := (accounts d0 ++ [("x@v.edu.json", Unparseable)])%list |}.

End Registry.

(* ================================================================= *)
(** ** Files and worlds *)

Lemma eqb_same (s : string) : String.eqb s s = true.
Proof. apply String.eqb_refl. Qed.

Lemma readFile_writeFile {A} (name : string) (c : A) (d : dir A) :
  readFile name (writeFile name c d) = Some c.
Proof.
  induction d as [|[n c0] r IH]; simpl.
  - by rewrite eqb_same.
  - destruct (String.eqb n name) eqn:Hn; simpl; rewrite Hn; [done | exact IH].
Qed.

Lemma readFile_writeFile_other {A} (name other : string) (c : A) (d : dir A) :
  other <> name -> readFile other (writeFile name c d) = readFile other d.
Proof.
  intros Hne. induction d as [|[n c0] r IH]; simpl.
  - destruct (String.eqb name other) eqn:Hn; [|done].
    apply String.eqb_eq in Hn. congruence.
  - destruct (String.eqb n name) eqn:Hn; simpl.
    + apply String.eqb_eq in Hn. subst n.
      destruct (String.eqb name other) eqn:Ho; [|done].
      apply String.eqb_eq in Ho. congruence.
    + by rewrite IH.
Qed.

Lemma emit_nil w : emit [] w = w.
Proof. destruct w. unfold emit. simpl. by rewrite app_nil_r. Qed.

Lemma emit_emit a b w : emit b (emit a w) = emit (a ++ b) w.
Proof. unfold emit. simpl. by rewrite app_assoc. Qed.

Lemma bind_run {A B} (m : M A) (k : A -> M B) w :
  bind m k w = k (fst (m w)) (snd (m w)).
Proof. unfold bind. by destruct (m w). Qed.

Lemma andThen_run (m k : M (completion unit)) w :
  andThen m k w
  = match fst (m w) with
    | Normal _ => k (snd (m w))
    | Throw => (Throw, snd (m w))
    end.
Proof. unfold andThen. rewrite bind_run. by destruct (fst (m w)). Qed.

Lemma detached_run (body : M (completion unit)) w :
  detached body w = (tt, snd (body w)).
Proof. unfold detached. by rewrite bind_run. Qed.

Lemma settled_run (m : M unit) w : settled m w = (Normal tt, snd (m w)).
Proof. unfold settled. by rewrite bind_run. Qed.

(* ================================================================= *)
(** ** The path of a session file *)

Lemma append_assoc (a b c : string) : (a +:+ b) +:+ c = a +:+ (b +:+ c).
Proof.
  induction a as [|x a IH]; [reflexivity|].
  change (String x ((a +:+ b) +:+ c) = String x (a +:+ (b +:+ c))). by rewrite IH.
Qed.

Lemma length_append a b : String.length (a +:+ b) = String.length a + String.length b.
Proof.
  induction a as [|c a IH]; [reflexivity|].
  change (S (String.length (a +:+ b)) = S (String.length a) + String.length b).
  by rewrite IH.
Qed.

Lemma indexOf_app c a b :
  indexOf c a = None -> indexOf c b = None -> indexOf c (a +:+ b) = None.
Proof.
  intros Ha Hb. induction a as [|d a IH]; [exact Hb|].
  change (indexOf c (String d (a +:+ b)) = None). cbn [indexOf] in *.
  destruct (Ascii.eqb c d); [discriminate|].
  destruct (indexOf c a); [discriminate|]. by rewrite IH.
Qed.

Lemma indexOf_sanitize (s : string) : indexOf "/"%char (sanitize s) = None.
Proof.
  induction s as [|c r IH]; [reflexivity|]. cbn [sanitize indexOf]. rewrite IH.
  destruct (is_safe_char c) eqn:Hc; [|reflexivity].
  destruct (Ascii.eqb "/" c) eqn:Heq; [|reflexivity].
  apply Ascii.eqb_eq in Heq. subst c. discriminate.
Qed.

(** A name without a separator is one segment. *)
Lemma splitOn_plain c cur s :
  indexOf c s = None -> splitOn c cur s = [cur +:+ s].
Proof.
  revert cur. induction s as [|d r IH]; intros cur Hs.
  - simpl. f_equal. clear. induction cur as [|x cur IH]; [reflexivity|].
    change (String x cur = String x (cur +:+ "")). by rewrite <- IH.
  - cbn [indexOf] in Hs. cbn [splitOn].
    destruct (Ascii.eqb c d) eqn:Hcd; [discriminate|].
    rewrite Ascii.eqb_sym, Hcd.
    destruct (indexOf c r) eqn:Hr; [discriminate|].
    rewrite IH by done. f_equal. apply append_assoc.
Qed.

(** The session file of an id without a path separator is the file of the
    chat directory that is named by the sanitized email, [__], the id and
    [.json]. *)
Lemma getSessionFile_plain mail sid :
  indexOf "/"%char sid = None ->
  getSessionFile mail sid
  = (0, ["database"; "chat_sessions"; sanitize mail +:+ "__" +:+ sid +:+ ".json"]).
Proof.
  intros Hsid. unfold getSessionFile, path_join.
  set (name := sanitize mail +:+ "__" +:+ sid +:+ ".json").
  assert (Hplain : indexOf "/"%char name = None).
  { subst name. apply indexOf_app; [apply indexOf_sanitize|].
    apply (indexOf_app _ "__"); [reflexivity|]. by apply indexOf_app. }
  rewrite (splitOn_plain _ _ _ Hplain).
  change (EmptyString +:+ name) with name.
  assert (Hlen : 7 <= String.length name).
  { subst name. rewrite !length_append. simpl. lia. }
  change (fst CHAT_DIR) with 0.
  change (rev (snd CHAT_DIR)) with ["chat_sessions"; "database"].
  cbn [walk].
  destruct (String.eqb name "") eqn:H0.
  { apply String.eqb_eq in H0. rewrite H0 in Hlen. simpl in Hlen. lia. }
  destruct (String.eqb name ".") eqn:H1.
  { apply String.eqb_eq in H1. rewrite H1 in Hlen. simpl in Hlen. lia. }
  destruct (String.eqb name "..") eqn:H2.
  { apply String.eqb_eq in H2. rewrite H2 in Hlen. simpl in Hlen. lia. }
  reflexivity.
Qed.

Lemma locate_plain mail sid :
  indexOf "/"%char sid = None ->
  locate (getSessionFile mail sid)
  = InChat (sanitize mail +:+ "__" +:+ sid +:+ ".json").
Proof. intros Hsid. by rewrite (getSessionFile_plain _ _ Hsid). Qed.

Lemma inChatDir_plain mail sid : indexOf "/"%char sid = None -> inChatDir mail sid = true.
Proof. intros Hsid. unfold inChatDir. by rewrite (locate_plain _ _ Hsid). Qed.


(** A minted session id has no path separator. *)
Lemma indexOf_pretty_N_go (x : N) (s : string) :
  indexOf "/"%char s = None -> indexOf "/"%char (pretty_N_go x s) = None.
Proof.
  revert s. induction (N.lt_wf_0 x) as [x _ IH]; intros s Hs.
  destruct (decide (0 < x)%N) as [Hx|Hx].
  - rewrite pretty_N_go_step by done. apply IH; [by apply N.div_lt|].
    cbn [indexOf]. rewrite Hs.
    unfold pretty_N_char. by repeat case_match.
  - replace x with 0%N by lia. by rewrite pretty_N_go_0.
Qed.

Lemma indexOf_pretty_Z (z : Z) : indexOf "/"%char (pretty z) = None.
Proof.
  assert (HN : forall p, indexOf "/"%char (pretty (Npos p)) = None).
  { intros p. unfold pretty, pretty_N. case_decide; [reflexivity|].
    by apply indexOf_pretty_N_go. }
  destruct z as [|p|p]; [reflexivity | apply HN |].
  change (pretty (Zneg p)) with ("-" +:+ pretty (Npos p)).
  apply (indexOf_app _ "-"); [reflexivity | apply HN].
Qed.

Lemma digit36_not_separator (d : nat) : Ascii.eqb "/" (digit36 d) = false.
Proof.
  apply Ascii.eqb_neq. intros Heq. apply (f_equal nat_of_ascii) in Heq.
  unfold digit36 in Heq.
  pose proof (Nat.mod_upper_bound d 36 ltac:(lia)) as Hlt.
  destruct (Nat.ltb (d mod 36) 10) eqn:Hd.
  - apply Nat.ltb_lt in Hd. rewrite nat_ascii_embedding in Heq by lia.
    change (nat_of_ascii "/") with 47 in Heq. lia.
  - apply Nat.ltb_ge in Hd. rewrite nat_ascii_embedding in Heq by lia.
    change (nat_of_ascii "/") with 47 in Heq. lia.
Qed.

Lemma mintSessionId_plain (E : env) : indexOf "/"%char (mintSessionId E) = None.
Proof.
  unfold mintSessionId. apply (indexOf_app _ "session_"); [reflexivity|].
  apply indexOf_app; [apply indexOf_pretty_Z|].
  apply (indexOf_app _ "_"); [reflexivity|].
  unfold random_suffix. generalize (take 6 (random_digits E)). intros ds.
  induction ds as [|d ds IH]; [reflexivity|].
  cbn [map string_of_list_ascii indexOf]. by rewrite digit36_not_separator, IH.
Qed.

(** The session file of a minted id, and of every id without a path
    separator, is a file of the chat directory. *)
Lemma inChatDir_minted (E : env) (mail : string) :
  inChatDir mail (mintSessionId E) = true.
Proof. apply inChatDir_plain, mintSessionId_plain. Qed.

(* ================================================================= *)
(** ** Reading and writing session files *)

Lemma sessionWritable_ext E mail sid w1 w2 :
  elsewhere w1 = elsewhere w2 ->
  sessionWritable E mail sid w1 = sessionWritable E mail sid w2.
Proof. unfold sessionWritable. by intros ->. Qed.

Lemma getSession_ext mail sid w1 w2 :
  chat_sessions w1 = chat_sessions w2 -> elsewhere w1 = elsewhere w2 ->
  getSession mail sid w1 = getSession mail sid w2.
Proof. unfold getSession, readChat. cbn [fst]. by intros -> ->. Qed.

Lemma getSession_writable E mail sid w s :
  getSession mail sid w = Some s -> sessionWritable E mail sid w = true.
Proof.
  unfold getSession, readChat, sessionWritable. cbn [fst].
  destruct (locate _) as [f| |p]; [done|done|].
  destruct (elsewhere w !! p) as [c|] eqn:Hp; [|done]. intros _.
  rewrite bool_decide_eq_true_2; [done | by eexists].
Qed.

(** What a write to a session file does. *)
Lemma writeChat_outcome E mail sid s w :
  let r := writeChat E (getSessionFile mail sid) s w in
  fst r = (if sessionWritable E mail sid w then Normal tt else Throw) /\
  trace (snd r) = trace w /\ dates (snd r) = dates w /\
  students (snd r) = students w /\ universities (snd r) = universities w /\
  provider_questions (snd r) = provider_questions w /\
  sessionWritable E mail sid (snd r) = sessionWritable E mail sid w /\
  (if sessionWritable E mail sid w
   then getSession mail sid (snd r) = Some s
   else snd r = w) /\
  match locate (getSessionFile mail sid) with
  | InChat f =>
      chat_sessions (snd r) = writeFile f (Parsed s) (chat_sessions w) /\
      elsewhere (snd r) = elsewhere w
  | NoSuchFile => True
  | Elsewhere p => chat_sessions (snd r) = chat_sessions w
  end.
Proof.
  unfold writeChat, sessionWritable, getSession, readChat.
  destruct (locate (getSessionFile mail sid)) as [f| |p] eqn:Hloc; cbn [fst snd].
  - cbn [chat_sessions]. by rewrite readFile_writeFile.
  - done.
  - destruct (bool_decide (is_Some (elsewhere w !! p)) || creatable E p) eqn:Hok;
      cbn [fst snd elsewhere].
    + rewrite lookup_insert_eq. repeat split;
        try (rewrite bool_decide_eq_true_2; [done | by eexists]).
    + by rewrite Hok.
Qed.

Lemma now_run E w :
  fst (now E w) = toISOString E (dates w) /\
  trace (snd (now E w)) = trace w /\ dates (snd (now E w)) = S (dates w) /\
  students (snd (now E w)) = students w /\
  universities (snd (now E w)) = universities w /\
  chat_sessions (snd (now E w)) = chat_sessions w /\
  provider_questions (snd (now E w)) = provider_questions w /\
  elsewhere (snd (now E w)) = elsewhere w.
Proof. done. Qed.

(** What a session create does. *)
Lemma createSessionFile_outcome E mail sid name w :
  let r := createSessionFile E mail sid name w in
  let s := {| sessionId := sid; sessionName := name; email := mail;
              createdAt := toISOString E (dates w);
              updatedAt := toISOString E (S (dates w)); messages := Some [] |} in
  fst r = (if sessionWritable E mail sid w then Normal tt else Throw) /\
  trace (snd r) = (trace w ++ [CallCreateSessionFile mail sid name])%list /\
  students (snd r) = students w /\ universities (snd r) = universities w /\
  provider_questions (snd r) = provider_questions w /\
  sessionWritable E mail sid (snd r) = sessionWritable E mail sid w /\
  (if sessionWritable E mail sid w
   then getSession mail sid (snd r) = Some s
   else chat_sessions (snd r) = chat_sessions w /\ elsewhere (snd r) = elsewhere w) /\
  match locate (getSessionFile mail sid) with
  | InChat f =>
      chat_sessions (snd r) = writeFile f (Parsed s) (chat_sessions w) /\
      elsewhere (snd r) = elsewhere w
  | NoSuchFile => True
  | Elsewhere p => chat_sessions (snd r) = chat_sessions w
  end.
Proof.
  cbv zeta. unfold createSessionFile. rewrite !bind_run.
  cbn [call now fst snd dates emit].
  match goal with |- context [writeChat E _ ?s ?w1] =>
    destruct (writeChat_outcome E mail sid s w1)
      as (Hfst & Htr & _ & Hst & Hun & Hpq & Hwr & Hget & Hloc);
    set (r := writeChat E (getSessionFile mail sid) s w1) in *;
    change (sessionWritable E mail sid w1) with (sessionWritable E mail sid w) in *
  end.
  rewrite Hfst, Htr, Hst, Hun, Hpq, Hwr. cbn [trace students universities provider_questions].
  repeat split.
  - destruct (sessionWritable E mail sid w); [exact Hget|]. by rewrite Hget.
  - exact Hloc.
Qed.

(** What a message append does: the call, the outcome, and the session read
    back, by what was read before. *)
Lemma appendMessage_outcome E mail sid m w :
  let r := appendMessageToSessionFile E mail sid m w in
  fst r = (if sessionWritable E mail sid w then Normal tt else Throw) /\
  trace (snd r) = (trace w ++ [CallAppendMessage mail sid m])%list /\
  students (snd r) = students w /\ universities (snd r) = universities w /\
  provider_questions (snd r) = provider_questions w /\
  sessionWritable E mail sid (snd r) = sessionWritable E mail sid w /\
  (if sessionWritable E mail sid w
   then exists s,
          getSession mail sid (snd r) = Some s /\
          match getSession mail sid w with
          | Some s0 =>
              messages s = Some (default [] (messages s0) ++ [m])%list /\
              sessionId s = sessionId s0 /\ sessionName s = sessionName s0 /\
              email s = email s0 /\ createdAt s = createdAt s0
          | None =>
              messages s = Some [m] /\ sessionId s = sid /\ email s = mail /\
              sessionName s = Some (generateSessionName (Some (msg_question m)))
          end
   else chat_sessions (snd r) = chat_sessions w /\ elsewhere (snd r) = elsewhere w) /\
  match locate (getSessionFile mail sid) with
  | InChat f =>
      (exists s, chat_sessions (snd r) = writeFile f (Parsed s) (chat_sessions w)) /\
      elsewhere (snd r) = elsewhere w
  | NoSuchFile => True
  | Elsewhere p => chat_sessions (snd r) = chat_sessions w
  end.
Proof.
  cbv zeta. unfold appendMessageToSessionFile. rewrite !bind_run.
  cbn [call fst snd].
  set (w0 := emit [CallAppendMessage mail sid m] w).
  assert (Hread : fst (readChat (getSessionFile mail sid) w0)
                  = fst (readChat (getSessionFile mail sid) w)) by reflexivity.
  assert (Hsnd : snd (readChat (getSessionFile mail sid) w0) = w0) by reflexivity.
  rewrite Hsnd.
  assert (Hw0 : sessionWritable E mail sid w0 = sessionWritable E mail sid w)
    by reflexivity.
  (* the session made on the fly *)
  assert (Hsyn : forall w1,
            trace w1 = trace w0 -> students w1 = students w -> universities w1 = universities w ->
            provider_questions w1 = provider_questions w ->
            chat_sessions w1 = chat_sessions w -> elsewhere w1 = elsewhere w ->
            let r := synthesize E mail sid m w1 in
            fst r = (if sessionWritable E mail sid w then Normal tt else Throw) /\
            trace (snd r) = trace w0 /\
            students (snd r) = students w /\ universities (snd r) = universities w /\
            provider_questions (snd r) = provider_questions w /\
            sessionWritable E mail sid (snd r) = sessionWritable E mail sid w /\
            (if sessionWritable E mail sid w
             then exists s,
                    getSession mail sid (snd r) = Some s /\
                    messages s = Some [m] /\ sessionId s = sid /\ email s = mail /\
                    sessionName s = Some (generateSessionName (Some (msg_question m)))
             else chat_sessions (snd r) = chat_sessions w /\
                  elsewhere (snd r) = elsewhere w) /\
            match locate (getSessionFile mail sid) with
            | InChat f =>
                (exists s, chat_sessions (snd r) = writeFile f (Parsed s) (chat_sessions w)) /\
                elsewhere (snd r) = elsewhere w
            | NoSuchFile => True
            | Elsewhere p => chat_sessions (snd r) = chat_sessions w
            end).
  { intros w1 Ht Hs Hu Hp Hc He. cbv zeta. unfold synthesize. rewrite !bind_run.
    match goal with |- context [writeChat E _ ?s ?w2] =>
      destruct (writeChat_outcome E mail sid s w2)
        as (Hfst & Htr & _ & Hst & Hun & Hpq & Hwr & Hget & Hloc);
      set (r := writeChat E (getSessionFile mail sid) s w2) in *;
      assert (Hw2 : sessionWritable E mail sid w2 = sessionWritable E mail sid w)
        by (apply sessionWritable_ext; cbn [now snd elsewhere]; exact He);
      rewrite Hw2 in *
    end.
    rewrite Hfst, Htr, Hst, Hun, Hpq, Hwr.
    cbn [now snd trace students universities provider_questions].
    do 6 (split; [done|]). split.
    - destruct (sessionWritable E mail sid w).
      + eexists. split; [exact Hget|]. done.
      + rewrite Hget. cbn [now snd chat_sessions elsewhere]. by split.
    - destruct (locate (getSessionFile mail sid)); [|done|].
      + destruct Hloc as [Hc' He']. rewrite Hc', He'.
        cbn [now snd chat_sessions elsewhere]. rewrite Hc, He. split; [by eexists | done].
      + rewrite Hloc. cbn [now snd chat_sessions]. exact Hc. }
  rewrite Hread. unfold getSession at 2.
  destruct (fst (readChat (getSessionFile mail sid) w)) as [[s0|]|] eqn:Hcontent.
  - (* the session exists *)
    assert (Hwritable : sessionWritable E mail sid w = true).
    { apply (getSession_writable E mail sid w s0). unfold getSession. by rewrite Hcontent. }
    rewrite !bind_run.
    match goal with |- context [writeChat E _ ?s ?w2] =>
      destruct (writeChat_outcome E mail sid s w2)
        as (Hfst & Htr & _ & Hst & Hun & Hpq & Hwr & Hget & Hloc);
      set (r := writeChat E (getSessionFile mail sid) s w2) in *;
      assert (Hw2 : sessionWritable E mail sid w2 = true) by exact Hwritable;
      rewrite Hw2 in *
    end.
    rewrite Hfst. cbn [ret fst snd]. rewrite Htr, Hst, Hun, Hpq, Hwr, Hwritable.
    do 6 (split; [done|]). split.
    + eexists. split; [exact Hget|]. done.
    + destruct (locate (getSessionFile mail sid)); [|done|].
      * destruct Hloc as [Hc' He']. rewrite Hc', He'. split; [by eexists | done].
      * exact Hloc.
  - destruct (Hsyn w0) as (H1 & H2 & H3 & H4 & H5 & H6 & H7 & H8); try reflexivity.
    cbv zeta in *. rewrite H1, H2, H3, H4, H5, H6. do 6 (split; [done|]).
    split; [|exact H8]. destruct (sessionWritable E mail sid w); [|exact H7].
    destruct H7 as (s & Hs & Hrest). by exists s.
  - destruct (Hsyn w0) as (H1 & H2 & H3 & H4 & H5 & H6 & H7 & H8); try reflexivity.
    cbv zeta in *. rewrite H1, H2, H3, H4, H5, H6. do 6 (split; [done|]).
    split; [|exact H8]. destruct (sessionWritable E mail sid w); [|exact H7].
    destruct H7 as (s & Hs & Hrest). by exists s.
Qed.




(* ================================================================= *)
(** ** A request without stores *)

Section ZeroStores.

Context (E : env) (req : Request) (w : world).
Context (mail question : string) (student : Student).
Hypothesis Hmail : req_email req = Some mail.
Hypothesis Hmail_given : mail <> "".
Hypothesis Hquestion : req_question req = Some question.
Hypothesis Hquestion_given : question <> "".
Hypothesis Hstudent : fst (readStudent mail w) = Some student.
Hypothesis Hnone : default [] (accessibleStores student) = [].

Lemma ask_zero_stores : ask E req w = (tt, emit [CallResJson noStoresAvailable] w).
Proof using All.
  unfold ask. rewrite Hmail, Hquestion.
  destruct mail as [|a m]; [done|]. destruct question as [|b q]; [done|].
  rewrite bind_run, Hstudent, Hnone. reflexivity.
Qed.

(** C5.  A valid request (email and question present, account found) whose
    account has no accessible store is answered by one call of [res.json]
    with the fixed no-stores-available text and an empty [storesUsed], and
    nothing else happens: no session file and no provider log is created or
    changed, and no persistence call is made. *)
Theorem zero_stores_no_persistence :
  let w' := snd (ask E req w) in
  trace w' = (trace w ++ [CallResJson noStoresAvailable])%list /\
  res_storesUsed noStoresAvailable = Some [] /\
  res_answer noStoresAvailable = Some "No RAG stores available for your account." /\
  chat_sessions w' = chat_sessions w /\
  provider_questions w' = provider_questions w /\
  filter (fun e => isPersistence e = true) (drop (length (trace w)) (trace w')) = [].
Proof using All.
  rewrite ask_zero_stores. cbn [snd emit trace chat_sessions provider_questions].
  rewrite drop_app_length. repeat split; reflexivity.
Qed.

End ZeroStores.

Lemma zero_stores_no_persistence_witness :
  let w' := snd (ask Scenario.E0 Scenario.emptyRequest Scenario.w0) in
  trace w' = [CallResJson noStoresAvailable] /\
  chat_sessions w' = [] /\ provider_questions w' = ∅.
Proof.
  pose proof (zero_stores_no_persistence Scenario.E0 Scenario.emptyRequest
                Scenario.w0 "e@u.edu" Scenario.question Scenario.emptyStudent
                eq_refl ltac:(discriminate) eq_refl ltac:(discriminate)
                ltac:(vm_compute; reflexivity) eq_refl) as H.
  cbv zeta in H. destruct H as (Ht & _ & _ & Hc & Hp & _).
  cbv zeta. rewrite Ht, Hc, Hp. repeat split; reflexivity.
Defined.

(** C10.  In the zero-stores branch the [sessionId] of the response is
    [null] whatever session id the caller supplied, and no id is minted: the
    run does not depend on the clock, on the random suffix or on any other
    part of the environment. *)
Theorem zero_stores_sessionId_null (E : env) (w : world) (mail question : string)
    (student : Student) (supplied : option string) :
  mail <> "" -> question <> "" ->
  fst (readStudent mail w) = Some student ->
  default [] (accessibleStores student) = [] ->
  let req := {| req_email := Some mail; req_question := Some question;
                req_sessionId := supplied |} in
  exists r,
    trace (snd (ask E req w)) = (trace w ++ [CallResJson r])%list /\
    res_sessionId r = Some None /\
    forall E', ask E' req w = ask E req w.
Proof.
  intros Hm Hq Hs Hn req. exists noStoresAvailable.
  assert (Hask : forall E0, ask E0 req w = (tt, emit [CallResJson noStoresAvailable] w)).
  { intros E0. by apply (ask_zero_stores E0 req w mail question student). }
  rewrite Hask. repeat split. intros E'. by rewrite !Hask.
Qed.

Lemma zero_stores_sessionId_null_witness :
  exists r,
    trace (snd (ask Scenario.E0 Scenario.emptyRequest Scenario.w0)) = [CallResJson r] /\
    res_sessionId r = Some None.
Proof.
  destruct (zero_stores_sessionId_null Scenario.E0 Scenario.w0 "e@u.edu"
              Scenario.question Scenario.emptyStudent (Some "session_1_zzzzzz")
              ltac:(discriminate) ltac:(discriminate)
              ltac:(vm_compute; reflexivity) eq_refl) as (r & Ht & Hr & _).
  exists r. split; [exact Ht | exact Hr].
Defined.

(* ================================================================= *)
(** ** Session naming *)

Lemma snoc_not_empty (cur : string) (c : ascii) : cur +:+ String c EmptyString <> EmptyString.
Proof. destruct cur; discriminate. Qed.

Lemma lastIsSpace_cons (c : ascii) (r : string) :
  r <> EmptyString -> lastIsSpace (String c r) = lastIsSpace r.
Proof. destruct r; [congruence | reflexivity]. Qed.

Lemma wordsFrom_trimStart (s : string) :
  wordsFrom EmptyString (trimStart s) = wordsFrom EmptyString s.
Proof.
  induction s as [|c r IH]; [reflexivity|].
  simpl. destruct (is_space c) eqn:Hc; [exact IH|].
  simpl. by rewrite Hc.
Qed.

Lemma wordsFrom_trimEnd (s cur : string) :
  wordsFrom cur (trimEnd s) = wordsFrom cur s.
Proof.
  revert cur. induction s as [|c r IH]; intros cur; [reflexivity|].
  simpl. destruct (trimEnd r) as [|d r'] eqn:Hr.
  - destruct (is_space c) eqn:Hc.
    + destruct cur; simpl; by rewrite <- IH.
    + simpl. rewrite Hc. by rewrite <- IH.
  - simpl (wordsFrom cur (String c _)). destruct (is_space c).
    + destruct cur; by rewrite <- IH.
    + by rewrite <- IH.
Qed.

Lemma words_trim (s : string) : words (trim s) = words s.
Proof. unfold words, trim. by rewrite wordsFrom_trimEnd, wordsFrom_trimStart. Qed.

Lemma firstIsSpace_trimStart (s : string) : firstIsSpace (trimStart s) = false.
Proof.
  induction s as [|c r IH]; [reflexivity|].
  simpl. destruct (is_space c) eqn:Hc; [exact IH | simpl; exact Hc].
Qed.

Lemma firstIsSpace_trimEnd (s : string) :
  firstIsSpace s = false -> firstIsSpace (trimEnd s) = false.
Proof.
  destruct s as [|c r]; [reflexivity|]. simpl. intros Hc.
  destruct (trimEnd r); rewrite ?Hc; simpl; by rewrite ?Hc.
Qed.

Lemma lastIsSpace_trimEnd (s : string) : lastIsSpace (trimEnd s) = false.
Proof.
  induction s as [|c r IH]; [reflexivity|].
  simpl. destruct (trimEnd r) as [|d r'] eqn:Hr.
  - destruct (is_space c) eqn:Hc; simpl; [reflexivity | exact Hc].
  - rewrite lastIsSpace_cons; [exact IH | discriminate].
Qed.

Lemma trimStart_id (s : string) : firstIsSpace s = false -> trimStart s = s.
Proof. destruct s as [|c r]; [reflexivity|]. simpl. by intros ->. Qed.

Lemma trimEnd_id (s : string) : lastIsSpace s = false -> trimEnd s = s.
Proof.
  induction s as [|c r IH]; [reflexivity|].
  destruct r as [|d r'].
  - simpl. by intros ->.
  - intros H. rewrite lastIsSpace_cons in H by discriminate.
    change (trimEnd (String c (String d r')))
      with (match trimEnd (String d r') with
            | EmptyString => if is_space c then EmptyString else String c EmptyString
            | r'' => String c r''
            end).
    by rewrite (IH H).
Qed.

Lemma trim_id (s : string) :
  firstIsSpace s = false -> lastIsSpace s = false -> trim s = s.
Proof. intros Hf Hl. unfold trim. rewrite (trimStart_id s Hf). by apply trimEnd_id. Qed.

(** On a string without outer white space, [split] yields the words. *)
Lemma splitWs_wordsFrom (s cur : string) (gap : bool) :
  (gap = true -> cur = EmptyString) ->
  (cur = EmptyString -> gap = false -> firstIsSpace s = false /\ s <> EmptyString) ->
  (s = EmptyString -> cur <> EmptyString) ->
  lastIsSpace s = false ->
  splitWs cur gap s = wordsFrom cur s.
Proof.
  revert cur gap. induction s as [|c r IH]; intros cur gap Hgap Hfirst Hend Hlast.
  - simpl. destruct cur; [by destruct Hend | reflexivity].
  - simpl. destruct (is_space c) eqn:Hc.
    + assert (Hr : r <> EmptyString).
      { intros ->. simpl in Hlast. congruence. }
      rewrite lastIsSpace_cons in Hlast by exact Hr.
      assert (IH' : splitWs EmptyString true r = wordsFrom EmptyString r).
      { apply IH; [done | intros _ [=] | done | exact Hlast]. }
      destruct gap.
      * rewrite (Hgap eq_refl). exact IH'.
      * destruct cur as [|a cur'].
        -- destruct (Hfirst eq_refl eq_refl) as [Hf _]. simpl in Hf. congruence.
        -- by rewrite IH'.
    + apply IH.
      * intros [=].
      * intros Hcur. by destruct (snoc_not_empty cur c).
      * intros _. apply snoc_not_empty.
      * destruct r; [reflexivity|]. by rewrite lastIsSpace_cons in Hlast.
Qed.

Lemma split_trim_words (q : string) :
  trim q <> EmptyString -> split_space (trim q) = words q.
Proof.
  intros Hne. rewrite <- words_trim. unfold split_space, words.
  apply splitWs_wordsFrom.
  - intros [=].
  - intros _ _. split; [|exact Hne].
    unfold trim. apply firstIsSpace_trimEnd, firstIsSpace_trimStart.
  - done.
  - apply lastIsSpace_trimEnd.
Qed.

(** C6, as amended.  For every non-empty question: when it has at most 10
    words (maximal runs of non-white-space), the session name is the
    question with its leading and trailing white space removed, hence the
    question verbatim when it has none; when it has more than 10 words, the
    name is the first 10 words joined by single spaces, followed by ["..."]. *)
Theorem generateSessionName_spec (q : string) :
  q <> EmptyString ->
  (length (words q) <= 10 -> generateSessionName (Some q) = trim q) /\
  (10 < length (words q) ->
   generateSessionName (Some q) = join " " (take 10 (words q)) +:+ "...") /\
  (length (words q) <= 10 -> firstIsSpace q = false -> lastIsSpace q = false ->
   generateSessionName (Some q) = q).
Proof.
  intros Hq.
  assert (Hname : generateSessionName (Some q) =
                  if Nat.leb (length (split_space (trim q))) 10 then trim q
                  else join " " (take 10 (split_space (trim q))) +:+ "...").
  { destruct q; [done | reflexivity]. }
  assert (Hshort : length (words q) <= 10 -> generateSessionName (Some q) = trim q).
  { intros Hle. rewrite Hname. destruct (trim q) as [|c t] eqn:Ht; [reflexivity|].
    rewrite <- Ht, split_trim_words by (rewrite Ht; discriminate).
    by rewrite (leb_correct _ _ Hle). }
  split; [exact Hshort | split].
  - intros Hgt. rewrite Hname.
    assert (Hne : trim q <> EmptyString).
    { intros Ht. rewrite <- words_trim, Ht in Hgt. simpl in Hgt. lia. }
    rewrite split_trim_words by exact Hne.
    by rewrite (leb_correct_conv _ _ Hgt).
  - intros Hle Hf Hl. rewrite (Hshort Hle). by apply trim_id.
Qed.

Lemma generateSessionName_spec_witness :
  generateSessionName (Some "What time does the library open on weekdays?")
  = "What time does the library open on weekdays?".
Proof.
  apply (generateSessionName_spec "What time does the library open on weekdays?");
    [discriminate | vm_compute; lia | reflexivity | reflexivity].
Defined.

(** C6 as stated fails: a question of one word with a leading blank is not
    named verbatim, and the empty question is named ["New Session"]. *)
Lemma generateSessionName_not_verbatim :
  length (words " hi") <= 10 /\
  generateSessionName (Some " hi") = "hi" /\
  generateSessionName (Some " hi") <> " hi" /\
  length (words "") <= 10 /\
  generateSessionName (Some "") = "New Session".
Proof. vm_compute. repeat split; try lia; discriminate. Qed.

(* ================================================================= *)
(** ** The classifier adapter *)

(** C3, as amended.  [classifyStores] never throws: for every credential,
    store list and question it returns a value, which is the select-all
    fallback, the empty selection, or a value the JSON parser returned.
    Without a credential it is the select-all fallback, and so it is when
    the external call fails.  An empty response text gives the empty
    selection.  Otherwise the trimmed text is parsed; when that fails, the
    span from its first opening brace to its last closing brace is parsed;
    when there is no such span or it does not parse, the result is the
    select-all fallback. *)
Theorem classifyStores_total (E : env) (geminiKey : option string)
    (storeNames : list string) (question : string) :
  exists v,
    classifyStores E geminiKey storeNames question = Normal v /\
    (v = selectAll storeNames \/ v = selectNone \/ exists s, JSON_parse E s = Some v) /\
    (truthy geminiKey = false -> v = selectAll storeNames) /\
    (forall k, geminiKey = Some k -> k <> EmptyString ->
       match generateContent E k storeNames question with
       | None => v = selectAll storeNames
       | Some EmptyString => v = selectNone
       | Some txt =>
           match JSON_parse E (trim txt) with
           | Some p => v = p
           | None =>
               match braceSpan (trim txt) ≫= JSON_parse E with
               | Some p => v = p
               | None => v = selectAll storeNames
               end
           end
       end).
Proof.
  unfold classifyStores.
  destruct geminiKey as [[|a k]|]; simpl.
  - eexists. split; [reflexivity|]. split; [by left|]. split; [done|].
    intros k [= <-] Hk. done.
  - destruct (generateContent E (String a k) storeNames question) as [[|b txt]|] eqn:Hgen;
      simpl.
    + eexists. split; [reflexivity|]. split; [right; by left|]. split; [done|].
      intros k' [= <-] _. by rewrite Hgen.
    + destruct (JSON_parse E (trim (String b txt))) as [p|] eqn:Hp; simpl.
      * eexists. split; [reflexivity|]. split; [right; right; eauto|]. split; [done|].
        intros k' [= <-] _. by rewrite Hgen, Hp.
      * destruct (braceSpan (trim (String b txt))) as [sub|] eqn:Hsub; simpl.
        -- destruct (JSON_parse E sub) as [p|] eqn:Hp2; simpl.
           ++ eexists. split; [reflexivity|]. split; [right; right; eauto|].
              split; [done|]. intros k' [= <-] _.
              rewrite Hgen, Hp, Hsub. simpl. by rewrite Hp2.
           ++ eexists. split; [reflexivity|]. split; [by left|]. split; [done|].
              intros k' [= <-] _. rewrite Hgen, Hp, Hsub. simpl. by rewrite Hp2.
        -- eexists. split; [reflexivity|]. split; [by left|]. split; [done|].
           intros k' [= <-] _. by rewrite Hgen, Hp, Hsub.
    + eexists. split; [reflexivity|]. split; [by left|]. split; [done|].
      intros k' [= <-] _. by rewrite Hgen.
  - eexists. split; [reflexivity|]. split; [by left|]. split; [done|]. done.
Qed.

(** C3 as stated fails.  On the text [{} or {}] the first balanced structure
    is [{}], which parses, but the adapter parses the span up to the last
    brace, fails, and selects all stores.  On an empty text the adapter
    selects no store, not all of them. *)
Lemma classifyStores_differs_from_documented :
  (firstBalanced "{} or {}" = Some "{}" /\
   braceSpan "{} or {}" = Some "{} or {}" /\
   classifyStores Replies.twoObjects (Some "K") ["library"] "q"
     = Normal (selectAll ["library"]) /\
   classifyStores_documented Replies.twoObjects (Some "K") ["library"] "q"
     = Normal (PObject Replies.emptyObject)) /\
  (classifyStores Replies.emptyText (Some "K") ["library"] "q" = Normal selectNone /\
   classifyStores_documented Replies.emptyText (Some "K") ["library"] "q"
     = Normal (selectAll ["library"])) /\
  selectAll ["library"] <> PObject Replies.emptyObject /\
  selectNone <> selectAll ["library"].
Proof.
  repeat split; try reflexivity; discriminate.
Qed.

(* ================================================================= *)
(** ** Listing sessions *)

Lemma insertSorted_front cmp x l :
  (forall y, y ∈ l -> movesBehind cmp x y = false) ->
  insertSorted cmp x l = x :: l.
Proof.
  destruct l as [|y r]; [reflexivity|].
  intros H. simpl. rewrite (H y); [reflexivity | constructor].
Qed.

Lemma sortBy_unordered cmp l :
  (forall x y, x ∈ l -> y ∈ l -> movesBehind cmp x y = false) ->
  sortBy cmp l = l.
Proof.
  induction l as [|x r IH]; intros H; [reflexivity|].
  unfold sortBy in *. simpl. rewrite IH.
  - apply insertSorted_front. intros y Hy. apply H; [constructor | by constructor].
  - intros a b Ha Hb. apply H; by constructor.
Qed.

Lemma movesBehind_NaN a b :
  createdAtNumber (si_createdAt a) = NaN ->
  movesBehind byCreatedAt a b = false.
Proof.
  intros Ha. unfold movesBehind, byCreatedAt. rewrite Ha.
  by destruct (createdAtNumber (si_createdAt b)).
Qed.

(** When no [createdAt] of the owner's sessions reads as a number, the
    listing is in directory order. *)
Lemma listSessions_directory_order (mail : string) (w : world) :
  (forall i, i ∈ collectSessions (sanitize mail +:+ "__") (chat_sessions w) ->
             createdAtNumber (si_createdAt i) = NaN) ->
  listSessions mail w = collectSessions (sanitize mail +:+ "__") (chat_sessions w).
Proof.
  intros H. unfold listSessions. apply sortBy_unordered.
  intros x y Hx _. apply movesBehind_NaN. by apply H.
Qed.

(** C8.  The listing is not newest first.  Two sessions of one student were
    created one after the other; the comparator subtracts their ISO
    timestamps, which gives [NaN], so the sort leaves the directory order:
    the session created first is listed first, the later one last. *)
Theorem listSessions_oldest_first :
  chat_sessions History.second =
    [ ("s@u.edu__session_1.json",
       Parsed {| sessionId := "session_1"; sessionName := Some "Opening hours";
                 email := "s@u.edu"; createdAt := "2024-01-01T09:00:00.000Z";
                 updatedAt := "2024-01-02T09:00:00.000Z"; messages := Some [] |});
      ("s@u.edu__session_2.json",
       Parsed {| sessionId := "session_2"; sessionName := Some "Fees";
                 email := "s@u.edu"; createdAt := "2024-01-03T09:00:00.000Z";
                 updatedAt := "2024-01-04T09:00:00.000Z"; messages := Some [] |}) ] /\
  byCreatedAt
    {| si_sessionId := "session_1"; si_sessionName := Some "Opening hours";
       si_createdAt := "2024-01-01T09:00:00.000Z" |}
    {| si_sessionId := "session_2"; si_sessionName := Some "Fees";
       si_createdAt := "2024-01-03T09:00:00.000Z" |} = NaN /\
  listSessions "s@u.edu" History.second =
    [ {| si_sessionId := "session_1"; si_sessionName := Some "Opening hours";
         si_createdAt := "2024-01-01T09:00:00.000Z" |};
      {| si_sessionId := "session_2"; si_sessionName := Some "Fees";
         si_createdAt := "2024-01-03T09:00:00.000Z" |} ].
Proof. repeat split; vm_compute; reflexivity. Qed.

(* ================================================================= *)
(** ** The calls of the persistence helpers *)

Lemma trace_createSessionFile E mail sid name w :
  trace (snd (createSessionFile E mail sid name w))
  = (trace w ++ [CallCreateSessionFile mail sid name])%list.
Proof. by destruct (createSessionFile_outcome E mail sid name w) as (_ & -> & _). Qed.

Lemma trace_appendMessage E mail sid m w :
  trace (snd (appendMessageToSessionFile E mail sid m w))
  = (trace w ++ [CallAppendMessage mail sid m])%list.
Proof. by destruct (appendMessage_outcome E mail sid m w) as (_ & -> & _). Qed.

Lemma trace_appendProviderLog provider doc w :
  trace (snd (appendProviderLog provider doc w))
  = (trace w ++ [CallAppendProviderLog provider doc])%list.
Proof. reflexivity. Qed.

Lemma trace_now E w : trace (snd (now E w)) = trace w.
Proof. reflexivity. Qed.

(** What a provider log call does to the provider's file: the entry comes
    last, after the entries of the array the file held, if it held one. *)
Lemma appendProviderLog_appends provider doc w :
  provider_questions (snd (appendProviderLog provider doc w))
    !! (sanitize provider +:+ ".json")
  = Some (LogArray (match provider_questions w !! (sanitize provider +:+ ".json") with
                    | Some (LogArray arr) => arr
                    | _ => []
                    end ++ [doc])%list).
Proof.
  unfold appendProviderLog. rewrite !bind_run.
  cbn [call readLog writeLog fst snd emit provider_questions].
  apply lookup_insert_eq.
Qed.

Lemma trace_emit evs w : trace (emit evs w) = (trace w ++ evs)%list.
Proof. reflexivity. Qed.

(* ================================================================= *)
(** ** Observations on lists of calls *)

Lemma retrievals_asksFor apiKey qFor sts :
  retrievals (asksFor apiKey qFor sts) = map (fun st => [st]) sts.
Proof. induction sts as [|st sts IH]; [reflexivity|]. simpl. by rewrite <- IH. Qed.

Lemma retrievals_after evs :
  Forall (fun e => isRetrieval e = false) evs -> retrievals evs = [].
Proof.
  induction 1 as [|e evs He _ IH]; [reflexivity|].
  unfold retrievals in *. destruct e; simpl in *; try discriminate; exact IH.
Qed.


Lemma providerLogs_created isNew mail sid name :
  providerLogs (created isNew mail sid name) = [].
Proof. by destruct isNew. Qed.



Lemma not_retrieval_created isNew mail sid name :
  Forall (fun e => isRetrieval e = false) (created isNew mail sid name).
Proof. destruct isNew; repeat constructor. Qed.

Lemma not_retrieval_failedLog mail qFor provider store t :
  Forall (fun e => isRetrieval e = false) (failedLog mail qFor provider store t).
Proof. unfold failedLog. destruct (provider store); repeat constructor. Qed.



Lemma map_zip_with {A B C D} (f : A -> B -> C) (g : C -> D) l k :
  map g (zip_with f l k) = zip_with (fun x y => g (f x y)) l k.
Proof. revert k. induction l as [|x l IH]; intros [|y k]; simpl; by rewrite ?IH. Qed.



Lemma not_retrieval_persisted writable isNew mail sid name m logs :
  Forall (fun e => isRetrieval e = false) logs ->
  Forall (fun e => isRetrieval e = false) (persisted writable isNew mail sid name m logs).
Proof.
  intros Hlogs. unfold persisted. destruct writable.
  - apply Forall_app. split; [apply not_retrieval_created|]. by constructor.
  - destruct isNew; by repeat constructor.
Qed.

Lemma not_retrieval_answeredLogs mail qFor provider rs stamps :
  Forall (fun e => isRetrieval e = false)
         (zip_with (answeredLog mail qFor provider) rs stamps).
Proof.
  revert stamps. induction rs as [|r rs IH]; intros [|t stamps]; try constructor;
    [reflexivity | apply IH].
Qed.

Section FanOut.

Context (E : env) (mail question sid : string) (isNewSession : bool)
        (name : option string) (accessible : list AccessibleStore)
        (geminiKey : option string) (splitQuestions : gmap string string).

Local Notation "'qFor'" := (qForStore question splitQuestions).
Local Notation "'provider'" := (deptEmail accessible).
Local Notation "'creation'" := (created isNewSession mail sid name).
Local Notation "'writable'" := (sessionWritable E mail sid).

Lemma createIfNew_outcome w :
  let r := createIfNew E mail sid isNewSession name w in
  fst r = (if isNewSession && negb (writable w) then Throw else Normal tt) /\
  trace (snd r) = (trace w ++ creation)%list /\
  students (snd r) = students w /\ universities (snd r) = universities w /\
  provider_questions (snd r) = provider_questions w /\
  writable (snd r) = writable w /\
  (writable w = false ->
   chat_sessions (snd r) = chat_sessions w /\ elsewhere (snd r) = elsewhere w).
Proof.
  unfold createIfNew, created. destruct isNewSession.
  - destruct (createSessionFile_outcome E mail sid name w)
      as (Hfst & Htr & Hst & Hun & Hpq & Hwr & Hget & _).
    cbv zeta in *. rewrite Hfst, Htr, Hst, Hun, Hpq, Hwr.
    destruct (writable w); repeat split; try done; by destruct Hget.
  - cbn [ret fst snd andb]. rewrite app_nil_r. repeat split.
Qed.

Lemma trace_createIfNew w :
  trace (snd (createIfNew E mail sid isNewSession name w)) = (trace w ++ creation)%list.
Proof. by destruct (createIfNew_outcome w) as (_ & -> & _). Qed.

(** The world a detached block leaves: the world after its provider logs
    when the session writes succeed, and otherwise the world after the
    session write that failed. *)
Lemma block_run (mk : string -> Message) (L : M unit) w :
  let wc := snd (createIfNew E mail sid isNewSession name w) in
  let w2 := snd (appendMessageToSessionFile E mail sid (mk (toISOString E (dates wc)))
                   (snd (now E wc))) in
  snd (detached (createIfNew E mail sid isNewSession name >>>
                 (let* t := now E in appendMessageToSessionFile E mail sid (mk t)) >>>
                 settled L) w)
  = if writable w then snd (L w2) else if isNewSession then wc else w2.
Proof.
  cbv zeta. rewrite detached_run. cbn [snd]. rewrite andThen_run.
  destruct (createIfNew_outcome w) as (Hfst & _ & _ & _ & _ & Hwr & _).
  cbv zeta in Hfst, Hwr. rewrite Hfst.
  destruct isNewSession, (writable w) eqn:Hw; cbn [andb negb snd]; try reflexivity.
  - rewrite andThen_run, bind_run.
    destruct (appendMessage_outcome E mail sid
                (mk (fst (now E (snd (createIfNew E mail sid true name w)))))
                (snd (now E (snd (createIfNew E mail sid true name w)))))
      as (Hfst2 & _).
    cbv zeta in Hfst2.
    rewrite (sessionWritable_ext E mail sid _ (snd (createIfNew E mail sid true name w)))
      in Hfst2 by reflexivity.
    rewrite Hwr in Hfst2. rewrite Hfst2, settled_run. reflexivity.
  - rewrite andThen_run, bind_run.
    destruct (appendMessage_outcome E mail sid
                (mk (fst (now E (snd (createIfNew E mail sid false name w)))))
                (snd (now E (snd (createIfNew E mail sid false name w)))))
      as (Hfst2 & _).
    cbv zeta in Hfst2.
    rewrite (sessionWritable_ext E mail sid _ (snd (createIfNew E mail sid false name w)))
      in Hfst2 by reflexivity.
    rewrite Hwr in Hfst2. rewrite Hfst2, settled_run. reflexivity.
  - rewrite andThen_run, bind_run.
    destruct (appendMessage_outcome E mail sid
                (mk (fst (now E (snd (createIfNew E mail sid false name w)))))
                (snd (now E (snd (createIfNew E mail sid false name w)))))
      as (Hfst2 & _).
    cbv zeta in Hfst2.
    rewrite (sessionWritable_ext E mail sid _ (snd (createIfNew E mail sid false name w)))
      in Hfst2 by reflexivity.
    rewrite Hwr in Hfst2. rewrite Hfst2. reflexivity.
Qed.

(** The same for a block that ends with the append. *)
Lemma block_run_last (mk : string -> Message) w :
  snd (detached (createIfNew E mail sid isNewSession name >>>
                 (let* t := now E in appendMessageToSessionFile E mail sid (mk t))) w)
  = snd (detached (createIfNew E mail sid isNewSession name >>>
                   (let* t := now E in appendMessageToSessionFile E mail sid (mk t)) >>>
                   settled (ret tt)) w).
Proof.
  rewrite !detached_run. cbn [snd]. rewrite !andThen_run.
  destruct (fst (createIfNew E mail sid isNewSession name w)); [|reflexivity].
  match goal with |- context [match fst ?x with _ => _ end] => by destruct (fst x) end.
Qed.

(** A detached block, for provider logs [L] that only add calls: its calls,
    the world [w2] its provider logs start from, and the world it leaves. *)
Lemma block_outcome (mk : string -> Message) (L : M unit)
    (logsOf : world -> list event) w :
  (forall w0, trace (snd (L w0)) = (trace w0 ++ logsOf w0)%list) ->
  exists t w1 w2,
    let w' := snd (detached
                     (createIfNew E mail sid isNewSession name >>>
                      (let* t := now E in appendMessageToSessionFile E mail sid (mk t)) >>>
                      settled L) w) in
    trace w' = (trace w ++ persisted (writable w) isNewSession mail sid name (mk t)
                             (logsOf w2))%list /\
    w2 = snd (appendMessageToSessionFile E mail sid (mk t) w1) /\
    chat_sessions w1 = chat_sessions (snd (createIfNew E mail sid isNewSession name w)) /\
    elsewhere w1 = elsewhere (snd (createIfNew E mail sid isNewSession name w)) /\
    provider_questions w2 = provider_questions w /\
    (writable w = true -> w' = snd (L w2)) /\
    (writable w = false ->
     provider_questions w' = provider_questions w /\
     chat_sessions w' = chat_sessions w /\ elsewhere w' = elsewhere w).
Proof.
  intros HL.
  set (wc := snd (createIfNew E mail sid isNewSession name w)).
  set (t := toISOString E (dates wc)).
  set (w1 := snd (now E wc)).
  set (w2 := snd (appendMessageToSessionFile E mail sid (mk t) w1)).
  exists t, w1, w2. cbv zeta. rewrite block_run. fold wc t w1 w2.
  destruct (createIfNew_outcome w) as (_ & Htr & _ & _ & Hpq & Hwr & Hframe).
  cbv zeta in Htr, Hpq, Hwr, Hframe. fold wc in Htr, Hpq, Hwr, Hframe.
  destruct (appendMessage_outcome E mail sid (mk t) w1)
    as (_ & Htr2 & _ & _ & Hpq2 & _ & Hget2 & _).
  cbv zeta in Htr2, Hpq2, Hget2. fold w2 in Htr2, Hpq2, Hget2.
  assert (Hw1 : writable w1 = writable w) by (rewrite <- Hwr; reflexivity).
  rewrite Hw1 in Hget2.
  assert (Htr1 : trace w1 = trace wc) by reflexivity.
  assert (Hpq1 : provider_questions w1 = provider_questions wc) by reflexivity.
  split; [|split; [reflexivity|]].
  - unfold persisted. destruct (writable w); [|destruct isNewSession eqn:Hnew].
    + rewrite HL, Htr2, Htr1, Htr. by rewrite <- !app_assoc.
    + exact Htr.
    + rewrite Htr2, Htr1, Htr. cbn [created]. by rewrite app_nil_r.
  - split; [reflexivity|]. split; [reflexivity|]. split.
    { by rewrite Hpq2, Hpq1, Hpq. }
    split.
    + by intros ->.
    + intros Hw. rewrite Hw in *. destruct (Hframe eq_refl) as [Hc He].
      destruct isNewSession; [by rewrite Hpq, Hc, He|].
      destruct Hget2 as [Hc2 He2]. rewrite Hpq2, Hc2, He2, Hpq1.
      change (chat_sessions w1) with (chat_sessions wc).
      change (elsewhere w1) with (elsewhere wc). by rewrite Hpq, Hc, He.
Qed.

Lemma trace_noStoreSelected unans w :
  exists t,
    trace (snd (noStoreSelected E mail question sid isNewSession name unans w))
    = (trace w ++
       CallResJson
         {| status := 200; res_error := None; res_sessionId := Some (Some sid);
            res_answer := Some "Sorry, none of the departments can answer this.";
            res_storesUsed := Some []; res_grounding := None;
            res_unanswered := Some unans; res_searchedIn := None |}
       :: persisted (writable w) isNewSession mail sid name
            {| msg_role := "assistant"; msg_question := question;
               msg_answer := "Sorry, none of the departments can answer this.";
               msg_storesUsed := []; msg_grounding := []; msg_timestamp := t;
               msg_unresolvedParts := Some unans; msg_searchedIn := None |} [])%list.
Proof.
  unfold noStoreSelected. rewrite bind_run. cbn [resJson call fst snd].
  rewrite block_run_last.
  destruct (block_outcome
              (fun t => {| msg_role := "assistant"; msg_question := question;
                           msg_answer := "Sorry, none of the departments can answer this.";
                           msg_storesUsed := []; msg_grounding := []; msg_timestamp := t;
                           msg_unresolvedParts := Some unans; msg_searchedIn := None |})
              (ret tt) (fun _ => [])
              (emit [CallResJson
                 {| status := 200; res_error := None; res_sessionId := Some (Some sid);
                    res_answer := Some "Sorry, none of the departments can answer this.";
                    res_storesUsed := Some []; res_grounding := None;
                    res_unanswered := Some unans; res_searchedIn := None |}] w))
    as (t & w1 & w2 & Htr & _).
  { intros w0. cbn [ret snd]. by rewrite app_nil_r. }
  exists t. cbv zeta in Htr. cbv beta in Htr. rewrite Htr.
  cbn [emit trace]. by rewrite <- app_assoc.
Qed.

Lemma trace_failedLog store w0 :
  trace (snd (match provider store with
              | Some p =>
                  let* asked_at := now E in
                  appendProviderLog p
                    {| provider_email := Some p; user_email := mail;
                       store_name := store; log_question := qFor store;
                       response := None; log_grounding := None; asked_at := asked_at |}
              | None => ret tt
              end w0))
  = (trace w0 ++ failedLog mail qFor provider store (toISOString E (dates w0)))%list.
Proof.
  unfold failedLog. destruct (provider store) as [p|].
  - rewrite bind_run. reflexivity.
  - cbn [ret snd]. by rewrite app_nil_r.
Qed.

Lemma trace_ragFailed store w :
  exists t t',
    trace (snd (ragFailed E mail question sid isNewSession name accessible
                  splitQuestions store w))
    = (trace w ++
       CallResJson
         {| status := 200; res_error := None; res_sessionId := Some (Some sid);
            res_answer := Some "Sorry we didn't find any information related to this.";
            res_storesUsed := None; res_grounding := None;
            res_unanswered := None; res_searchedIn := Some (provider store) |}
       :: persisted (writable w) isNewSession mail sid name
            {| msg_role := "assistant"; msg_question := question;
               msg_answer := "Sorry we didn't find any information related to this.";
               msg_storesUsed := [store]; msg_grounding := []; msg_timestamp := t;
               msg_unresolvedParts := None; msg_searchedIn := Some (provider store) |}
            (failedLog mail qFor provider store t'))%list.
Proof.
  unfold ragFailed. rewrite bind_run. cbn [resJson call fst snd].
  destruct (block_outcome
              (fun t => {| msg_role := "assistant"; msg_question := question;
                           msg_answer := "Sorry we didn't find any information related to this.";
                           msg_storesUsed := [store]; msg_grounding := [];
                           msg_timestamp := t; msg_unresolvedParts := None;
                           msg_searchedIn := Some (provider store) |})
              _ _
              (emit [CallResJson
                 {| status := 200; res_error := None; res_sessionId := Some (Some sid);
                    res_answer := Some "Sorry we didn't find any information related to this.";
                    res_storesUsed := None; res_grounding := None;
                    res_unanswered := None; res_searchedIn := Some (provider store) |}] w)
              (trace_failedLog store))
    as (t & w1 & w2 & Htr & _).
  exists t, (toISOString E (dates w2)). cbv zeta in Htr. cbv beta in Htr. rewrite Htr.
  cbn [emit trace]. by rewrite <- app_assoc.
Qed.

(** The time stamps of [n] provider logs made from [w] on. *)
Lemma trace_logProviders rs w :
  trace (snd (logProviders E mail question accessible splitQuestions rs w))
  = (trace w ++ zip_with (answeredLog mail qFor provider) rs
                  (map (toISOString E) (seq (dates w) (length rs))))%list.
Proof.
  revert w. induction rs as [|r rest IH]; intros w.
  - simpl. by rewrite app_nil_r.
  - cbn [logProviders]. rewrite !bind_run. rewrite IH, trace_appendProviderLog, trace_now.
    rewrite <- app_assoc. reflexivity.
Qed.

Lemma trace_respondAndPersist predicted rs g w :
  exists t stamps,
    length stamps = length rs /\
    trace (snd (respondAndPersist E mail question sid isNewSession name accessible
                  splitQuestions predicted rs g w))
    = (trace w ++
       CallResJson
         {| status := 200; res_error := None; res_sessionId := Some (Some sid);
            res_answer := Some (mergeAnswers rs); res_storesUsed := Some predicted;
            res_grounding := Some g; res_unanswered := None;
            res_searchedIn := None |}
       :: persisted (writable w) isNewSession mail sid name
            {| msg_role := "assistant"; msg_question := question;
               msg_answer := mergeAnswers rs; msg_storesUsed := predicted;
               msg_grounding := g; msg_timestamp := t;
               msg_unresolvedParts := None; msg_searchedIn := None |}
            (zip_with (answeredLog mail qFor provider) rs stamps))%list.
Proof.
  unfold respondAndPersist. rewrite bind_run. cbn [resJson call fst snd].
  destruct (block_outcome
              (fun t => {| msg_role := "assistant"; msg_question := question;
                           msg_answer := mergeAnswers rs; msg_storesUsed := predicted;
                           msg_grounding := g; msg_timestamp := t;
                           msg_unresolvedParts := None; msg_searchedIn := None |})
              _ _
              (emit [CallResJson
                 {| status := 200; res_error := None; res_sessionId := Some (Some sid);
                    res_answer := Some (mergeAnswers rs); res_storesUsed := Some predicted;
                    res_grounding := Some g; res_unanswered := None;
                    res_searchedIn := None |}] w)
              (trace_logProviders rs))
    as (t & w1 & w2 & Htr & _).
  exists t, (map (toISOString E) (seq (dates w2) (length rs))).
  split; [by rewrite length_map, length_seq|].
  cbv zeta in Htr. cbv beta in Htr. rewrite Htr.
  cbn [emit trace]. by rewrite <- app_assoc.
Qed.

Lemma answersOf_length n sts ds :
  answersOf E geminiKey qFor n sts = Some ds -> length ds = length sts.
Proof.
  revert n ds. induction sts as [|st sts IH]; intros n ds Hans.
  - by injection Hans as <-.
  - simpl in Hans.
    destruct (answerOf _) as [d|]; [|discriminate]. simpl in Hans.
    destruct (answersOf E geminiKey qFor (S n) sts) as [ds'|] eqn:Hds; [|discriminate].
    injection Hans as <-. simpl. by rewrite (IH _ _ Hds).
Qed.

Lemma results_length n sts ds :
  answersOf E geminiKey qFor n sts = Some ds ->
  length (zip_with resultOf sts ds) = length sts.
Proof. intros H. apply length_zip_with_l_eq. by rewrite (answersOf_length _ _ _ H). Qed.

(** Either every call of a fan-out has a usable answer, or there is a first
    one that has none: it rejects, or it returns a result that is not
    usable. *)
Lemma answersOf_or_first_failure n sts :
  (exists ds, answersOf E geminiKey qFor n sts = Some ds) \/
  (exists pre s post ds,
     sts = (pre ++ s :: post)%list /\
     answersOf E geminiKey qFor n pre = Some ds /\
     answerOf (askQuestion E (n + length pre) geminiKey [s] (qFor s)) = None).
Proof.
  revert n. induction sts as [|st sts IH]; intros n.
  - left. by exists [].
  - destruct (answerOf (askQuestion E n geminiKey [st] (qFor st))) as [d|] eqn:Hd.
    + destruct (IH (S n)) as [[ds Hds]|(pre & s & post & ds & -> & Hds & Hfail)].
      * left. exists (d :: ds). simpl. by rewrite Hd, Hds.
      * right. exists (st :: pre), s, post, (d :: ds). split; [reflexivity|]. split.
        -- simpl. by rewrite Hd, Hds.
        -- simpl. by rewrite <- Nat.add_succ_comm.
    + right. exists [], st, sts, []. split; [reflexivity|]. split; [reflexivity|].
      simpl. by rewrite Nat.add_0_r.
Qed.

Lemma answerOf_None c :
  answerOf c = None -> c = Throw \/ exists ragResp, c = Normal ragResp /\ usable ragResp = None.
Proof. destruct c as [r|]; [right; by exists r | by left]. Qed.

(** A prefix of usable answers takes the loop to the rest of the stores. *)
Lemma fanOut_answers sts rest ds rs g w :
  answersOf E geminiKey qFor (length rs) sts = Some ds ->
  fanOut E mail question sid isNewSession name accessible geminiKey splitQuestions
    (sts ++ rest) rs g w
  = fanOut E mail question sid isNewSession name accessible geminiKey splitQuestions
      rest (rs ++ zip_with resultOf sts ds)%list (g ++ concat (map evidence ds))%list
      (emit (asksFor geminiKey qFor sts) w).
Proof.
  revert ds rs g w. induction sts as [|st sts IH]; intros ds rs g w Hans.
  - injection Hans as <-. simpl. by rewrite !app_nil_r, emit_nil.
  - simpl in Hans.
    destruct (askQuestion E (length rs) geminiKey [st] (qFor st)) as [ragResp|] eqn:Hcall;
      [|discriminate].
    cbn [answerOf] in Hans. destruct (usable ragResp) as [d|] eqn:Hd; [|discriminate].
    simpl in Hans.
    destruct (answersOf E geminiKey qFor (S (length rs)) sts) as [ds'|] eqn:Hds;
      [|discriminate].
    injection Hans as <-.
    change ((st :: sts) ++ rest)%list with (st :: (sts ++ rest))%list.
    cbn [fanOut]. rewrite bind_run. cbn [call fst snd]. rewrite Hcall, Hd.
    rewrite (IH ds').
    + cbn [zip_with map concat]. rewrite emit_emit.
      rewrite <- !app_assoc. reflexivity.
    + rewrite length_app. simpl. by rewrite Nat.add_1_r.
Qed.

Lemma fanOut_all_answered predicted ds w :
  answersOf E geminiKey qFor 0 predicted = Some ds ->
  fanOut E mail question sid isNewSession name accessible geminiKey splitQuestions
    predicted [] [] w
  = (AllAnswered (zip_with resultOf predicted ds) (concat (map evidence ds)),
     emit (asksFor geminiKey qFor predicted) w).
Proof.
  intros Hans. rewrite <- (app_nil_r predicted) at 1.
  by rewrite (fanOut_answers predicted [] ds [] [] w Hans).
Qed.

Lemma fanOut_first_failure pre s post ds ragResp w :
  answersOf E geminiKey qFor 0 pre = Some ds ->
  askQuestion E (length pre) geminiKey [s] (qFor s) = Normal ragResp ->
  usable ragResp = None ->
  fanOut E mail question sid isNewSession name accessible geminiKey splitQuestions
    (pre ++ s :: post) [] [] w
  = (ShortCircuit (zip_with resultOf pre ds),
     snd (ragFailed E mail question sid isNewSession name accessible
            splitQuestions s (emit (asksFor geminiKey qFor (pre ++ [s])) w))).
Proof.
  intros Hans Hcall Hfail.
  rewrite (fanOut_answers pre (s :: post) ds [] [] w Hans).
  cbn [fanOut app]. rewrite bind_run. cbn [call fst snd].
  rewrite (results_length 0 pre ds Hans), Hcall, Hfail. rewrite bind_run. cbn [ret fst snd].
  rewrite emit_emit. unfold asksFor. rewrite map_app. reflexivity.
Qed.

Lemma fanOut_rejected pre s post ds w :
  answersOf E geminiKey qFor 0 pre = Some ds ->
  askQuestion E (length pre) geminiKey [s] (qFor s) = Throw ->
  fanOut E mail question sid isNewSession name accessible geminiKey splitQuestions
    (pre ++ s :: post) [] [] w
  = (Rejected (zip_with resultOf pre ds), emit (asksFor geminiKey qFor (pre ++ [s])) w).
Proof.
  intros Hans Hcall.
  rewrite (fanOut_answers pre (s :: post) ds [] [] w Hans).
  cbn [fanOut app]. rewrite bind_run. cbn [call fst snd].
  rewrite (results_length 0 pre ds Hans), Hcall. cbn [ret].
  rewrite emit_emit. unfold asksFor. rewrite map_app. reflexivity.
Qed.

Lemma route_all_answered predicted ds unans w :
  predicted <> [] ->
  answersOf E geminiKey qFor 0 predicted = Some ds ->
  route E mail question sid isNewSession name accessible geminiKey splitQuestions
    predicted unans w
  = respondAndPersist E mail question sid isNewSession name accessible
      splitQuestions predicted (zip_with resultOf predicted ds)
      (concat (map evidence ds)) (emit (asksFor geminiKey qFor predicted) w).
Proof.
  intros Hne Hans. unfold route. destruct predicted as [|st sts]; [done|].
  rewrite bind_run, (fanOut_all_answered _ ds w Hans). reflexivity.
Qed.

Lemma route_first_failure pre s post ds ragResp unans w :
  answersOf E geminiKey qFor 0 pre = Some ds ->
  askQuestion E (length pre) geminiKey [s] (qFor s) = Normal ragResp ->
  usable ragResp = None ->
  route E mail question sid isNewSession name accessible geminiKey splitQuestions
    (pre ++ s :: post) unans w
  = (tt, snd (ragFailed E mail question sid isNewSession name accessible
                splitQuestions s (emit (asksFor geminiKey qFor (pre ++ [s])) w))).
Proof.
  intros Hans Hcall Hfail. unfold route.
  destruct (pre ++ s :: post)%list as [|st sts] eqn:Hp; [by destruct pre|].
  rewrite <- Hp, bind_run, (fanOut_first_failure pre s post ds ragResp w Hans Hcall Hfail).
  reflexivity.
Qed.

(** A retrieval call that rejects: the outer catch answers, and nothing else
    happens. *)
Lemma route_rejected pre s post ds unans w :
  answersOf E geminiKey qFor 0 pre = Some ds ->
  askQuestion E (length pre) geminiKey [s] (qFor s) = Throw ->
  route E mail question sid isNewSession name accessible geminiKey splitQuestions
    (pre ++ s :: post) unans w
  = (tt, emit (asksFor geminiKey qFor (pre ++ [s]) ++
               [CallResJson (errorResponse 500 "Internal Server Error")]) w).
Proof.
  intros Hans Hcall. unfold route.
  destruct (pre ++ s :: post)%list as [|st sts] eqn:Hp; [by destruct pre|].
  rewrite <- Hp, bind_run, (fanOut_rejected pre s post ds w Hans Hcall).
  cbn [fst snd]. unfold resJson, call. by rewrite emit_emit.
Qed.

Lemma stores_of_results sts ds :
  length sts = length ds -> map rr_store (zip_with resultOf sts ds) = sts.
Proof. intros H. apply fmap_zip_with_l; [done | lia]. Qed.

Lemma steps_app p a b : steps p (a ++ b) = (steps p a ≫= fun p' => steps p' b).
Proof.
  revert p. induction a as [|e a IH]; intros p; [reflexivity|].
  simpl. destruct (step p e) as [p'|]; [apply IH | reflexivity].
Qed.

Lemma steps_asks sts : steps Retrieving (asksFor geminiKey qFor sts) = Some Retrieving.
Proof. induction sts as [|st sts IH]; [reflexivity | exact IH]. Qed.

Lemma steps_creation :
  exists p, steps Responded creation = Some p /\
            forall a b m, step p (CallAppendMessage a b m) = Some (Logging (msg_storesUsed m)).
Proof.
  unfold created. destruct isNewSession; [exists Created | exists Responded]; done.
Qed.

Lemma steps_answeredLogs rs stamps rest :
  length stamps = length rs ->
  steps (Logging (map rr_store rs ++ rest))
        (zip_with (answeredLog mail qFor provider) rs stamps)
  = Some (Logging rest).
Proof.
  revert stamps. induction rs as [|r rs IH]; intros [|t stamps] Hlen;
    try discriminate; [reflexivity|].
  cbn [zip_with map app steps step answeredLog store_name skipTo].
  rewrite eqb_same. cbn [fmap option_fmap option_map mbind option_bind].
  apply IH. by injection Hlen.
Qed.

Lemma steps_failedLog store t :
  exists rest, steps (Logging [store]) (failedLog mail qFor provider store t)
               = Some (Logging rest).
Proof.
  unfold failedLog. destruct (provider store) as [p|]; [|by exists [store]].
  exists []. simpl. by rewrite eqb_same.
Qed.

(** The calls of a detached block are in order, whether its session writes
    succeed or not. *)
Lemma steps_persisted ok m logs rest :
  steps (Logging (msg_storesUsed m)) logs = Some (Logging rest) ->
  exists p, steps Responded (persisted ok isNewSession mail sid name m logs) = Some p /\
            p <> Retrieving.
Proof.
  intros Hlogs. destruct steps_creation as (pc & Hpc & Hmsg).
  unfold persisted. destruct ok.
  - exists (Logging rest). split; [|done].
    rewrite steps_app, Hpc. cbn [mbind option_bind steps]. rewrite Hmsg.
    cbn [mbind option_bind]. exact Hlogs.
  - destruct isNewSession; eexists; split; try reflexivity; done.
Qed.

Lemma inOrder_after_response asks r after p :
  steps Retrieving asks = Some Retrieving ->
  steps Responded after = Some p -> p <> Retrieving ->
  inOrder (asks ++ CallResJson r :: after) = true.
Proof.
  intros Hasks Hafter Hp. unfold inOrder.
  rewrite steps_app, Hasks. simpl. rewrite Hafter. by destruct p.
Qed.

(** Whatever the stores answer, the calls of [route] are in order. *)
Lemma route_inOrder predicted unans w :
  exists evs,
    trace (snd (route E mail question sid isNewSession name accessible geminiKey
                  splitQuestions predicted unans w)) = (trace w ++ evs)%list /\
    inOrder evs = true.
Proof.
  destruct predicted as [|st sts] eqn:Hpred.
  - destruct (trace_noStoreSelected unans w) as (t & Htr).
    eexists. split; [exact Htr|].
    match type of Htr with context [persisted ?ok _ _ _ _ ?m ?logs] =>
      destruct (steps_persisted ok m logs []) as (p & Hp & Hne); [reflexivity|]
    end.
    by apply (inOrder_after_response [] _ _ p).
  - rewrite <- Hpred.
    destruct (answersOf_or_first_failure 0 predicted)
      as [[ds Hds]|(pre & s & post & ds & Hsplit & Hds & Hfail)].
    + rewrite (route_all_answered predicted ds unans w ltac:(congruence) Hds).
      destruct (trace_respondAndPersist predicted (zip_with resultOf predicted ds)
                  (concat (map evidence ds)) (emit (asksFor geminiKey qFor predicted) w))
        as (t & stamps & Hlen & Htr).
      eexists. split.
      { rewrite Htr, trace_emit, <- app_assoc. reflexivity. }
      match type of Htr with context [persisted ?ok _ _ _ _ ?m ?logs] =>
        destruct (steps_persisted ok m logs []) as (p & Hp & Hne)
      end.
      { cbn [msg_storesUsed]. rewrite <- (app_nil_r predicted) at 1.
        rewrite <- (stores_of_results predicted ds) at 1
          by (by rewrite (answersOf_length _ _ _ Hds)).
        by apply steps_answeredLogs. }
      by apply (inOrder_after_response _ _ _ p); [apply steps_asks| |].
    + rewrite Hsplit. simpl in Hfail.
      destruct (answerOf_None _ Hfail) as [Hthrow|(ragResp & Hcall & Hunusable)].
      * rewrite (route_rejected pre s post ds unans w Hds Hthrow). cbn [snd].
        eexists. split; [apply trace_emit|].
        by apply (inOrder_after_response _ _ [] Responded); [apply steps_asks| |].
      * rewrite (route_first_failure pre s post ds ragResp unans w Hds Hcall Hunusable).
        cbn [snd].
        destruct (trace_ragFailed s (emit (asksFor geminiKey qFor (pre ++ [s])) w))
          as (t & t' & Htr).
        destruct (steps_failedLog s t') as (rest & Hrest).
        eexists. split.
        { rewrite Htr, trace_emit, <- app_assoc. reflexivity. }
        match type of Htr with context [persisted ?ok _ _ _ _ ?m ?logs] =>
          destruct (steps_persisted ok m logs rest) as (p & Hp & Hne); [exact Hrest|]
        end.
        by apply (inOrder_after_response _ _ _ p); [apply steps_asks| |].
Qed.

End FanOut.

(* ================================================================= *)
(** ** From the request to the fan-out *)

Lemma snd_readStudent mail w : snd (readStudent mail w) = w.
Proof. reflexivity. Qed.

Lemma snd_readUniversity mail w : snd (readUniversity mail w) = w.
Proof. reflexivity. Qed.

(** A request is answered by one early response, or it reaches [route]. *)
Lemma ask_response_or_route E req w :
  (exists r, ask E req w = (tt, emit [CallResJson r] w)) \/
  (exists mail question sid isNewSession name accessible geminiKey splitQuestions
          predicted unans,
     ask E req w = route E mail question sid isNewSession name accessible geminiKey
                     splitQuestions predicted unans w).
Proof.
  unfold ask.
  destruct (req_email req) as [[|a m]|]; try (left; eexists; reflexivity).
  destruct (req_question req) as [[|b q]|]; try (left; eexists; reflexivity).
  rewrite bind_run, snd_readStudent.
  destruct (fst (readStudent (String a m) w)) as [student|];
    [|left; eexists; reflexivity].
  destruct (Nat.eqb _ 0); [left; eexists; reflexivity|].
  rewrite bind_run, snd_readUniversity.
  destruct (classifyStores E _ _ _) as [[| |c]|];
    try (left; eexists; reflexivity); right; repeat eexists.
Qed.

Lemma steps_persistence p evs p' :
  p <> Retrieving -> steps p evs = Some p' ->
  p' <> Retrieving /\ Forall (fun e => isPersistence e = true) evs.
Proof.
  revert p. induction evs as [|e evs IH]; intros p Hp Hsteps.
  - injection Hsteps as <-. by split.
  - simpl in Hsteps. destruct (step p e) as [q|] eqn:Hstep; [|discriminate].
    simpl in Hsteps.
    assert (Hq : q <> Retrieving /\ isPersistence e = true).
    { destruct p, e; try discriminate; try done; simpl in Hstep.
      - injection Hstep as <-. done.
      - injection Hstep as <-. done.
      - injection Hstep as <-. done.
      - destruct (skipTo _ _); [|discriminate]. injection Hstep as <-. done. }
    destruct Hq as [Hq He]. destruct (IH q Hq Hsteps) as [Hp' Hall].
    split; [exact Hp' | by constructor].
Qed.

(** In an ordered run, retrieval calls come first, then the one response,
    then persistence calls only. *)
Lemma inOrder_split evs :
  inOrder evs = true ->
  exists before r after,
    evs = (before ++ CallResJson r :: after)%list /\
    Forall (fun e => isRetrieval e = true) before /\
    Forall (fun e => isPersistence e = true) after.
Proof.
  unfold inOrder. induction evs as [|e evs IH]; [discriminate|].
  simpl. destruct e as [k st q|r|a b n|a b m|p d]; simpl; try discriminate.
  - intros H. destruct (IH H) as (before & r & after & -> & Hb & Ha).
    exists (CallAskQuestion k st q :: before), r, after.
    split; [reflexivity|]. split; [by constructor | exact Ha].
  - intros H. exists [], r, evs. split; [reflexivity|]. split; [constructor|].
    destruct (steps Responded evs) as [p|] eqn:Hs; [|discriminate].
    by destruct (steps_persistence Responded evs p).
Qed.

(* ================================================================= *)
(** ** Properties of POST /ask *)

(** C4.  For every request, whatever branch it takes: the calls it makes are
    some retrieval calls, then exactly one [res.json], then persistence calls
    only; and they are in program order: an optional session create, then
    the message append, then provider logs in the order of the stores of the
    message ([inOrder]).  So the response precedes every persistence call. *)
Theorem response_precedes_persistence (E : env) (req : Request) (w : world) :
  exists before r after,
    trace (snd (ask E req w)) = (trace w ++ before ++ CallResJson r :: after)%list /\
    Forall (fun e => isRetrieval e = true) before /\
    Forall (fun e => isPersistence e = true) after /\
    inOrder (before ++ CallResJson r :: after) = true.
Proof.
  assert (H : exists evs, trace (snd (ask E req w)) = (trace w ++ evs)%list /\
                          inOrder evs = true).
  { destruct (ask_response_or_route E req w)
      as [[r ->]|(mail & question & sid & isNew & name & accessible & key & split
                  & predicted & unans & ->)].
    - exists [CallResJson r]. by split.
    - apply route_inOrder. }
  destruct H as (evs & Htr & Hord).
  destruct (inOrder_split evs Hord) as (before & r & after & -> & Hb & Ha).
  exists before, r, after. by repeat split.
Qed.

Section Routed.

Context (E : env) (req : Request) (w : world).
Context (mail question : string) (student : Student) (c : ClassificationResult).

Hypothesis Hmail : req_email req = Some mail.
Hypothesis Hmail_given : mail <> EmptyString.
Hypothesis Hquestion : req_question req = Some question.
Hypothesis Hquestion_given : question <> EmptyString.
Hypothesis Hstudent : fst (readStudent mail w) = Some student.

Let accessible := default [] (accessibleStores student).

Hypothesis Haccessible : accessible <> [].

Let geminiKey := universityKey (fst (readUniversity (universityEmail student) w)).
Let isNewSession := negb (truthy (req_sessionId req)).
Let sid := if isNewSession then mintSessionId E
           else default EmptyString (req_sessionId req).
Let name := if isNewSession then Some (generateSessionName (Some question)) else None.

Hypothesis Hclassified :
  classifyStores E geminiKey (map storeName accessible) question = Normal (PObject c).

Let predicted := default [] (stores c).
Let splitQuestions := default ∅ (split_questions c).
Let unans := default [] (unanswered c).

Local Notation "'qFor'" := (qForStore question splitQuestions).
Local Notation "'provider'" := (deptEmail accessible).

Lemma ask_route :
  ask E req w = route E mail question sid isNewSession name accessible geminiKey
                  splitQuestions predicted unans w.
Proof using All.
  unfold ask. rewrite Hmail, Hquestion.
  destruct mail as [|a m] eqn:Em; [done|]. destruct question as [|b q] eqn:Eq; [done|].
  rewrite bind_run, snd_readStudent, Hstudent.
  fold accessible.
  destruct (Nat.eqb (length (map storeName accessible)) 0) eqn:Hlen.
  { apply Nat.eqb_eq in Hlen. rewrite length_map in Hlen.
    destruct accessible; [done | discriminate]. }
  rewrite bind_run, snd_readUniversity. fold geminiKey.
  rewrite Hclassified. reflexivity.
Qed.

(** C1, as amended.  The classifier selected [pre ++ s :: post] and every
    store of [pre] had a usable answer.  When the call for [s] returns and
    its result is not usable (it is falsy, or its [success] or its [data]
    is): the calls of the request are the retrieval calls for [pre] and [s],
    in order, followed at once by the response, which carries the apology
    text and, as [searchedIn], the provider of [s] from the account's store
    list; no retrieval call is made for a store of [post]; and the loop is
    left with one result per store of [pre], that is with [length pre]
    results.  When the call for [s] rejects instead: the same retrieval
    calls are followed by the response of the handler's outer catch, status
    500 without an answer, and by nothing else; no call is made for a store
    of [post] either. *)
Theorem first_failure_short_circuits (pre post : list string) (s : string)
    (ds : list RagData) :
  predicted = (pre ++ s :: post)%list ->
  answersOf E geminiKey qFor 0 pre = Some ds ->
  (forall ragResp,
     askQuestion E (length pre) geminiKey [s] (qFor s) = Normal ragResp ->
     usable ragResp = None ->
     exists r after,
       trace (snd (ask E req w))
       = (trace w ++ asksFor geminiKey qFor (pre ++ [s]) ++ CallResJson r :: after)%list /\
       status r = 200 /\
       res_answer r = Some "Sorry we didn't find any information related to this." /\
       res_searchedIn r = Some (provider s) /\
       res_sessionId r = Some (Some sid) /\
       retrievals (asksFor geminiKey qFor (pre ++ [s]) ++ CallResJson r :: after)
       = map (fun st => [st]) (pre ++ [s]) /\
       fst (fanOut E mail question sid isNewSession name accessible geminiKey
              splitQuestions predicted [] [] w)
       = ShortCircuit (zip_with resultOf pre ds) /\
       length (zip_with resultOf pre ds) = length pre) /\
  (askQuestion E (length pre) geminiKey [s] (qFor s) = Throw ->
   trace (snd (ask E req w))
   = (trace w ++ asksFor geminiKey qFor (pre ++ [s]) ++
      [CallResJson (errorResponse 500 "Internal Server Error")])%list /\
   res_answer (errorResponse 500 "Internal Server Error") = None /\
   retrievals (drop (length (trace w)) (trace (snd (ask E req w))))
   = map (fun st => [st]) (pre ++ [s]) /\
   fst (fanOut E mail question sid isNewSession name accessible geminiKey
          splitQuestions predicted [] [] w)
   = Rejected (zip_with resultOf pre ds)).
Proof using All.
  intros Hsplit Hans. split.
  - intros ragResp Hcall Hfail.
    rewrite ask_route, Hsplit,
      (route_first_failure _ _ _ _ _ _ _ _ _ pre s post ds ragResp unans w Hans Hcall Hfail).
    cbn [snd].
    destruct (trace_ragFailed E mail question sid isNewSession name accessible
                splitQuestions s (emit (asksFor geminiKey qFor (pre ++ [s])) w))
      as (t & t' & Htr).
    eexists. eexists. split.
    { rewrite Htr, trace_emit, <- app_assoc. reflexivity. }
    repeat split.
    + unfold retrievals. rewrite omap_app. fold retrievals.
      rewrite retrievals_asksFor, retrievals_after; [by rewrite app_nil_r|].
      constructor; [reflexivity|]. apply not_retrieval_persisted.
      apply not_retrieval_failedLog.
    + by rewrite (fanOut_first_failure _ _ _ _ _ _ _ _ _ pre s post ds ragResp w
                    Hans Hcall Hfail).
    + eapply results_length; eassumption.
  - intros Hcall.
    rewrite ask_route, Hsplit,
      (route_rejected _ _ _ _ _ _ _ _ _ pre s post ds unans w Hans Hcall).
    cbn [snd]. rewrite trace_emit. split; [reflexivity|]. split; [reflexivity|].
    split.
    + rewrite drop_app_length. unfold retrievals. rewrite omap_app. fold retrievals.
      rewrite retrievals_asksFor. cbn. by rewrite app_nil_r.
    + by rewrite (fanOut_rejected _ _ _ _ _ _ _ _ _ pre s post ds w Hans Hcall).
Qed.

(** C2.  When every selected store has a usable answer: the response lists
    the selected stores as [storesUsed]; its grounding is the evidence of
    the answers, store after store, in each store's chunk order; with one
    store the answer is that store's answer text and nothing else; with two
    or more it is the stores' sections, each headed by the store name,
    joined in classifier order. *)
Theorem all_answered_merge (ds : list RagData) :
  predicted <> [] ->
  answersOf E geminiKey qFor 0 predicted = Some ds ->
  exists r after,
    trace (snd (ask E req w))
    = (trace w ++ asksFor geminiKey qFor predicted ++ CallResJson r :: after)%list /\
    status r = 200 /\
    res_storesUsed r = Some predicted /\
    res_grounding r = Some (concat (map evidence ds)) /\
    length ds = length predicted /\
    (forall d, ds = [d] -> res_answer r = Some (default "" (response_text d))) /\
    (2 <= length predicted ->
     res_answer r = Some (join (nl +:+ nl) (zip_with section predicted ds))).
Proof using All.
  intros Hne Hans.
  rewrite ask_route, (route_all_answered _ _ _ _ _ _ _ _ _ predicted ds unans w Hne Hans).
  destruct (trace_respondAndPersist E mail question sid isNewSession name accessible
              splitQuestions predicted (zip_with resultOf predicted ds)
              (concat (map evidence ds)) (emit (asksFor geminiKey qFor predicted) w))
    as (t & stamps & Hlen & Htr).
  pose proof (answersOf_length _ _ _ _ _ _ _ Hans) as Hds.
  eexists. eexists. split.
  { rewrite Htr, trace_emit, <- app_assoc. reflexivity. }
  cbn [status res_storesUsed res_grounding res_answer].
  repeat split; [exact Hds | |].
  - intros d ->. destruct predicted as [|st [|st' sts]]; try discriminate. reflexivity.
  - intros Hlong.
    destruct predicted as [|st [|st' sts]]; simpl in Hlong; try lia.
    destruct ds as [|d [|d' ds']]; try discriminate.
    unfold mergeAnswers. cbn [zip_with]. rewrite <- (map_zip_with resultOf labeled).
    reflexivity.
Qed.


End Routed.

(* ================================================================= *)
(** ** The scenario, run *)

Lemma first_failure_short_circuits_witness :
  exists r after,
    trace (snd (ask Scenario.E1 Scenario.request Scenario.w0))
    = ([ CallAskQuestion (Some "K") ["admissions"] (Asked Scenario.question);
         CallAskQuestion (Some "K") ["library"] (Asked "When does the library open?");
         CallResJson r ] ++ after)%list /\
    res_answer r = Some "Sorry we didn't find any information related to this." /\
    res_searchedIn r = Some (Some "lib@u.edu") /\
    retrievals (trace (snd (ask Scenario.E1 Scenario.request Scenario.w0)))
    = [["admissions"]; ["library"]].
Proof.
  destruct (first_failure_short_circuits Scenario.E1 Scenario.request Scenario.w0
              "s@u.edu" Scenario.question Scenario.student Scenario.classification
              eq_refl ltac:(discriminate) eq_refl ltac:(discriminate)
              ltac:(vm_compute; reflexivity) ltac:(discriminate)
              ltac:(vm_compute; reflexivity)
              ["admissions"] [] "library" [Scenario.answer "9am"]
              eq_refl ltac:(vm_compute; reflexivity))
    as (Hreturns & _).
  destruct (Hreturns (Some {| success := false; data := None |})
              ltac:(vm_compute; reflexivity) eq_refl)
    as (r & after & Htr & _ & Hans & Hin & _ & Hret & _).
  exists r, after. rewrite Htr. repeat split.
  - exact Hans.
  - exact Hin.
  - exact Hret.
Defined.

(** C1 as stated fails.  A retrieval call that fails by rejecting is not
    short-circuited into the apology: the second of two calls rejects, and
    the request is answered with status 500 and no answer at all.  And a
    result that succeeds with an empty text counts as an answer: the request
    is answered with the merged text and both stores as [storesUsed]. *)
Lemma rejected_call_gets_no_apology :
  (callsOf Scenario.E2 Scenario.request Scenario.w0
   = [ CallAskQuestion (Some "K") ["admissions"] (Asked Scenario.question);
       CallAskQuestion (Some "K") ["library"] (Asked "When does the library open?");
       CallResJson (errorResponse 500 "Internal Server Error") ] /\
   res_answer (errorResponse 500 "Internal Server Error") = None /\
   res_searchedIn (errorResponse 500 "Internal Server Error") = None) /\
  (exists r after,
     callsOf Scenario.E3 Scenario.request Scenario.w0
     = [ CallAskQuestion (Some "K") ["admissions"] (Asked Scenario.question);
         CallAskQuestion (Some "K") ["library"] (Asked "When does the library open?");
         CallResJson r ] ++ after /\
     res_answer r = Some ("**admissions**:" +:+ nl +:+ "9am" +:+ nl +:+ nl +:+
                          "**library**:" +:+ nl) /\
     res_storesUsed r = Some ["admissions"; "library"] /\
     res_searchedIn r = None)%list.
Proof.
  split; [vm_compute; repeat split|].
  eexists. eexists. vm_compute. repeat split.
Qed.

Lemma all_answered_merge_witness :
  exists r after,
    trace (snd (ask Scenario.E0 Scenario.request Scenario.w0))
    = ([ CallAskQuestion (Some "K") ["admissions"] (Asked Scenario.question);
         CallAskQuestion (Some "K") ["library"] (Asked "When does the library open?");
         CallResJson r ] ++ after)%list /\
    res_answer r = Some ("**admissions**:" +:+ nl +:+ "9am" +:+ nl +:+ nl +:+
                         "**library**:" +:+ nl +:+ "8am-10pm") /\
    res_storesUsed r = Some ["admissions"; "library"] /\
    res_grounding r = Some ["on 9am"; "on 8am-10pm"].
Proof.
  destruct (all_answered_merge Scenario.E0 Scenario.request Scenario.w0
              "s@u.edu" Scenario.question Scenario.student Scenario.classification
              eq_refl ltac:(discriminate) eq_refl ltac:(discriminate)
              ltac:(vm_compute; reflexivity) ltac:(discriminate)
              ltac:(vm_compute; reflexivity)
              [Scenario.answer "9am"; Scenario.answer "8am-10pm"]
              ltac:(discriminate) ltac:(vm_compute; reflexivity))
    as (r & after & Htr & _ & Hused & Hg & _ & _ & Hans).
  exists r, after. rewrite Htr. repeat split.
  - apply Hans. simpl. lia.
  - exact Hused.
  - exact Hg.
Defined.



(* ================================================================= *)
(** ** File names and what they hide *)


Lemma sanitize_id (s : string) : allChars is_safe_char s = true -> sanitize s = s.
Proof.
  induction s as [|c r IH]; [reflexivity|]. simpl.
  intros [Hc Hr]%andb_true_iff. by rewrite Hc, IH.
Qed.

Lemma sanitize_allChars (s : string) : allChars is_safe_char (sanitize s) = true.
Proof.
  induction s as [|c r IH]; [reflexivity|]. simpl. rewrite IH, andb_true_r.
  destruct (is_safe_char c) eqn:Hc; [exact Hc | reflexivity].
Qed.

(** X1.  The file-name sanitizer of the helpers,
    [email.replace(/[^a-zA-Z0-9@._-]/g, "_")]: its result holds only
    letters, digits, [@], [.], [_] and [-], so no path separator; it has the
    length of its argument; sanitizing twice is sanitizing once; and a string
    of such characters only is left as it is. *)
Theorem sanitize_safe (s : string) :
  allChars is_safe_char (sanitize s) = true /\
  String.length (sanitize s) = String.length s /\
  sanitize (sanitize s) = sanitize s /\
  (allChars is_safe_char s = true -> sanitize s = s) /\
  indexOf "/"%char (sanitize s) = None.
Proof.
  split; [apply sanitize_allChars|]. split.
  { induction s as [|c r IH]; [reflexivity|]. simpl. by rewrite IH. }
  split; [apply sanitize_id, sanitize_allChars|]. split; [apply sanitize_id|].
  pose proof (sanitize_allChars s) as H. revert H.
  generalize (sanitize s). intros t. induction t as [|c r IH]; [reflexivity|].
  cbn [allChars indexOf]. intros [Hc Hr]%andb_true_iff.
  destruct (Ascii.eqb "/" c) eqn:E.
  - apply Ascii.eqb_eq in E. subst c. discriminate.
  - by rewrite (IH Hr).
Qed.


(* ================================================================= *)
(** ** Writes to the Conversation Store *)

(** The session read back after an append that can write its file, by what
    was read before it. *)
Lemma getSession_appendMessage E mail sid m w :
  sessionWritable E mail sid w = true ->
  fst (appendMessageToSessionFile E mail sid m w) = Normal tt /\
  exists s,
    getSession mail sid (snd (appendMessageToSessionFile E mail sid m w)) = Some s /\
    match getSession mail sid w with
    | Some s0 =>
        messages s = Some (default [] (messages s0) ++ [m])%list /\
        sessionId s = sessionId s0 /\ sessionName s = sessionName s0 /\
        email s = email s0 /\ createdAt s = createdAt s0
    | None =>
        messages s = Some [m] /\ sessionId s = sid /\ email s = mail /\
        sessionName s = Some (generateSessionName (Some (msg_question m)))
    end.
Proof.
  intros Hw.
  destruct (appendMessage_outcome E mail sid m w) as (Hfst & _ & _ & _ & _ & _ & Hget & _).
  rewrite Hw in Hfst, Hget. by split.
Qed.





(** X4.  Appending a message to a session whose file parses keeps the id,
    the name, the email and the creation time of the session, and puts the
    message behind the messages it had (none when the document has no
    [messages]). *)
Theorem appendMessage_keeps_history (E : env) (mail sid : string) (m : Message)
    (w : world) (s0 : Session) :
  getSession mail sid w = Some s0 ->
  exists s,
    getSession mail sid (snd (appendMessageToSessionFile E mail sid m w)) = Some s /\
    messages s = Some (default [] (messages s0) ++ [m])%list /\
    sessionId s = sessionId s0 /\ sessionName s = sessionName s0 /\
    email s = email s0 /\ createdAt s = createdAt s0.
Proof.
  intros Hsome.
  destruct (getSession_appendMessage E mail sid m w) as (_ & s & Hget & Hs).
  { by apply (getSession_writable E mail sid w s0). }
  rewrite Hsome in Hs. exists s. by split.
Qed.

Lemma names_writeFile {A} (name : string) (c : A) (d : dir A) :
  map fst (writeFile name c d)
  = match readFile name d with
    | Some _ => map fst d
    | None => (map fst d ++ [name])%list
    end.
Proof.
  induction d as [|[n c0] r IH]; [reflexivity|]. simpl.
  destruct (String.eqb n name) eqn:Hn; [reflexivity|].
  simpl. rewrite IH. by destruct (readFile name r).
Qed.

(** X5.  When the session file lies in the chat directory, as it does for
    every session id without a path separator, creating the session and
    appending a message write that one file only: every other file of the
    chat directory reads as before, and the provider logs and the student
    accounts are not touched.  (A session id with [/../] can name a file of
    another directory, the account of a student for one; such ids are left
    out here.) *)
Theorem session_writes_frame (E : env) (mail sid : string) (name : option string)
    (m : Message) (w : world) (f other : string) :
  locate (getSessionFile mail sid) = InChat f ->
  other <> f ->
  let appended := snd (appendMessageToSessionFile E mail sid m w) in
  let fresh := snd (createSessionFile E mail sid name w) in
  readFile other (chat_sessions appended) = readFile other (chat_sessions w) /\
  readFile other (chat_sessions fresh) = readFile other (chat_sessions w) /\
  provider_questions appended = provider_questions w /\
  provider_questions fresh = provider_questions w /\
  students appended = students w /\ students fresh = students w /\
  universities appended = universities w /\ universities fresh = universities w /\
  elsewhere appended = elsewhere w /\ elsewhere fresh = elsewhere w.
Proof.
  intros Hloc Hne appended fresh.
  destruct (appendMessage_outcome E mail sid m w)
    as (_ & _ & Hst & Hun & Hpq & _ & _ & Hchat).
  destruct (createSessionFile_outcome E mail sid name w)
    as (_ & _ & Hst' & Hun' & Hpq' & _ & _ & Hchat').
  cbv zeta in *. rewrite Hloc in Hchat, Hchat'.
  destruct Hchat as ((s & Hc) & He). destruct Hchat' as (Hc' & He').
  subst appended fresh. rewrite Hc, Hc'.
  rewrite !readFile_writeFile_other by done. done.
Qed.

Lemma appendMessage_keeps_history_witness :
  exists s,
    getSession "s@u.edu" "session_1"
      (snd (appendMessageToSessionFile Scenario.E0 "s@u.edu" "session_1"
              Edge.gym
              History.second)) = Some s /\
    sessionName s = Some "Opening hours" /\
    createdAt s = "2024-01-01T09:00:00.000Z".
Proof.
  destruct (appendMessage_keeps_history Scenario.E0 "s@u.edu" "session_1"
              Edge.gym
              History.second
              {| sessionId := "session_1"; sessionName := Some "Opening hours";
                 email := "s@u.edu"; createdAt := "2024-01-01T09:00:00.000Z";
                 updatedAt := "2024-01-02T09:00:00.000Z"; messages := Some [] |}
              ltac:(vm_compute; reflexivity))
    as (s & Hs & _ & _ & Hn & _ & Hc).
  exists s. repeat split; assumption.
Defined.

Lemma session_writes_frame_witness :
  readFile "s@u.edu__session_2.json"
    (chat_sessions
       (snd (createSessionFile Scenario.E0 "s@u.edu" "session_1" None History.second)))
  = readFile "s@u.edu__session_2.json" (chat_sessions History.second).
Proof.
  apply (session_writes_frame Scenario.E0 "s@u.edu" "session_1" None
           {| msg_role := ""; msg_question := ""; msg_answer := ""; msg_storesUsed := [];
              msg_grounding := []; msg_timestamp := ""; msg_unresolvedParts := None;
              msg_searchedIn := None |}
           History.second "s@u.edu__session_1.json" "s@u.edu__session_2.json").
  - vm_compute. reflexivity.
  - discriminate.
Defined.

(* ================================================================= *)
(** ** Writes to the Audit Log *)

Lemma logs_appendProviderLog provider doc w :
  provider_questions (snd (appendProviderLog provider doc w))
  = <[sanitize provider +:+ ".json" :=
        LogArray (entriesOf (provider_questions w !! (sanitize provider +:+ ".json"))
                  ++ [doc])]> (provider_questions w).
Proof. reflexivity. Qed.

(** X6.  Two appends to the log of one provider add the two entries, in
    the order of the calls, behind the entries the file held (none when the
    file was missing, no array, or did not parse); the log files of other
    names and the chat directory are as before. *)
Theorem appendProviderLog_accumulates (provider : string)
    (d1 d2 : ProviderLogEntry) (w : world) :
  let file := sanitize provider +:+ ".json" in
  let w2 := snd (appendProviderLog provider d2 (snd (appendProviderLog provider d1 w))) in
  provider_questions w2 !! file
  = Some (LogArray (entriesOf (provider_questions w !! file) ++ [d1; d2])) /\
  (forall other, other <> file ->
     provider_questions w2 !! other = provider_questions w !! other) /\
  chat_sessions w2 = chat_sessions w.
Proof.
  intros file w2. subst w2. rewrite !logs_appendProviderLog. fold file.
  split; [|split].
  - rewrite lookup_insert_eq. cbn [entriesOf]. rewrite lookup_insert_eq.
    cbn [entriesOf]. by rewrite <- app_assoc.
  - intros other Hne. by rewrite !lookup_insert_ne.
  - reflexivity.
Qed.

Section StepFive.

Context (E : env) (mail question : string) (accessible : list AccessibleStore)
        (splitQuestions : gmap string string).

Local Notation "'logged'" :=
  (fun e : ProviderLogEntry => (store_name e, response e, provider_email e)).

Lemma chat_logProviders rs w :
  chat_sessions (snd (logProviders E mail question accessible splitQuestions rs w))
  = chat_sessions w /\
  elsewhere (snd (logProviders E mail question accessible splitQuestions rs w))
  = elsewhere w.
Proof.
  revert w. induction rs as [|r rs IH]; intros w; [done|].
  cbn [logProviders]. rewrite !bind_run.
  match goal with |- context [logProviders _ _ _ _ _ rs ?w'] =>
    destruct (IH w') as [-> ->] end.
  done.
Qed.


End StepFive.

(* ================================================================= *)
(** ** What a routed request leaves behind *)

Lemma createIfNew_emit E mail sid isNew name evs w :
  chat_sessions (snd (createIfNew E mail sid isNew name (emit evs w)))
  = chat_sessions (snd (createIfNew E mail sid isNew name w)) /\
  elsewhere (snd (createIfNew E mail sid isNew name (emit evs w)))
  = elsewhere (snd (createIfNew E mail sid isNew name w)).
Proof.
  destruct isNew; [|done]. cbn [createIfNew].
  unfold createSessionFile. rewrite !bind_run. cbn [call now fst snd dates emit].
  unfold writeChat. destruct (locate (getSessionFile mail sid)) as [f| |p]; [done|done|].
  cbn [elsewhere]. by destruct (_ || _).
Qed.



Lemma providerLog_answeredLogs mail qFor provider rs stamps :
  Forall (fun e => isProviderLog e = true)
         (zip_with (answeredLog mail qFor provider) rs stamps).
Proof.
  revert stamps. induction rs as [|r rs IH]; intros [|t stamps]; try constructor;
    [reflexivity | apply IH].
Qed.

Section Outcome.

Context (E : env) (mail question sid : string) (isNewSession : bool)
        (name : option string) (accessible : list AccessibleStore)
        (geminiKey : option string) (splitQuestions : gmap string string).

Local Notation "'qFor'" := (qForStore question splitQuestions).
Local Notation "'provider'" := (deptEmail accessible).
Local Notation "'creation'" := (created isNewSession mail sid name).
Local Notation "'writable'" := (sessionWritable E mail sid).

(** The four ways through [route]. *)
Lemma route_cases predicted unans w :
  (predicted = [] /\
   route E mail question sid isNewSession name accessible geminiKey splitQuestions
     predicted unans w
   = noStoreSelected E mail question sid isNewSession name unans w) \/
  (exists ds,
     predicted <> [] /\ answersOf E geminiKey qFor 0 predicted = Some ds /\
     route E mail question sid isNewSession name accessible geminiKey splitQuestions
       predicted unans w
     = respondAndPersist E mail question sid isNewSession name accessible
         splitQuestions predicted (zip_with resultOf predicted ds)
         (concat (map evidence ds)) (emit (asksFor geminiKey qFor predicted) w)) \/
  (exists pre s post ds ragResp,
     predicted = (pre ++ s :: post)%list /\
     answersOf E geminiKey qFor 0 pre = Some ds /\
     askQuestion E (length pre) geminiKey [s] (qFor s) = Normal ragResp /\
     usable ragResp = None /\
     route E mail question sid isNewSession name accessible geminiKey splitQuestions
       predicted unans w
     = (tt, snd (ragFailed E mail question sid isNewSession name accessible
                   splitQuestions s (emit (asksFor geminiKey qFor (pre ++ [s])) w)))) \/
  (exists pre s post ds,
     predicted = (pre ++ s :: post)%list /\
     answersOf E geminiKey qFor 0 pre = Some ds /\
     askQuestion E (length pre) geminiKey [s] (qFor s) = Throw /\
     route E mail question sid isNewSession name accessible geminiKey splitQuestions
       predicted unans w
     = (tt, emit (asksFor geminiKey qFor (pre ++ [s]) ++
                  [CallResJson (errorResponse 500 "Internal Server Error")]) w)).
Proof.
  destruct predicted as [|st sts] eqn:Hp; [left; by split|]. rewrite <- Hp.
  destruct (answersOf_or_first_failure E question geminiKey splitQuestions 0 predicted)
    as [[ds Hds]|(pre & s & post & ds & Hsplit & Hds & Hfail)].
  - right; left. exists ds. split; [congruence|]. split; [exact Hds|].
    apply route_all_answered; [congruence | exact Hds].
  - simpl in Hfail. apply answerOf_None in Hfail as [Hthrow|(ragResp & Hcall & Hunusable)].
    + right; right; right. exists pre, s, post, ds. repeat split; try assumption.
      rewrite Hsplit. by apply (route_rejected _ _ _ _ _ _ _ _ _ pre s post ds).
    + right; right; left. exists pre, s, post, ds, ragResp. repeat split; try assumption.
      rewrite Hsplit. by apply (route_first_failure _ _ _ _ _ _ _ _ _ pre s post ds ragResp).
Qed.

Lemma retrieval_asksFor sts :
  Forall (fun e => isRetrieval e = true) (asksFor geminiKey qFor sts).
Proof. induction sts; constructor; [reflexivity | assumption]. Qed.

(** A branch that answers: the response, then the detached block, run after
    the retrieval calls [asks]. *)
Lemma answered_outcome (r : Response) (mk : string -> Message) (L : M unit)
    (logsOf : world -> list event) (asks : list event) w :
  (forall w0, trace (snd (L w0)) = (trace w0 ++ logsOf w0)%list) ->
  (forall w0, chat_sessions (snd (L w0)) = chat_sessions w0 /\
              elsewhere (snd (L w0)) = elsewhere w0) ->
  exists t w1 w2,
    let w' := snd (detached
                     (createIfNew E mail sid isNewSession name >>>
                      (let* t := now E in appendMessageToSessionFile E mail sid (mk t)) >>>
                      settled L) (emit [CallResJson r] (emit asks w))) in
    trace w' = (trace w ++ asks ++ CallResJson r ::
                persisted (writable w) isNewSession mail sid name (mk t) (logsOf w2))%list /\
    chat_sessions w1 = chat_sessions (snd (createIfNew E mail sid isNewSession name w)) /\
    elsewhere w1 = elsewhere (snd (createIfNew E mail sid isNewSession name w)) /\
    provider_questions w2 = provider_questions w /\
    (writable w = true ->
     w' = snd (L w2) /\
     chat_sessions w' = chat_sessions (snd (appendMessageToSessionFile E mail sid (mk t) w1)) /\
     elsewhere w' = elsewhere (snd (appendMessageToSessionFile E mail sid (mk t) w1))) /\
    (writable w = false ->
     provider_questions w' = provider_questions w /\
     chat_sessions w' = chat_sessions w /\ elsewhere w' = elsewhere w).
Proof.
  intros Htrace Hframe.
  destruct (block_outcome E mail sid isNewSession name mk L logsOf
              (emit [CallResJson r] (emit asks w)) Htrace)
    as (t & w1 & w2 & Htr & Hw2 & Hc1 & He1 & Hpq & Hwt & Hwf).
  exists t, w1, w2. cbv zeta in *.
  change (sessionWritable E mail sid (emit [CallResJson r] (emit asks w)))
    with (writable w) in *.
  split. { rewrite Htr. cbn [emit trace]. by rewrite <- !app_assoc. }
  rewrite emit_emit in Hc1, He1.
  destruct (createIfNew_emit E mail sid isNewSession name (asks ++ [CallResJson r]) w)
    as [Hc He].
  split; [by rewrite Hc1|]. split; [by rewrite He1|]. split; [exact Hpq|]. split.
  - intros Hw. rewrite (Hwt Hw). split; [done|]. rewrite <- Hw2. apply Hframe.
  - exact Hwf.
Qed.

(** Every way through [route] answers once.  Either a retrieval call
    rejected, and the response has status 500 and follows the retrieval
    calls with nothing after it; or the response has status 200 and the
    detached block follows it, which appends one message that carries the
    answer when the session file can be written. *)
Lemma route_outcome predicted unans w :
  let w' := snd (route E mail question sid isNewSession name accessible
                   geminiKey splitQuestions predicted unans w) in
  (exists asks,
     w' = emit (asks ++ [CallResJson (errorResponse 500 "Internal Server Error")]) w /\
     Forall (fun e => isRetrieval e = true) asks) \/
  (exists asks r m logs w1,
    trace w' = (trace w ++ asks ++ CallResJson r ::
                persisted (writable w) isNewSession mail sid name m logs)%list /\
    Forall (fun e => isRetrieval e = true) asks /\
    Forall (fun e => isProviderLog e = true) logs /\
    status r = 200 /\ res_answer r = Some (msg_answer m) /\
    res_sessionId r = Some (Some sid) /\ msg_question m = question /\
    chat_sessions w1 = chat_sessions (snd (createIfNew E mail sid isNewSession name w)) /\
    elsewhere w1 = elsewhere (snd (createIfNew E mail sid isNewSession name w)) /\
    (writable w = true ->
     chat_sessions w' = chat_sessions (snd (appendMessageToSessionFile E mail sid m w1)) /\
     elsewhere w' = elsewhere (snd (appendMessageToSessionFile E mail sid m w1))) /\
    (writable w = false ->
     provider_questions w' = provider_questions w /\
     chat_sessions w' = chat_sessions w /\ elsewhere w' = elsewhere w)).
Proof.
  cbv zeta.
  destruct (route_cases predicted unans w)
    as [[-> ->]|[(ds & Hne & Hds & ->)|[(pre & s & post & ds & ragResp & -> & Hds & Hcall
                                         & Hfail & ->)
                                       |(pre & s & post & ds & -> & Hds & Hcall & ->)]]].
  - right. unfold noStoreSelected. rewrite bind_run. cbn [resJson call fst snd].
    rewrite block_run_last.
    match goal with
    | |- context [emit [CallResJson ?r] _] => pose (resp := r)
    end.
    destruct (answered_outcome resp
                (fun t => {| msg_role := "assistant"; msg_question := question;
                             msg_answer := "Sorry, none of the departments can answer this.";
                             msg_storesUsed := []; msg_grounding := []; msg_timestamp := t;
                             msg_unresolvedParts := Some unans; msg_searchedIn := None |})
                (ret tt) (fun _ => []) [] w)
      as (t & w1 & w2 & Htr & Hc1 & He1 & _ & Hwt & Hwf); [| |].
    { intros w0. cbn [ret snd]. by rewrite app_nil_r. }
    { done. }
    cbv zeta in *. rewrite emit_nil in *. subst resp.
    eexists [], _, _, [], w1. split; [exact Htr|].
    do 2 (split; [constructor|]). do 4 (split; [reflexivity|]).
    split; [exact Hc1|]. split; [exact He1|]. split; [|exact Hwf].
    intros Hw. by destruct (Hwt Hw) as (_ & ? & ?).
  - right. unfold respondAndPersist. rewrite bind_run. cbn [resJson call fst snd].
    match goal with
    | |- context [emit [CallResJson ?r] _] => pose (resp := r)
    end.
    destruct (answered_outcome resp
                (fun t => {| msg_role := "assistant"; msg_question := question;
                             msg_answer := mergeAnswers (zip_with resultOf predicted ds);
                             msg_storesUsed := predicted;
                             msg_grounding := concat (map evidence ds); msg_timestamp := t;
                             msg_unresolvedParts := None; msg_searchedIn := None |})
                (logProviders E mail question accessible splitQuestions
                   (zip_with resultOf predicted ds))
                _ (asksFor geminiKey qFor predicted) w
                (trace_logProviders E mail question accessible splitQuestions
                   (zip_with resultOf predicted ds)))
      as (t & w1 & w2 & Htr & Hc1 & He1 & _ & Hwt & Hwf).
    { intros w0. apply chat_logProviders. }
    cbv zeta in *. subst resp.
    eexists _, _, _, _, w1. split; [exact Htr|].
    split; [apply retrieval_asksFor|]. split; [apply providerLog_answeredLogs|].
    do 4 (split; [reflexivity|]).
    split; [exact Hc1|]. split; [exact He1|]. split; [|exact Hwf].
    intros Hw. by destruct (Hwt Hw) as (_ & ? & ?).
  - right. cbn [snd]. unfold ragFailed. rewrite bind_run. cbn [resJson call fst snd].
    match goal with
    | |- context [emit [CallResJson ?r] _] => pose (resp := r)
    end.
    destruct (answered_outcome resp
                (fun t => {| msg_role := "assistant"; msg_question := question;
                             msg_answer := "Sorry we didn't find any information related to this.";
                             msg_storesUsed := [s]; msg_grounding := [];
                             msg_timestamp := t; msg_unresolvedParts := None;
                             msg_searchedIn := Some (provider s) |})
                _ _ (asksFor geminiKey qFor (pre ++ [s])) w
                (trace_failedLog E mail question accessible splitQuestions s))
      as (t & w1 & w2 & Htr & Hc1 & He1 & _ & Hwt & Hwf).
    { intros w0. destruct (provider s); rewrite ?bind_run; done. }
    cbv zeta in *. subst resp.
    eexists _, _, _, _, w1. split; [exact Htr|].
    split; [apply retrieval_asksFor|]. split.
    { unfold failedLog. destruct (provider s); repeat constructor. }
    do 4 (split; [reflexivity|]).
    split; [exact Hc1|]. split; [exact He1|]. split; [|exact Hwf].
    intros Hw. by destruct (Hwt Hw) as (_ & ? & ?).
  - left. cbn [snd]. eexists. split; [reflexivity|]. apply retrieval_asksFor.
Qed.

End Outcome.

(* ================================================================= *)
(** ** The ways through POST /ask *)

Lemma truthy_Some s : truthy (Some s) = true -> s <> EmptyString.
Proof. by destruct s. Qed.

(** A request is rejected with one response and no other effect, or it is
    routed with the variables of the handler. *)
Lemma ask_cases E req w :
  (exists r, (status r = 400 \/ status r = 404 \/ status r = 500) /\
             ask E req w = (tt, emit [CallResJson r] w)) \/
  (ask E req w = (tt, emit [CallResJson noStoresAvailable] w)) \/
  (exists mail question student splitQuestions predicted unans,
     req_email req = Some mail /\ req_question req = Some question /\
     mail <> EmptyString /\ question <> EmptyString /\
     fst (readStudent mail w) = Some student /\
     ask E req w
     = route E mail question (sessionOf E req) (negb (truthy (req_sessionId req)))
         (if negb (truthy (req_sessionId req))
          then Some (generateSessionName (Some question)) else None)
         (default [] (accessibleStores student))
         (universityKey (fst (readUniversity (universityEmail student) w)))
         splitQuestions predicted unans w).
Proof.
  unfold ask, sessionOf.
  destruct (req_email req) as [[|a m]|]; try (left; eexists; split; [|reflexivity]; cbn; auto).
  destruct (req_question req) as [[|b q]|];
    try (left; eexists; split; [|reflexivity]; cbn; auto).
  rewrite bind_run, snd_readStudent.
  destruct (fst (readStudent (String a m) w)) as [student|] eqn:Hst;
    [|left; eexists; split; [|reflexivity]; cbn; auto].
  destruct (Nat.eqb _ 0); [right; left; reflexivity|].
  rewrite bind_run, snd_readUniversity.
  destruct (truthy (req_sessionId req)) eqn:Hsid; cbn [negb];
    (destruct (classifyStores E _ _ _) as [[| |c]|];
     try (left; eexists; split; [|reflexivity]; cbn; auto));
    right; right; do 6 eexists; repeat split; first [exact Hst | done].
Qed.

Lemma callsOf_emit E req w evs :
  ask E req w = (tt, emit evs w) -> callsOf E req w = evs.
Proof. intros H. unfold callsOf. rewrite H. cbn [snd emit trace]. apply drop_app_length. Qed.

Lemma callsOf_trace E req w evs :
  trace (snd (ask E req w)) = (trace w ++ evs)%list -> callsOf E req w = evs.
Proof. intros H. unfold callsOf. rewrite H. apply drop_app_length. Qed.

Lemma ask_snd E req w w' : snd (ask E req w) = w' -> ask E req w = (tt, w').
Proof. intros <-. by destruct (ask E req w) as [[] ?]. Qed.

(** The calls of a routed request that is answered: see [route_outcome]. *)
Lemma in_outcome asks r ok isNew mail sid name m logs e :
  Forall (fun e => isRetrieval e = true) asks ->
  Forall (fun e => isProviderLog e = true) logs ->
  e ∈ (asks ++ CallResJson r :: persisted ok isNew mail sid name m logs)%list ->
  isRetrieval e = true \/ e = CallResJson r \/
  (isNew = true /\ e = CallCreateSessionFile mail sid name) \/
  e = CallAppendMessage mail sid m \/ isProviderLog e = true.
Proof.
  intros Hasks Hlogs. rewrite elem_of_app, elem_of_cons.
  rewrite Forall_forall in Hasks, Hlogs.
  intros [H|[H|H]]; auto 6.
  unfold persisted in H. destruct ok.
  - rewrite elem_of_app, elem_of_cons in H. destruct H as [H|[H|H]]; auto 6.
    right; right; left. destruct isNew; cbn [created] in H.
    + apply list_elem_of_singleton in H. by split.
    + by apply elem_of_nil in H.
  - destruct isNew; apply list_elem_of_singleton in H; auto 6.
Qed.

Lemma responses_retrievals {A} (f : Response -> A) asks :
  Forall (fun e => isRetrieval e = true) asks ->
  omap (fun e => match e with CallResJson r => Some (f r) | _ => None end) asks = [].
Proof.
  intros Hasks. induction Hasks as [|e l He _ IH]; [reflexivity|].
  destruct e; try discriminate. exact IH.
Qed.

Lemma responses_persisted {A} (f : Response -> A) ok isNew mail sid name m logs :
  Forall (fun e => isProviderLog e = true) logs ->
  omap (fun e => match e with CallResJson r => Some (f r) | _ => None end)
       (persisted ok isNew mail sid name m logs) = [].
Proof.
  intros Hlogs.
  assert (H : omap (fun e => match e with CallResJson r => Some (f r) | _ => None end) logs
              = []).
  { induction Hlogs as [|e l He _ IH]; [reflexivity|].
    destruct e; try discriminate. exact IH. }
  unfold persisted. destruct ok, isNew; cbn; by rewrite ?H.
Qed.

(** X7.  Every request to POST /ask is answered exactly once, with status
    200, 400, 404 or 500.  When the status is not 200 the response is the
    last thing that happens and only retrieval calls come before it: there
    is no write to a session or to a provider log, and the files are as
    before; and when the status is 400 or 404 there is no retrieval call
    either, so that the response is the only thing that happens. *)
Theorem ask_one_response (E : env) (req : Request) (w : world) :
  exists r,
    omap (fun e => match e with CallResJson r => Some r | _ => None end)
         (callsOf E req w) = [r] /\
    (status r = 200 \/ status r = 400 \/ status r = 404 \/ status r = 500) /\
    (status r <> 200 ->
     exists asks,
       Forall (fun e => isRetrieval e = true) asks /\
       ask E req w = (tt, emit (asks ++ [CallResJson r]) w) /\
       (status r <> 500 -> asks = [])).
Proof.
  destruct (ask_cases E req w)
    as [(r & Hr & Hask)|[Hask|(mail & question & student & split & predicted & unans
                               & _ & _ & _ & _ & _ & Hask)]].
  - exists r. rewrite (callsOf_emit _ _ _ _ Hask). split; [reflexivity|].
    split; [tauto|]. intros _. exists []. by repeat split.
  - exists noStoresAvailable. rewrite (callsOf_emit _ _ _ _ Hask).
    split; [reflexivity|]. split; [by left|]. intros Hne. by destruct Hne.
  - match type of Hask with _ = route ?E ?a ?b ?c ?d ?e ?f ?g ?h ?i ?j ?w =>
      destruct (route_outcome E a b c d e f g h i j w)
        as [(asks & Hw' & Hasks)
           |(asks & r & m & logs & w1 & Htr & Hasks & Hlogs & Hst & _)] end;
      cbv zeta in *; rewrite <- Hask in *.
    + exists (errorResponse 500 "Internal Server Error").
      apply ask_snd in Hw'. rewrite (callsOf_emit _ _ _ _ Hw').
      split.
      { rewrite omap_app, (responses_retrievals (fun r => r) asks Hasks). reflexivity. }
      split; [auto|]. intros _. exists asks. repeat split; try assumption.
      intros Hne. by destruct Hne.
    + exists r. rewrite (callsOf_trace _ _ _ _ Htr). split; [|split; [auto | congruence]].
      rewrite omap_app. cbn [omap list_omap].
      rewrite (responses_retrievals (fun r => r) asks Hasks).
      by rewrite (responses_persisted (fun r => r) _ _ _ _ _ _ _ Hlogs).
Qed.

(** X8.  Validation comes first.  A request without an email or without a
    question (absent or empty) is answered 400 [email & question required]
    and nothing else; a request with both whose student account is missing
    or does not parse is answered 404 [Student not found] and nothing
    else. *)
Theorem ask_validation (E : env) (req : Request) (w : world) :
  (truthy (req_email req) && truthy (req_question req) = false ->
   ask E req w
   = (tt, emit [CallResJson (errorResponse 400 "email & question required")] w)) /\
  (forall mail,
     truthy (req_email req) && truthy (req_question req) = true ->
     req_email req = Some mail ->
     fst (readStudent mail w) = None ->
     ask E req w = (tt, emit [CallResJson (errorResponse 404 "Student not found")] w)).
Proof.
  unfold ask. split.
  - destruct (req_email req) as [[|a m]|]; try reflexivity.
    destruct (req_question req) as [[|b q]|]; try reflexivity. discriminate.
  - intros mail Hboth Hmail Hnone. rewrite Hmail in *.
    destruct mail as [|a m]; [discriminate|].
    destruct (req_question req) as [[|b q]|]; try discriminate.
    by rewrite bind_run, Hnone.
Qed.

(** X9.  What is stored is what was sent.  When a request both answers and
    appends a message to a session, the message carries the answer of the
    response and the question of the request, and it is appended for the
    email of the request under the session id of the response, which is the
    id of the request or, when that is absent, the id minted for it. *)
Theorem persisted_is_answered (E : env) (req : Request) (w : world)
    (i j : nat) (r : Response) (a b : string) (m : Message) :
  callsOf E req w !! i = Some (CallResJson r) ->
  callsOf E req w !! j = Some (CallAppendMessage a b m) ->
  res_answer r = Some (msg_answer m) /\
  res_sessionId r = Some (Some b) /\ b = sessionOf E req /\
  req_email req = Some a /\ req_question req = Some (msg_question m).
Proof.
  intros Hi Hj.
  apply list_elem_of_lookup_2 in Hi. apply list_elem_of_lookup_2 in Hj.
  destruct (ask_cases E req w)
    as [(r0 & _ & Hask)|[Hask|(mail & question & student & split & predicted & unans
                               & Hmail & Hq & _ & _ & _ & Hask)]].
  - rewrite (callsOf_emit _ _ _ _ Hask) in Hj.
    apply list_elem_of_singleton in Hj. discriminate.
  - rewrite (callsOf_emit _ _ _ _ Hask) in Hj.
    apply list_elem_of_singleton in Hj. discriminate.
  - match type of Hask with _ = route ?E ?a ?b ?c ?d ?e ?f ?g ?h ?i ?j ?w =>
      destruct (route_outcome E a b c d e f g h i j w)
        as [(asks & Hw' & Hasks)
           |(asks & r0 & m0 & logs & w1 & Htr & Hasks & Hlogs & _ & Hans & Hsid & Hm & _)]
    end; cbv zeta in *; rewrite <- Hask in *.
    + apply ask_snd in Hw'. rewrite (callsOf_emit _ _ _ _ Hw') in Hj.
      apply elem_of_app in Hj as [Hj|Hj].
      * rewrite Forall_forall in Hasks. by specialize (Hasks _ Hj).
      * apply list_elem_of_singleton in Hj. discriminate.
    + rewrite (callsOf_trace _ _ _ _ Htr) in Hi, Hj.
      apply (in_outcome _ _ _ _ _ _ _ _ _ _ Hasks Hlogs) in Hi, Hj.
      destruct Hi as [Hi|[Hi|[[_ Hi]|[Hi|Hi]]]]; try discriminate.
      destruct Hj as [Hj|[Hj|[[_ Hj]|[Hj|Hj]]]]; try discriminate.
      injection Hi as ->. injection Hj as -> -> ->.
      by rewrite Hmail, Hq, Hm.
Qed.

Lemma persisted_is_answered_witness :
  exists r m,
    callsOf Scenario.E0 Scenario.request Scenario.w0 !! 2 = Some (CallResJson r) /\
    callsOf Scenario.E0 Scenario.request Scenario.w0 !! 4
    = Some (CallAppendMessage "s@u.edu" "session_1700000000000_abc123" m) /\
    res_answer r = Some (msg_answer m).
Proof.
  eexists. eexists. split; [vm_compute; reflexivity|]. split; [vm_compute; reflexivity|].
  eapply (persisted_is_answered Scenario.E0 Scenario.request Scenario.w0 2 4);
    vm_compute; reflexivity.
Defined.

Section Asked.

Context (E : env) (req : Request) (w : world).
Context (mail question : string) (student : Student) (c : ClassificationResult).

Hypothesis Hmail : req_email req = Some mail.
Hypothesis Hmail_given : mail <> EmptyString.
Hypothesis Hquestion : req_question req = Some question.
Hypothesis Hquestion_given : question <> EmptyString.
Hypothesis Hstudent : fst (readStudent mail w) = Some student.

Let accessible := default [] (accessibleStores student).

Hypothesis Haccessible : accessible <> [].

Let geminiKey := universityKey (fst (readUniversity (universityEmail student) w)).
Let isNewSession := negb (truthy (req_sessionId req)).
Let sid := if isNewSession then mintSessionId E
           else default EmptyString (req_sessionId req).
Let name := if isNewSession then Some (generateSessionName (Some question)) else None.

Hypothesis Hclassified :
  classifyStores E geminiKey (map storeName accessible) question = Normal (PObject c).

Let predicted := default [] (stores c).
Let splitQuestions := default ∅ (split_questions c).
Let unans := default [] (unanswered c).

Local Notation "'qFor'" := (qForStore question splitQuestions).
Local Notation "'provider'" := (deptEmail accessible).
Local Notation "'writable'" := (sessionWritable E mail sid).

Lemma asked_route :
  ask E req w = route E mail question sid isNewSession name accessible geminiKey
                  splitQuestions predicted unans w.
Proof using All.
  apply (ask_route E req w mail question student c); assumption.
Qed.

(** A request that is answered with status 200 alone went one of the ways
    of [route] that answer. *)
Lemma asked_outcome :
  statusesOf E req w = [200] ->
  exists asks r m logs w1,
    callsOf E req w = (asks ++ CallResJson r ::
                       persisted (writable w) isNewSession mail sid name m logs)%list /\
    Forall (fun e => isRetrieval e = true) asks /\
    Forall (fun e => isProviderLog e = true) logs /\
    msg_question m = question /\
    chat_sessions w1 = chat_sessions (snd (createIfNew E mail sid isNewSession name w)) /\
    elsewhere w1 = elsewhere (snd (createIfNew E mail sid isNewSession name w)) /\
    (writable w = true ->
     chat_sessions (snd (ask E req w))
     = chat_sessions (snd (appendMessageToSessionFile E mail sid m w1)) /\
     elsewhere (snd (ask E req w))
     = elsewhere (snd (appendMessageToSessionFile E mail sid m w1))).
Proof using All.
  intros Hok.
  destruct (route_outcome E mail question sid isNewSession name accessible geminiKey
              splitQuestions predicted unans w)
    as [(asks & Hw' & Hasks)
       |(asks & r & m & logs & w1 & Htr & Hasks & Hlogs & _ & _ & _ & Hm & Hc1 & He1
         & Hwt & _)];
    cbv zeta in *; rewrite <- asked_route in *.
  - apply ask_snd in Hw'. unfold statusesOf in Hok.
    rewrite (callsOf_emit _ _ _ _ Hw'), omap_app in Hok.
    rewrite (responses_retrievals status asks Hasks) in Hok. discriminate.
  - exists asks, r, m, logs, w1. by rewrite (callsOf_trace _ _ _ _ Htr).
Qed.

(** X10.  A routed request that is answered with status 200 and names a
    session whose file lies in the chat directory, as it does for every
    session id without a path separator, and parses, leaves that session
    with the messages it had and one more, which carries the question of the
    request, and with the name and the creation time it had; no session file
    is created.  (A request whose retrieval call rejects is answered with
    status 500 and leaves the session as it was.) *)
Theorem existing_session_extended (s0 : Session) :
  truthy (req_sessionId req) = true ->
  inChatDir mail sid = true ->
  getSession mail sid w = Some s0 ->
  statusesOf E req w = [200] ->
  exists m s,
    getSession mail sid (snd (ask E req w)) = Some s /\
    messages s = Some (default [] (messages s0) ++ [m])%list /\
    msg_question m = question /\
    sessionName s = sessionName s0 /\ createdAt s = createdAt s0 /\
    Forall (fun e => match e with CallCreateSessionFile _ _ _ => False | _ => True end)
           (callsOf E req w).
Proof using All.
  intros Hsupplied _ Hs0 Hok.
  destruct (asked_outcome Hok)
    as (asks & r & m & logs & w1 & Hcalls & Hasks & Hlogs & Hm & Hc1 & He1 & Hwt).
  assert (Hnew : isNewSession = false) by (unfold isNewSession; by rewrite Hsupplied).
  assert (Hw : writable w = true) by (by apply (getSession_writable E mail sid w s0)).
  rewrite Hnew in Hc1, He1, Hcalls. rewrite Hw in Hcalls.
  cbn [createIfNew ret snd persisted created app] in Hc1, He1, Hcalls.
  destruct (Hwt Hw) as [Hc He].
  destruct (getSession_appendMessage E mail sid m w1) as (_ & s & Hget & Hs).
  { by rewrite (sessionWritable_ext E mail sid w1 w He1). }
  rewrite (getSession_ext mail sid w1 w Hc1 He1), Hs0 in Hs.
  destruct Hs as (Hmsgs & _ & Hname & _ & Hcreated).
  exists m, s. rewrite (getSession_ext _ _ _ _ Hc He). repeat split; try assumption.
  rewrite Hcalls. apply Forall_app. split.
  - eapply Forall_impl; [exact Hasks|]. by intros [] ?.
  - constructor; [exact I|]. constructor; [exact I|].
    eapply Forall_impl; [exact Hlogs|]. by intros [] ?.
Qed.


(** X12.  The retrieval calls of a routed request are those for a prefix of
    the selected stores, in the order of the selection, each with the
    credential of the university, the store alone, and the question of its
    own ([splitQuestions[store] || question], where a store named after a
    member of [Object.prototype] finds that member): nothing is queried out
    of order, outside the selection, or behind a store that was skipped;
    also when a retrieval call rejects. *)
Theorem retrievals_follow_selection :
  exists n,
    filter (fun e => isRetrieval e = true) (callsOf E req w)
    = asksFor geminiKey qFor (take n predicted).
Proof using All.
  assert (Hasks : forall sts, filter (fun e => isRetrieval e = true)
                                (asksFor geminiKey qFor sts) = asksFor geminiKey qFor sts).
  { induction sts as [|st sts IH]; [reflexivity|]. cbn [asksFor map].
    rewrite filter_cons_True by reflexivity. f_equal. exact IH. }
  assert (Hnone : forall l, Forall (fun e => isRetrieval e = false) l ->
                            filter (fun e => isRetrieval e = true) l = []).
  { intros l Hl. induction Hl as [|e l He _ IH]; [reflexivity|].
    rewrite filter_cons_False by (by rewrite He). exact IH. }
  assert (Htake : forall (pre : list string) s post,
             take (S (length pre)) (pre ++ s :: post) = (pre ++ [s])%list).
  { intros pre s post. rewrite (take_app_ge pre) by lia.
    replace (S (length pre) - length pre) with 1 by lia. reflexivity. }
  unfold callsOf. rewrite asked_route.
  destruct (route_cases E mail question sid isNewSession name accessible geminiKey
              splitQuestions predicted unans w)
    as [[Hnil ->]|[(ds & Hne & Hds & ->)
                  |[(pre & s & post & ds & ragResp & Hsplit & Hds & Hcall & Hfail & ->)
                   |(pre & s & post & ds & Hsplit & Hds & Hcall & ->)]]].
  - exists 0. destruct (trace_noStoreSelected E mail question sid isNewSession name unans w)
      as (t & ->).
    rewrite drop_app_length. rewrite filter_cons_False by (cbn; discriminate).
    apply Hnone, not_retrieval_persisted. constructor.
  - exists (length predicted). rewrite firstn_all.
    destruct (trace_respondAndPersist E mail question sid isNewSession name accessible
                splitQuestions predicted (zip_with resultOf predicted ds)
                (concat (map evidence ds)) (emit (asksFor geminiKey qFor predicted) w))
      as (t & stamps & Hlen & ->).
    rewrite trace_emit, <- app_assoc, drop_app_length, filter_app, Hasks.
    rewrite filter_cons_False by (cbn; discriminate).
    rewrite Hnone; [by rewrite app_nil_r|].
    apply not_retrieval_persisted, not_retrieval_answeredLogs.
  - exists (S (length pre)). cbn [snd].
    destruct (trace_ragFailed E mail question sid isNewSession name accessible
                splitQuestions s (emit (asksFor geminiKey qFor (pre ++ [s])) w))
      as (t & t' & ->).
    rewrite trace_emit, <- app_assoc, drop_app_length, filter_app, Hasks.
    rewrite filter_cons_False by (cbn; discriminate).
    fold predicted in Hsplit. rewrite Hsplit, Htake.
    rewrite Hnone; [by rewrite app_nil_r|].
    apply not_retrieval_persisted, not_retrieval_failedLog.
  - exists (S (length pre)). cbn [snd emit trace].
    rewrite drop_app_length, filter_app, Hasks.
    rewrite filter_cons_False by (cbn; discriminate).
    fold predicted in Hsplit. rewrite Hsplit, Htake. by rewrite app_nil_r.
Qed.



End Asked.

(* ================================================================= *)
(** ** Routed requests, run *)

Lemma existing_session_extended_witness :
  exists m s,
    getSession "s@u.edu" "session_1" (snd (ask Scenario.E0 Edge.followUp History.second))
    = Some s /\
    messages s = Some [m] /\ sessionName s = Some "Opening hours".
Proof.
  destruct (existing_session_extended Scenario.E0 Edge.followUp History.second
              "s@u.edu" Scenario.question Scenario.student Scenario.classification
              eq_refl ltac:(discriminate) eq_refl ltac:(discriminate)
              ltac:(vm_compute; reflexivity) ltac:(discriminate)
              ltac:(vm_compute; reflexivity)
              {| sessionId := "session_1"; sessionName := Some "Opening hours";
                 email := "s@u.edu"; createdAt := "2024-01-01T09:00:00.000Z";
                 updatedAt := "2024-01-02T09:00:00.000Z"; messages := Some [] |}
              eq_refl eq_refl ltac:(vm_compute; reflexivity)
              ltac:(vm_compute; reflexivity))
    as (m & s & Hs & Hm & _ & Hn & _).
  exists m, s. repeat split; assumption.
Defined.


Lemma retrievals_follow_selection_witness :
  exists n,
    filter (fun e => isRetrieval e = true)
      (callsOf Scenario.E1 Scenario.request Scenario.w0)
    = asksFor (Some "K")
        (qForStore Scenario.question {[ "library" := "When does the library open?" ]})
        (take n ["admissions"; "library"]).
Proof.
  apply (retrievals_follow_selection Scenario.E1 Scenario.request Scenario.w0
           "s@u.edu" Scenario.question Scenario.student Scenario.classification
           eq_refl ltac:(discriminate) eq_refl ltac:(discriminate)
           ltac:(vm_compute; reflexivity) ltac:(discriminate)
           ltac:(vm_compute; reflexivity)).
Defined.



(** X15.  Replies of the classifier that parse but are no classification.
    When the text parses to [null], reading [classification.stores] throws
    and the request is answered 500 and nothing else; when it parses to
    another value that is no object, the request is answered like one for
    which no store was selected, with no unanswered parts and no retrieval
    call. *)
Theorem malformed_classification (E : env) (req : Request) (w : world)
    (mail question k txt : string) (student : Student) :
  req_email req = Some mail -> mail <> EmptyString ->
  req_question req = Some question -> question <> EmptyString ->
  fst (readStudent mail w) = Some student ->
  default [] (accessibleStores student) <> [] ->
  universityKey (fst (readUniversity (universityEmail student) w)) = Some k ->
  generateContent E k (map storeName (default [] (accessibleStores student))) question
  = Some txt ->
  txt <> EmptyString ->
  (JSON_parse E (trim txt) = Some PNull ->
   ask E req w
   = (tt, emit [CallResJson (errorResponse 500 "Internal Server Error")] w)) /\
  (JSON_parse E (trim txt) = Some PNonObject ->
   exists r after,
     callsOf E req w = CallResJson r :: after /\
     res_answer r = Some "Sorry, none of the departments can answer this." /\
     res_storesUsed r = Some [] /\ res_unanswered r = Some [] /\
     Forall (fun e => isRetrieval e = false) after).
Proof.
  intros Hmail Hm Hq Hqn Hst Hacc Hkey Hgen Htxt.
  assert (Hk : k <> EmptyString).
  { unfold universityKey, orNull in Hkey.
    destruct (truthy _) eqn:Ht; [|discriminate]. rewrite Hkey in Ht. by destruct k. }
  assert (Hask : forall p, JSON_parse E (trim txt) = Some p ->
            ask E req w =
            match p with
            | PObject c0 =>
                route E mail question (sessionOf E req) (negb (truthy (req_sessionId req)))
                  (if negb (truthy (req_sessionId req))
                   then Some (generateSessionName (Some question)) else None)
                  (default [] (accessibleStores student)) (Some k)
                  (default ∅ (split_questions c0)) (default [] (stores c0))
                  (default [] (unanswered c0)) w
            | PNonObject =>
                route E mail question (sessionOf E req) (negb (truthy (req_sessionId req)))
                  (if negb (truthy (req_sessionId req))
                   then Some (generateSessionName (Some question)) else None)
                  (default [] (accessibleStores student)) (Some k) ∅ [] [] w
            | PNull => (tt, emit [CallResJson (errorResponse 500 "Internal Server Error")] w)
            end).
  { intros p Hp. unfold ask, sessionOf. rewrite Hmail, Hq.
    destruct mail as [|a m]; [done|]. destruct question as [|b q]; [done|].
    rewrite bind_run, snd_readStudent, Hst.
    destruct (Nat.eqb _ 0) eqn:Hlen.
    { apply Nat.eqb_eq in Hlen. rewrite length_map in Hlen.
      destruct (default [] (accessibleStores student)); [done | discriminate]. }
    rewrite bind_run, snd_readUniversity, Hkey.
    unfold classifyStores. destruct k as [|x k']; [done|]. rewrite Hgen.
    destruct txt as [|y txt']; [done|]. rewrite Hp. cbn [tryReturn].
    destruct p; destruct (truthy (req_sessionId req)); reflexivity. }
  split.
  - intros Hp. by rewrite (Hask _ Hp).
  - intros Hp. unfold callsOf. rewrite (Hask _ Hp). cbn [route].
    match goal with |- context [noStoreSelected ?E ?a ?b ?c ?d ?e ?f ?w] =>
      destruct (trace_noStoreSelected E a b c d e f w) as (t & ->) end.
    rewrite drop_app_length. eexists. eexists. split; [reflexivity|].
    repeat split.
    apply not_retrieval_persisted. constructor.
Qed.

Lemma malformed_classification_witness :
  ask (Edge.replying "null") Scenario.request Scenario.w0
  = (tt, emit [CallResJson (errorResponse 500 "Internal Server Error")] Scenario.w0).
Proof.
  apply (malformed_classification (Edge.replying "null") Scenario.request Scenario.w0
           "s@u.edu" Scenario.question "K" "null" Scenario.student);
    try discriminate; vm_compute; reflexivity.
Defined.

(* ================================================================= *)
(** ** The listing of sessions *)

Lemma insertSorted_perm cmp x l : insertSorted cmp x l ≡ₚ x :: l.
Proof.
  induction l as [|y r IH]; [reflexivity|]. simpl.
  destruct (movesBehind cmp x y); [|reflexivity].
  rewrite IH. apply Permutation_swap.
Qed.

Lemma sortBy_perm cmp l : sortBy cmp l ≡ₚ l.
Proof.
  unfold sortBy. induction l as [|x r IH]; [reflexivity|].
  simpl. rewrite insertSorted_perm. by rewrite IH.
Qed.

Lemma collectSessions_spec prefix (d : dir (file Session)) i :
  i ∈ collectSessions prefix d <->
  exists name doc, (name, Parsed doc) ∈ d /\ startsWith prefix name = true /\ i = infoOf doc.
Proof.
  induction d as [|[n c] r IH]; simpl.
  - split; [intros H; by apply elem_of_nil in H|].
    intros (name & doc & H & _). by apply elem_of_nil in H.
  - destruct (startsWith prefix n) eqn:Hn; [destruct c as [doc0|]|].
    + rewrite elem_of_cons, IH. split.
      * intros [->|(name & doc & Hin & Hp & ->)].
        -- exists n, doc0. split; [constructor | by split].
        -- exists name, doc. split; [by constructor | by split].
      * intros (name & doc & Hin & Hp & ->). apply elem_of_cons in Hin.
        destruct Hin as [[= -> ->]|Hin]; [by left | right; eauto].
    + rewrite IH. split.
      * intros (name & doc & Hin & Hp & ->). exists name, doc. split; [by constructor|done].
      * intros (name & doc & Hin & Hp & ->). apply elem_of_cons in Hin.
        destruct Hin as [Heq|Hin]; [congruence | eauto].
    + rewrite IH. split.
      * intros (name & doc & Hin & Hp & ->). exists name, doc. split; [by constructor|done].
      * intros (name & doc & Hin & Hp & ->). apply elem_of_cons in Hin.
        destruct Hin as [Heq|Hin]; [congruence | eauto].
Qed.


(** X16.  GET /sessions/:email lists, in some order, one entry for each file
    of the chat directory whose name starts with the sanitized email and
    [__] and whose content parses, with the id, the name and the creation
    time of the document; files that do not parse are skipped. *)
Theorem listSessions_spec (mail : string) (w : world) :
  listSessions mail w ≡ₚ collectSessions (sanitize mail +:+ "__") (chat_sessions w) /\
  forall i,
    i ∈ listSessions mail w <->
    exists name doc,
      (name, Parsed doc) ∈ chat_sessions w /\
      startsWith (sanitize mail +:+ "__") name = true /\ i = infoOf doc.
Proof.
  split; [apply sortBy_perm|]. intros i. unfold listSessions.
  rewrite sortBy_perm. apply collectSessions_spec.
Qed.



Lemma in_writeFile {A} name (c : A) d : (name, c) ∈ writeFile name c d.
Proof.
  induction d as [|[n c0] r IH]; simpl; [constructor|].
  destruct (String.eqb n name) eqn:Hn.
  - apply String.eqb_eq in Hn. subst. constructor.
  - by constructor.
Qed.






(* ================================================================= *)
(** ** More on session names *)

Lemma firstIsSpace_app a b : a <> EmptyString -> firstIsSpace (a +:+ b) = firstIsSpace a.
Proof. by destruct a. Qed.

Lemma lastIsSpace_app a b : b <> EmptyString -> lastIsSpace (a +:+ b) = lastIsSpace b.
Proof.
  intros Hb. induction a as [|c a IH]; [reflexivity|].
  change (lastIsSpace (String c (a +:+ b)) = lastIsSpace b).
  rewrite lastIsSpace_cons; [exact IH|]. destruct a; [exact Hb | discriminate].
Qed.

Lemma wordsFrom_heads s cur :
  (cur <> EmptyString -> firstIsSpace cur = false) ->
  Forall (fun x => x <> EmptyString /\ firstIsSpace x = false) (wordsFrom cur s).
Proof.
  revert cur. induction s as [|c r IH]; intros cur Hcur.
  - simpl. destruct cur; [constructor|]. constructor; [|constructor].
    split; [discriminate | by apply Hcur].
  - simpl. destruct (is_space c) eqn:Hc.
    + destruct cur as [|a cur'].
      * by apply IH.
      * constructor; [split; [discriminate | by apply Hcur]|]. by apply IH.
    + apply IH. intros _. destruct cur as [|a cur']; [exact Hc|].
      by apply Hcur.
Qed.

Lemma trimStart_blank s : allChars is_space s = true -> trimStart s = EmptyString.
Proof.
  induction s as [|c r IH]; [reflexivity|]. simpl.
  intros [-> Hr]%andb_true_iff. by apply IH.
Qed.

(** X19.  A session name neither starts nor ends with white space, whatever
    the question. *)
Theorem generateSessionName_trimmed (question : option string) :
  firstIsSpace (generateSessionName question) = false /\
  lastIsSpace (generateSessionName question) = false.
Proof.
  destruct question as [[|c q]|]; try (split; reflexivity).
  set (s := String c q).
  assert (Hname : generateSessionName (Some s) =
                  if Nat.leb (length (split_space (trim s))) 10 then trim s
                  else join " " (take 10 (split_space (trim s))) +:+ "...") by reflexivity.
  rewrite Hname. destruct (Nat.leb _ 10) eqn:Hlen.
  - split.
    + unfold trim. apply firstIsSpace_trimEnd, firstIsSpace_trimStart.
    + apply lastIsSpace_trimEnd.
  - apply Nat.leb_gt in Hlen.
    assert (Hne : trim s <> EmptyString).
    { intros Ht. rewrite Ht in Hlen. simpl in Hlen. lia. }
    rewrite (split_trim_words s Hne) in *.
    split; [|by apply lastIsSpace_app].
    pose proof (wordsFrom_heads s EmptyString ltac:(done)) as Hheads.
    fold (words s) in Hheads.
    destruct (words s) as [|w1 ws]; [simpl in Hlen; lia|].
    apply Forall_cons in Hheads as [[Hw1 Hf] _].
    cbn [take]. rewrite firstIsSpace_app.
    + destruct (take 9 ws); cbn [join]; [exact Hf | by rewrite firstIsSpace_app].
    + destruct (take 9 ws); cbn [join]; [exact Hw1 | by destruct w1].
Qed.

(** X20.  A question that is not empty and holds white space only gives the
    empty session name, not [New Session]. *)
Theorem generateSessionName_blank (q : string) :
  q <> EmptyString -> allChars is_space q = true ->
  generateSessionName (Some q) = EmptyString.
Proof.
  intros Hq Hblank. destruct q as [|c r]; [done|].
  assert (Ht : trim (String c r) = EmptyString).
  { unfold trim. by rewrite (trimStart_blank _ Hblank). }
  change (generateSessionName (Some (String c r)))
    with (if Nat.leb (length (split_space (trim (String c r)))) 10 then trim (String c r)
          else join " " (take 10 (split_space (trim (String c r)))) +:+ "...").
  by rewrite Ht.
Qed.

Lemma generateSessionName_blank_witness : generateSessionName (Some "   ") = "".
Proof. apply generateSessionName_blank; [discriminate | reflexivity]. Defined.

(* ================================================================= *)
(** ** The span between the braces *)

Lemma indexOf_split c s i :
  indexOf c s = Some i ->
  exists pre post, s = pre +:+ String c post /\ String.length pre = i /\
                   indexOf c pre = None.
Proof.
  revert i. induction s as [|d r IH]; intros i; [discriminate|].
  cbn [indexOf]. destruct (Ascii.eqb c d) eqn:Hcd.
  - intros [= <-]. apply Ascii.eqb_eq in Hcd. subst d.
    exists EmptyString, r. by repeat split.
  - destruct (indexOf c r) as [k|]; [|discriminate]. intros [= <-].
    destruct (IH k eq_refl) as (pre & post & -> & Hlen & Hnone).
    exists (String d pre), post. repeat split.
    + simpl. by rewrite Hlen.
    + cbn [indexOf]. by rewrite Hcd, Hnone.
Qed.

Lemma lastIndexOf_split c s j :
  lastIndexOf c s = Some j ->
  exists pre post, s = pre +:+ String c post /\ String.length pre = j /\
                   indexOf c post = None.
Proof.
  revert j. induction s as [|d r IH]; intros j; [discriminate|].
  cbn [lastIndexOf]. destruct (lastIndexOf c r) as [k|] eqn:Hr.
  - intros [= <-]. destruct (IH k eq_refl) as (pre & post & -> & Hlen & Hnone).
    exists (String d pre), post. repeat split; [simpl; by rewrite Hlen | exact Hnone].
  - destruct (Ascii.eqb c d) eqn:Hcd; [|discriminate]. intros [= <-].
    apply Ascii.eqb_eq in Hcd. subst d. exists EmptyString, r. repeat split.
    clear IH. induction r as [|e r IH]; [reflexivity|].
    cbn [lastIndexOf] in Hr. cbn [indexOf].
    destruct (lastIndexOf c r); [discriminate|].
    destruct (Ascii.eqb c e); [discriminate|]. by rewrite IH.
Qed.

Lemma append_split a x b y :
  a +:+ x = b +:+ y -> String.length a <= String.length b ->
  exists m, b = a +:+ m /\ x = m +:+ y.
Proof.
  revert b. induction a as [|c a IH]; intros b Heq Hlen.
  - exists b. by split.
  - destruct b as [|d b]; [simpl in Hlen; lia|].
    change (String c (a +:+ x) = String d (b +:+ y)) in Heq.
    injection Heq as -> Heq. destruct (IH b Heq) as (m & -> & ->).
    { simpl in Hlen. lia. }
    exists m. by split.
Qed.

Lemma dropStr_app a b : dropStr (String.length a) (a +:+ b) = b.
Proof. induction a as [|c a IH]; [by destruct b | exact IH]. Qed.

Lemma takeStr_app a b : takeStr (String.length a) (a +:+ b) = a.
Proof.
  induction a as [|c a IH]; [by destruct b|].
  change (String c (takeStr (String.length a) (a +:+ b)) = String c a). by rewrite IH.
Qed.

(** X21.  The text the classifier adapter parses when the reply as a whole
    does not parse: it is empty (the last closing brace is before the first
    opening one), or it is the part of the reply from the first opening
    brace to the last closing brace, both included. *)
Theorem braceSpan_spec (raw sub : string) :
  braceSpan raw = Some sub ->
  sub = EmptyString \/
  exists pre mid post,
    raw = pre +:+ sub +:+ post /\ sub = "{" +:+ mid +:+ "}" /\
    indexOf "{"%char pre = None /\ indexOf "}"%char post = None.
Proof.
  unfold braceSpan.
  destruct (indexOf "{" raw) as [i|] eqn:Hi; [|discriminate].
  destruct (lastIndexOf "}" raw) as [j|] eqn:Hj; [|discriminate].
  intros [= <-].
  destruct (indexOf_split _ _ _ Hi) as (pre1 & post1 & Hraw1 & Hlen1 & Hn1).
  destruct (lastIndexOf_split _ _ _ Hj) as (pre2 & post2 & Hraw2 & Hlen2 & Hn2).
  destruct (Nat.le_gt_cases i j) as [Hle|Hgt].
  - right. destruct (append_split pre1 (String "{" post1) pre2 (String "}" post2))
      as (m & Hpre2 & Hx); [congruence | lia |].
    destruct m as [|c mid]; [discriminate|].
    change (String "{" post1 = String c (mid +:+ String "}" post2)) in Hx.
    injection Hx as <- Hpost1.
    exists pre1, mid, post2.
    assert (Hsub : slice i (j + 1) raw = "{" +:+ mid +:+ "}").
    { unfold slice. rewrite Hraw1, <- Hlen1, dropStr_app, Hpost1.
      replace (j + 1 - String.length pre1) with (String.length ("{" +:+ mid +:+ "}")).
      - change (String "{" (mid +:+ String "}" post2))
          with (String "{" (mid +:+ ("}" +:+ post2))).
        rewrite <- (append_assoc mid "}" post2).
        change (String "{" ((mid +:+ "}") +:+ post2))
          with (("{" +:+ mid +:+ "}") +:+ post2).
        apply takeStr_app.
      - assert (H1 : String.length ("{" +:+ mid +:+ "}") = S (String.length mid + 1)).
        { change (S (String.length (mid +:+ "}")) = S (String.length mid + 1)).
          by rewrite length_append. }
        assert (H2 : String.length pre2 = String.length pre1 + S (String.length mid)).
        { rewrite Hpre2, length_append. reflexivity. }
        lia. }
    rewrite Hsub. repeat split; try assumption.
    rewrite Hraw1, Hpost1.
    change (String "{" (mid +:+ String "}" post2))
      with (String "{" (mid +:+ ("}" +:+ post2))).
    rewrite <- (append_assoc mid "}" post2). reflexivity.
  - left. unfold slice. replace (j + 1 - i) with 0 by lia. reflexivity.
Qed.

Lemma braceSpan_spec_witness :
  "{} or {}" = EmptyString \/
  exists pre mid post,
    "{} or {}" = pre +:+ "{} or {}" +:+ post /\ "{} or {}" = "{" +:+ mid +:+ "}" /\
    indexOf "{"%char pre = None /\ indexOf "}"%char post = None.
Proof. apply (braceSpan_spec "{} or {}" "{} or {}"). reflexivity. Defined.

(* ================================================================= *)
(** ** The department routes: tickets *)

Section Tickets.

Import Accounts.

Lemma departmentAccounts_spec dept files acc r :
  departmentAccounts dept files acc = Some r ->
  r = (acc ++ map accountEmail
              (filter (fun a => universityEmail a = dept) (jsonDocs files)))%list.
Proof.
  revert acc. induction files as [|[a c] rest IH]; intros acc.
  - intros [= <-]. by rewrite app_nil_r.
  - cbn [departmentAccounts]. unfold jsonDocs. cbn [omap list_omap fst snd].
    fold (jsonDocs rest). destruct (endsWith ".json" a); [|apply IH].
    destruct c as [accData|]; [|discriminate].
    rewrite filter_cons. case_bool_decide; destruct (decide _); try done.
    + intros Hrec. rewrite (IH _ Hrec). cbn [map]. by rewrite <- app_assoc.
    + apply IH.
Qed.

Lemma sortTickets_spec dept files p c p' c' :
  sortTickets dept files p c = Some (p', c') ->
  p' = (p ++ filter (fun t => tk_status t = Some "pending")
               (filter (fun t => tk_accountEmail t ∈ dept) (jsonDocs files)))%list /\
  c' = (c ++ filter (fun t => tk_status t <> Some "pending")
               (filter (fun t => tk_accountEmail t ∈ dept) (jsonDocs files)))%list.
Proof.
  revert p c. induction files as [|[f content] rest IH]; intros p c.
  - intros [= <- <-]. unfold jsonDocs. cbn [omap list_omap].
    by rewrite !filter_nil, !app_nil_r.
  - cbn [sortTickets]. unfold jsonDocs. cbn [omap list_omap fst snd].
    fold (jsonDocs rest). destruct (endsWith ".json" f); [|apply IH].
    destruct content as [t|]; [|discriminate].
    rewrite filter_cons. case_bool_decide; destruct (decide _); try done; [|apply IH].
    rewrite !filter_cons. case_bool_decide; destruct (decide _); try done;
      destruct (decide _); try done; intros Hrec; destruct (IH _ _ Hrec) as [-> ->];
      by rewrite <- ?app_assoc.
Qed.

Lemma sortTickets_corrupt dept files p c :
  corrupt files -> sortTickets dept files p c = None.
Proof.
  intros (f & Hjson & Hin). revert p c.
  induction files as [|[g content] rest IH]; intros p c; [by apply elem_of_nil in Hin|].
  apply elem_of_cons in Hin. destruct Hin as [[= <- <-]|Hin].
  - cbn [sortTickets]. by rewrite Hjson.
  - cbn [sortTickets]. destruct (endsWith ".json" g); [|by apply IH].
    destruct content as [t|]; [|reflexivity].
    repeat case_bool_decide; by apply IH.
Qed.

Lemma sortTickets_clean dept files p c :
  ~ corrupt files -> is_Some (sortTickets dept files p c).
Proof.
  revert p c. induction files as [|[g content] rest IH]; intros p c Hclean; [by eexists|].
  assert (Hrest : ~ corrupt rest).
  { intros (f & Hj & Hin). apply Hclean. exists f. split; [done | by constructor]. }
  cbn [sortTickets]. destruct (endsWith ".json" g) eqn:Hg; [|by apply IH].
  destruct content as [t|].
  - repeat case_bool_decide; by apply IH.
  - destruct Hclean. exists g. split; [done | constructor].
Qed.

(** What a listing that succeeds holds. *)
Lemma getTickets_lists mail d dept np nc pend comp :
  getTickets mail d = Tickets dept np nc pend comp ->
  let team := map accountEmail
                  (filter (fun a => universityEmail a = dept) (jsonDocs (accounts d))) in
  let mine := filter (fun t => tk_accountEmail t ∈ team) (jsonDocs (tickets d)) in
  (universityEmail <$> readJson (accounts d) mail) = Some dept /\
  pend = filter (fun t => tk_status t = Some "pending") mine /\
  comp = filter (fun t => tk_status t <> Some "pending") mine /\
  np = length pend /\ nc = length comp.
Proof.
  unfold getTickets. destruct (readJson (accounts d) mail) as [account|]; [|discriminate].
  destruct (departmentAccounts _ _ _) as [team0|] eqn:Hteam; [|discriminate].
  destruct (sortTickets _ _ _ _) as [[p c]|] eqn:Hsort; [|discriminate].
  intros [= <- <- <- <- <-]. apply departmentAccounts_spec in Hteam.
  cbn [app] in Hteam. subst team0.
  destruct (sortTickets_spec _ _ _ _ _ _ Hsort) as [-> ->]. cbn [app].
  cbv zeta. repeat split.
Qed.

Lemma pending_or_completed (l : list Ticket) :
  length (filter (fun t => tk_status t = Some "pending") l) +
  length (filter (fun t => tk_status t <> Some "pending") l) = length l.
Proof.
  induction l as [|t l IH]; [reflexivity|].
  rewrite !filter_cons. destruct (decide (tk_status t = Some "pending"));
    destruct (decide (tk_status t <> Some "pending")); try done; simpl; lia.
Qed.

(** X22.  The ticket listing of a department account, when it succeeds:
    the department is the university of the account; the tickets listed are
    those, in directory order, of the parsed [.json] files of the ticket
    directory whose account belongs to an account file of the same
    university; the pending list holds those with status [pending], the
    completed list all the others; and the two totals are the lengths of the
    two lists and add up to the number of tickets of the department. *)
Theorem getTickets_partition (mail : string) (d : db) (dept : option string)
    (np nc : nat) (pend comp : list Ticket) :
  getTickets mail d = Tickets dept np nc pend comp ->
  let team := map accountEmail
                  (filter (fun a => universityEmail a = dept) (jsonDocs (accounts d))) in
  let mine := filter (fun t => tk_accountEmail t ∈ team) (jsonDocs (tickets d)) in
  (universityEmail <$> readJson (accounts d) mail) = Some dept /\
  pend = filter (fun t => tk_status t = Some "pending") mine /\
  comp = filter (fun t => tk_status t <> Some "pending") mine /\
  np = length pend /\ nc = length comp /\ np + nc = length mine.
Proof.
  intros Hlist team mine.
  destruct (getTickets_lists _ _ _ _ _ _ _ Hlist) as (Hdept & Hpend & Hcomp & Hnp & Hnc).
  fold team in Hpend, Hcomp. fold mine in Hpend, Hcomp.
  repeat split; try assumption.
  rewrite Hnp, Hnc, Hpend, Hcomp. apply pending_or_completed.
Qed.

Lemma getTickets_partition_witness :
  [Desk.ticket "lib@u.edu" "pending"]
  = filter (fun t => tk_status t = Some "pending")
      (filter (fun t => tk_accountEmail t ∈ [Some "lib@u.edu"])
         (jsonDocs (tickets Desk.d0))).
Proof.
  pose proof (getTickets_partition "lib@u.edu" Desk.d0 (Some "u@u.edu") 1 1
                [Desk.ticket "lib@u.edu" "pending"]
                [Desk.ticket "lib@u.edu" "completed"]
                ltac:(vm_compute; reflexivity)) as H.
  cbv zeta in H. destruct H as (_ & Hp & _). exact Hp.
Defined.

(** X23.  One ticket file that ends in [.json] and does not parse, of any
    department, makes the ticket listing of every account that exists fail
    with status 500. *)
Theorem getTickets_corrupt (mail : string) (d : db) (account : Account) :
  readJson (accounts d) mail = Some account ->
  corrupt (tickets d) ->
  getTickets mail d = Failed 500 "Internal server error".
Proof.
  intros Hacc Hbad. unfold getTickets. rewrite Hacc.
  destruct (departmentAccounts _ _ _); [|reflexivity].
  by rewrite sortTickets_corrupt.
Qed.

Lemma getTickets_corrupt_witness :
  getTickets "lib@u.edu" Desk.broken = Failed 500 "Internal server error".
Proof.
  apply (getTickets_corrupt "lib@u.edu" Desk.broken Desk.clerk); [reflexivity|].
  exists "t4.json". split; [reflexivity|]. vm_compute. do 3 constructor. constructor.
Defined.

Lemma endsWith_app suffix s : endsWith suffix (s +:+ suffix) = true.
Proof.
  induction s as [|c r IH].
  - change (EmptyString +:+ suffix) with suffix.
    destruct suffix; cbn [endsWith]; by rewrite String.eqb_refl.
  - change (String c r +:+ suffix) with (String c (r +:+ suffix)).
    cbn [endsWith]. by destruct (String.eqb _ suffix).
Qed.

Lemma jsonDocs_in {A} (d : dir (file A)) f a :
  (f, Parsed a) ∈ d -> endsWith ".json" f = true -> a ∈ jsonDocs d.
Proof.
  intros Hin Hf. unfold jsonDocs. apply list_elem_of_omap.
  exists (f, Parsed a). split; [exact Hin|]. cbn [fst snd]. by rewrite Hf.
Qed.

Lemma writeFile_parsed_clean {A} name (x : A) (d : dir (file A)) :
  ~ corrupt d -> ~ corrupt (writeFile name (Parsed x) d).
Proof.
  intros Hclean (f & Hf & Hin). apply Hclean. exists f. split; [exact Hf|].
  induction d as [|[g c] rest IH]; simpl in Hin.
  - apply list_elem_of_singleton in Hin. discriminate.
  - destruct (String.eqb g name).
    + apply elem_of_cons in Hin. destruct Hin as [Heq|Hin]; [discriminate|].
      by constructor.
    + apply elem_of_cons in Hin. destruct Hin as [Heq|Hin]; [rewrite Heq; constructor|].
      constructor. apply IH; [|exact Hin].
      intros (f' & Hf' & Hin'). apply Hclean. exists f'. split; [done | by constructor].
Qed.

Lemma team_size_writeFile (team : list (option string)) name t t' (d : dir (file Ticket)) :
  readFile name d = Some (Parsed t) ->
  tk_accountEmail t' = tk_accountEmail t ->
  length (filter (fun x => tk_accountEmail x ∈ team) (jsonDocs (writeFile name (Parsed t') d)))
  = length (filter (fun x => tk_accountEmail x ∈ team) (jsonDocs d)).
Proof.
  intros Hread Hsame. induction d as [|[g c] rest IH]; [discriminate|].
  simpl in Hread. simpl. destruct (String.eqb g name).
  - injection Hread as ->. unfold jsonDocs. cbn [omap list_omap fst snd].
    destruct (endsWith ".json" g); [|reflexivity].
    rewrite !filter_cons, Hsame. by destruct (decide _).
  - unfold jsonDocs. cbn [omap list_omap fst snd]. fold (jsonDocs rest).
    fold (jsonDocs (writeFile name (Parsed t') rest)).
    destruct (endsWith ".json" g); [|by apply IH].
    destruct c as [x|]; [|by apply IH].
    rewrite !filter_cons. destruct (decide _); simpl; by rewrite IH.
Qed.

(** X24.  Solving a ticket that exists, with a ticket id and a solution
    that are not empty: the ticket sent is the ticket stored; its status is
    [completed] and its solution the one given; its account and its other
    fields are kept; every other ticket file reads as before and no file is
    added to the directory. *)
Theorem solveTicket_completes (E : env) (id sol : string) (t : Ticket) (d : db) :
  id <> EmptyString -> sol <> EmptyString ->
  readJson (tickets d) id = Some t ->
  exists t',
    fst (solveTicket E (Some id) (Some sol) d) = TicketSolved t' /\
    readJson (tickets (snd (solveTicket E (Some id) (Some sol) d))) id = Some t' /\
    tk_status t' = Some "completed" /\ tk_solution t' = Some sol /\
    tk_accountEmail t' = tk_accountEmail t /\ tk_rest t' = tk_rest t /\
    (forall other, other <> id +:+ ".json" ->
       readFile other (tickets (snd (solveTicket E (Some id) (Some sol) d)))
       = readFile other (tickets d)) /\
    map fst (tickets (snd (solveTicket E (Some id) (Some sol) d))) = map fst (tickets d).
Proof.
  intros Hid Hsol Hread. unfold solveTicket.
  destruct id as [|a id']; [done|]. destruct sol as [|b sol']; [done|].
  rewrite Hread. cbn [fst snd tickets]. eexists. split; [reflexivity|].
  split; [unfold readJson; by rewrite readFile_writeFile|].
  do 4 (split; [reflexivity|]). split.
  - intros other Hne. by apply readFile_writeFile_other.
  - rewrite names_writeFile. unfold readJson in Hread.
    by destruct (readFile _ (tickets d)).
Qed.

Lemma solveTicket_completes_witness :
  exists t',
    fst (solveTicket Scenario.E0 (Some "t1") (Some "Reissued.") Desk.d0)
    = TicketSolved t' /\
    tk_status t' = Some "completed" /\ tk_accountEmail t' = Some "lib@u.edu".
Proof.
  destruct (solveTicket_completes Scenario.E0 "t1" "Reissued."
              (Desk.ticket "lib@u.edu" "pending") Desk.d0
              ltac:(discriminate) ltac:(discriminate) eq_refl)
    as (t' & Hr & _ & Hs & _ & Ha & _).
  exists t'. repeat split; assumption.
Defined.

(** X25.  A ticket of the department that is listed, pending or completed,
    is listed as completed once it is solved and not as pending, and the
    number of tickets of the department does not change. *)
Theorem solved_ticket_listed (E : env) (mail id sol : string) (t : Ticket) (d : db)
    (dept : option string) (np nc : nat) (pend comp : list Ticket) :
  id <> EmptyString -> sol <> EmptyString ->
  readJson (tickets d) id = Some t ->
  getTickets mail d = Tickets dept np nc pend comp ->
  t ∈ (pend ++ comp)%list ->
  exists t' np' nc' pend' comp',
    fst (solveTicket E (Some id) (Some sol) d) = TicketSolved t' /\
    getTickets mail (snd (solveTicket E (Some id) (Some sol) d))
    = Tickets dept np' nc' pend' comp' /\
    t' ∈ comp' /\ (t' ∉ pend') /\ np' + nc' = np + nc.
Proof.
  intros Hid Hsol Hread Hlist Hmine.
  pose proof (getTickets_lists _ _ _ _ _ _ _ Hlist) as Hspec. cbv zeta in Hspec.
  destruct Hspec as (Hdept & Hpend & Hcomp & Hnp & Hnc).
  assert (Htotal := pending_or_completed
            (filter (fun t => tk_accountEmail t ∈
                       map accountEmail (filter (fun a => universityEmail a = dept)
                                                (jsonDocs (accounts d))))
                    (jsonDocs (tickets d)))).
  rewrite <- Hpend, <- Hcomp, <- Hnp, <- Hnc in Htotal.
  assert (Hteam : tk_accountEmail t ∈
            map accountEmail (filter (fun a => universityEmail a = dept)
                                     (jsonDocs (accounts d)))).
  { rewrite Hpend, Hcomp in Hmine. apply elem_of_app in Hmine.
    destruct Hmine as [H|H]; apply list_elem_of_filter in H as [_ H];
      by apply list_elem_of_filter in H as [H _]. }
  assert (Hclean : ~ corrupt (tickets d)).
  { intros Hbad. unfold getTickets in Hlist.
    destruct (readJson (accounts d) mail); [|discriminate].
    destruct (departmentAccounts _ _ _); [|discriminate].
    by rewrite (sortTickets_corrupt _ _ _ _ Hbad) in Hlist. }
  unfold solveTicket. destruct id as [|a id']; [done|]. destruct sol as [|b sol']; [done|].
  rewrite Hread. cbn [fst snd].
  set (t' := {| tk_accountEmail := tk_accountEmail t; tk_status := Some "completed";
                tk_solution := Some (String b sol');
                tk_updatedAt := Some (toISOString E (made d));
                tk_rest := tk_rest t |}).
  set (d' := {| accounts := accounts d;
                tickets := writeFile (String a id' +:+ ".json") (Parsed t') (tickets d);
                uploads := uploads d; made := S (made d); calls := calls d |}).
  assert (Hlist' : exists np' nc' pend' comp',
            getTickets mail d' = Tickets dept np' nc' pend' comp').
  { unfold getTickets in *. cbn [accounts d'].
    destruct (readJson (accounts d) mail) as [account|]; [|discriminate].
    destruct (departmentAccounts _ _ _) as [team|]; [|discriminate].
    destruct (sortTickets_clean team (tickets d') [] [])
      as [[p c] Hs]; [by apply writeFile_parsed_clean|].
    rewrite Hs. injection Hdept as <-. by do 4 eexists. }
  destruct Hlist' as (np' & nc' & pend' & comp' & Hlist').
  exists t', np', nc', pend', comp'. split; [reflexivity|]. split; [exact Hlist'|].
  pose proof (getTickets_lists _ _ _ _ _ _ _ Hlist') as Hspec'. cbv zeta in Hspec'.
  destruct Hspec' as (_ & Hpend' & Hcomp' & Hnp' & Hnc').
  cbn [accounts tickets d'] in Hpend', Hcomp'.
  assert (Htotal' := pending_or_completed
            (filter (fun t => tk_accountEmail t ∈
                       map accountEmail (filter (fun a => universityEmail a = dept)
                                                (jsonDocs (accounts d))))
                    (jsonDocs (writeFile (String a id' +:+ ".json") (Parsed t')
                                         (tickets d))))).
  rewrite <- Hpend', <- Hcomp', <- Hnp', <- Hnc' in Htotal'.
  assert (Hin : t' ∈ jsonDocs (writeFile (String a id' +:+ ".json") (Parsed t') (tickets d))).
  { eapply jsonDocs_in; [apply in_writeFile | apply endsWith_app]. }
  split; [|split].
  - rewrite Hcomp'. apply list_elem_of_filter. split; [discriminate|].
    apply list_elem_of_filter. by split.
  - rewrite Hpend'. intros H. by apply list_elem_of_filter in H as [H _].
  - rewrite Htotal', Htotal. apply team_size_writeFile with (t := t); [|reflexivity].
    unfold readJson in Hread. destruct (readFile _ (tickets d)) as [[x|]|]; congruence.
Qed.

Lemma solved_ticket_listed_witness :
  exists t' np' nc' pend' comp',
    getTickets "lib@u.edu"
      (snd (solveTicket Scenario.E0 (Some "t1") (Some "Reissued.") Desk.d0))
    = Tickets (Some "u@u.edu") np' nc' pend' comp' /\
    t' ∈ comp' /\ np' + nc' = 2.
Proof.
  destruct (solved_ticket_listed Scenario.E0 "lib@u.edu" "t1" "Reissued."
              (Desk.ticket "lib@u.edu" "pending") Desk.d0 (Some "u@u.edu") 1 1
              [Desk.ticket "lib@u.edu" "pending"] [Desk.ticket "lib@u.edu" "completed"]
              ltac:(discriminate) ltac:(discriminate) eq_refl
              ltac:(vm_compute; reflexivity) ltac:(constructor))
    as (t' & np' & nc' & pend' & comp' & _ & Hl & Hin & _ & Hn).
  exists t', np', nc', pend', comp'. repeat split; assumption.
Defined.

End Tickets.

(* ================================================================= *)
(** ** The department routes: deleting an upload *)

Section Uploads.

Import Accounts.

Lemma readUploads_written mail ups d a t m c :
  readUploads {| accounts := a; tickets := t;
                 uploads := writeFile (mail +:+ ".json") (Parsed ups) (uploads d);
                 made := m; calls := c |} mail = ups.
Proof. unfold readUploads, readJson. cbn [uploads]. by rewrite readFile_writeFile. Qed.

(** X26.  A deletion that succeeds removes every entry of the category that
    has the file name, not only the first: the uploads sent and stored are
    the former ones with the category filtered by file name, the other
    categories are as before, and ImageKit is asked once, to delete the file
    of the first entry with that name, before any call to the retrieval
    service. *)
Theorem deleteUpload_removes (resolves : call -> bool) (mail cat name : string)
    (d d' : db) (ups' : gmap string (list Upload)) :
  deleteUpload resolves mail (Some cat) (Some name) d = (FileDeleted ups', d') ->
  exists entries first more,
    readUploads d mail !! cat = Some entries /\
    List.find (fun f => String.eqb (filename f) name) entries = Some first /\
    ups' = <[cat := List.filter (fun f => negb (String.eqb (filename f) name)) entries]>
             (readUploads d mail) /\
    readUploads d' mail = ups' /\
    (forall f kept, ups' !! cat = Some kept -> f ∈ kept -> filename f <> name) /\
    (forall other, other <> cat -> ups' !! other = readUploads d mail !! other) /\
    calls d' = (calls d ++ DeleteFile (imagekitFileId first) :: more)%list /\
    Forall (fun c => match c with DeleteFile _ => False | _ => True end) more.
Proof.
  unfold deleteUpload.
  destruct cat as [|a cat']; [discriminate|]. destruct name as [|b name']; [discriminate|].
  destruct (readJson (accounts d) mail) as [acc|]; [|discriminate].
  destruct (readUploads d mail !! String a cat') as [entries|] eqn:Hcat; [|discriminate].
  destruct (List.find _ entries) as [first|] eqn:Hfind; [|discriminate].
  destruct (resolves (DeleteFile _)); [|discriminate]. cbn [negb].
  assert (Hkept : forall f kept,
            <[String a cat' := List.filter
                (fun f => negb (String.eqb (filename f) (String b name'))) entries]>
              (readUploads d mail) !! String a cat' = Some kept ->
            f ∈ kept -> filename f <> String b name').
  { intros f kept. rewrite lookup_insert_eq. intros [= <-] Hin.
    apply list_elem_of_In, filter_In in Hin as [_ Hne].
    apply negb_true_iff, String.eqb_neq in Hne. exact Hne. }
  destruct (documentId first) as [[|x doc]|].
  - intros [= <- <-]. exists entries, first, []. rewrite readUploads_written.
    repeat split; try done. intros other Hne. by rewrite lookup_insert_ne.
  - destruct (ragStore acc) as [storeName|]; [|discriminate].
    destruct (resolves (DeleteDocument _ _ _)); [|discriminate].
    intros [= <- <-]. exists entries, first, [DeleteDocument (apiKey acc) storeName (String x doc)].
    rewrite readUploads_written. repeat split; try done.
    + intros other Hne. by rewrite lookup_insert_ne.
    + by repeat constructor.
  - intros [= <- <-]. exists entries, first, []. rewrite readUploads_written.
    repeat split; try done. intros other Hne. by rewrite lookup_insert_ne.
Qed.

Lemma deleteUpload_removes_witness :
  exists entries first more,
    readUploads Desk.d0 "lib@u.edu" !! "notice" = Some entries /\
    length entries = 3 /\
    calls (snd (deleteUpload (fun _ => true) "lib@u.edu" (Some "notice")
                  (Some "hours.pdf") Desk.d0))
    = DeleteFile (imagekitFileId first) :: more /\
    readUploads (snd (deleteUpload (fun _ => true) "lib@u.edu" (Some "notice")
                        (Some "hours.pdf") Desk.d0)) "lib@u.edu" !! "notice"
    = Some [Desk.upload "map.pdf" "ik2" None].
Proof.
  destruct (deleteUpload_removes (fun _ => true) "lib@u.edu" "notice" "hours.pdf"
              Desk.d0 _ _ eq_refl)
    as (entries & first & more & He & _ & _ & Hr & _ & _ & Hc & _).
  exists entries, first, more. split; [exact He|]. split.
  { vm_compute in He. by injection He as <-. }
  split; [exact Hc|]. vm_compute. reflexivity.
Defined.

(** X27.  A deletion that is answered with an error has status 400, 404 or
    500 and leaves the files of uploads, accounts and tickets as they were;
    with 400 or 404 nothing happened at all, while with 500 the external
    calls made before the failure stay made. *)
Theorem deleteUpload_failure (resolves : call -> bool) (mail : string)
    (category name : option string) (d : db) (status : nat) (error : string) :
  fst (deleteUpload resolves mail category name d) = Failed status error ->
  uploads (snd (deleteUpload resolves mail category name d)) = uploads d /\
  accounts (snd (deleteUpload resolves mail category name d)) = accounts d /\
  tickets (snd (deleteUpload resolves mail category name d)) = tickets d /\
  (status = 400 \/ status = 404 \/ status = 500) /\
  (status <> 500 -> snd (deleteUpload resolves mail category name d) = d).
Proof.
  unfold deleteUpload.
  destruct category as [[|a cat]|], name as [[|b nm]|];
    try (intros [= <- <-]; repeat split; auto).
  destruct (readJson (accounts d) mail) as [acc|];
    [|intros [= <- <-]; repeat split; auto].
  destruct (readUploads d mail !! String a cat) as [entries|];
    [|intros [= <- <-]; repeat split; auto; done].
  destruct (List.find _ entries) as [first|];
    [|intros [= <- <-]; repeat split; auto].
  destruct (resolves (DeleteFile _)); cbn [negb];
    [|intros [= <- <-]; repeat split; auto; done].
  destruct (documentId first) as [[|x doc]|]; try discriminate.
  destruct (ragStore acc) as [storeName|];
    [|intros [= <- <-]; repeat split; auto; done].
  destruct (resolves (DeleteDocument _ _ _)); [discriminate|].
  intros [= <- <-]; repeat split; auto; done.
Qed.

Lemma deleteUpload_failure_witness :
  calls (snd (deleteUpload Desk.ragDown "lib@u.edu" (Some "notice") (Some "hours.pdf")
                Desk.d0))
  = [DeleteFile (Some "ik1"); DeleteDocument (Some "K") (Some "library") "doc1"] /\
  uploads (snd (deleteUpload Desk.ragDown "lib@u.edu" (Some "notice") (Some "hours.pdf")
                  Desk.d0)) = uploads Desk.d0.
Proof.
  split; [reflexivity|].
  apply (deleteUpload_failure Desk.ragDown "lib@u.edu" (Some "notice")
           (Some "hours.pdf") Desk.d0 500 "Internal server error").
  reflexivity.
Defined.

End Uploads.

(* ================================================================= *)
(** ** The system-admin routes *)

Section Universities.

Import Admin.

Lemma corrupt_cons {A} f (c : file A) rest : corrupt rest -> corrupt ((f, c) :: rest).
Proof. intros (g & Hg & Hin). exists g. split; [done | by constructor]. Qed.

Lemma corrupt_here {A} f (rest : dir (file A)) :
  endsWith ".json" f = true -> corrupt ((f, Unparseable) :: rest).
Proof. intros Hf. exists f. split; [done | constructor]. Qed.

Lemma corrupt_inv {A} f (c : file A) rest :
  corrupt ((f, c) :: rest) ->
  (endsWith ".json" f = true /\ c = Unparseable) \/ corrupt rest.
Proof.
  intros (g & Hg & Hin). apply elem_of_cons in Hin. destruct Hin as [Heq|Hin].
  - left. injection Heq as <- <-. by split.
  - right. by exists g.
Qed.

Lemma accountsOf_corrupt mail files acc :
  corrupt files -> accountsOf mail files acc = None.
Proof.
  revert acc. induction files as [|[f content] rest IH]; intros acc Hbad.
  - destruct Hbad as (g & _ & Hin). by apply elem_of_nil in Hin.
  - cbn [accountsOf]. apply corrupt_inv in Hbad as [[-> ->]|Hbad]; [reflexivity|].
    destruct (endsWith ".json" f); [|by apply IH].
    destruct content; [|reflexivity]. case_bool_decide; by apply IH.
Qed.

Lemma accountsOf_clean mail files acc :
  ~ corrupt files ->
  accountsOf mail files acc
  = Some (acc ++ map withoutPassword
                   (filter (fun a : obj => a !! "universityEmail" = Some (Str mail))
                           (jsonDocs files)))%list.
Proof.
  revert acc. induction files as [|[f content] rest IH]; intros acc Hclean.
  - unfold jsonDocs. cbn [omap list_omap accountsOf]. by rewrite filter_nil, app_nil_r.
  - assert (Hrest : ~ corrupt rest) by (intros H; by apply Hclean, corrupt_cons).
    cbn [accountsOf]. unfold jsonDocs. cbn [omap list_omap fst snd]. fold (jsonDocs rest).
    destruct (endsWith ".json" f) eqn:Hf; [|by apply IH].
    destruct content as [account|]; [|destruct Hclean; by apply corrupt_here].
    rewrite filter_cons. case_bool_decide; destruct (decide _); try done; rewrite IH by done.
    + cbn [map]. by rewrite <- app_assoc.
    + reflexivity.
Qed.

Lemma universitiesOf_corrupt files acc :
  corrupt files -> universitiesOf files acc = None.
Proof.
  revert acc. induction files as [|[f content] rest IH]; intros acc Hbad.
  - destruct Hbad as (g & _ & Hin). by apply elem_of_nil in Hin.
  - cbn [universitiesOf]. apply corrupt_inv in Hbad as [[-> ->]|Hbad]; [reflexivity|].
    destruct (endsWith ".json" f); [|by apply IH].
    destruct content; [|reflexivity]. by apply IH.
Qed.

Lemma universitiesOf_clean files acc :
  ~ corrupt files ->
  universitiesOf files acc = Some (acc ++ map withoutPassword (jsonDocs files))%list.
Proof.
  revert acc. induction files as [|[f content] rest IH]; intros acc Hclean.
  - unfold jsonDocs. cbn [omap list_omap universitiesOf map]. by rewrite app_nil_r.
  - assert (Hrest : ~ corrupt rest) by (intros H; by apply Hclean, corrupt_cons).
    cbn [universitiesOf]. unfold jsonDocs. cbn [omap list_omap fst snd]. fold (jsonDocs rest).
    destruct (endsWith ".json" f) eqn:Hf; [|by apply IH].
    destruct content as [u|]; [|destruct Hclean; by apply corrupt_here].
    rewrite IH by done. cbn [map]. by rewrite <- app_assoc.
Qed.

Lemma withoutPassword_none (o : obj) : withoutPassword o !! "password" = None.
Proof. apply lookup_delete_eq. Qed.

(** X28.  GET /universities/:email for a university whose file parses: the
    university and every account sent are without their [password]; the
    count is the number of accounts sent; the accounts are those of the
    parsed [.json] account files whose [universityEmail] is the email of the
    request, in directory order, unless an account file that ends in [.json]
    does not parse, and then the route still answers 200, with no account
    at all. *)
Theorem universityDetails_accounts (d : db) (email : string) (university : obj) :
  readUniversity d email = Some university ->
  exists accs,
    universityDetails d email
    = Details (withoutPassword university) (length accs) accs /\
    (corrupt (accounts d) -> accs = []) /\
    (~ corrupt (accounts d) ->
     accs = map withoutPassword
              (filter (fun a : obj => a !! "universityEmail" = Some (Str email))
                      (jsonDocs (accounts d)))) /\
    Forall (fun a : obj => a !! "password" = None) accs /\
    withoutPassword university !! "password" = None.
Proof.
  intros Hu. exists (getUniversityAccounts d email).
  unfold universityDetails. rewrite Hu. split; [reflexivity|].
  unfold getUniversityAccounts. split; [|split; [|split]].
  - intros Hbad. by rewrite accountsOf_corrupt.
  - intros Hclean. by rewrite accountsOf_clean.
  - destruct (accountsOf email (accounts d) []) as [accs|] eqn:Hloop; [|constructor].
    cbn [default]. revert Hloop.
    assert (Hnil : Forall (fun a : obj => a !! "password" = None) []) by constructor.
    revert Hnil. generalize (@nil obj). generalize (accounts d).
    intros files. induction files as [|[f content] rest IH]; intros acc Hacc.
    + by intros [= <-].
    + cbn [accountsOf]. destruct (endsWith ".json" f); [|by apply IH].
      destruct content as [account|]; [|discriminate].
      case_bool_decide; apply IH; try done.
      apply Forall_app. split; [done|]. constructor; [apply withoutPassword_none | constructor].
  - apply withoutPassword_none.
Qed.

Lemma universityDetails_accounts_witness :
  exists u,
    universityDetails Registry.broken "u@u.edu" = Details u 0 [] /\
    universityDetails Registry.d0 "u@u.edu"
    = Details u 2 [withoutPassword (Registry.clerk "lib@u.edu");
                   withoutPassword (Registry.clerk "adm@u.edu")].
Proof.
  destruct (universityDetails_accounts Registry.broken "u@u.edu" Registry.campus eq_refl)
    as (accs & Hd & Hbad & _).
  rewrite (Hbad (corrupt_cons _ _ _ (corrupt_cons _ _ _
                   (corrupt_here "x@v.edu.json" [] eq_refl)))) in Hd.
  exists (withoutPassword Registry.campus). split; [exact Hd|]. reflexivity.
Defined.

(** X29.  GET /universities/all fails with status 500 when a file of the
    university directory that ends in [.json] does not parse; otherwise it
    sends the parsed document of every such file, in directory order,
    without its [password].  The count it sends is the number of documents
    sent, and none of them has a [password]. *)
Theorem allUniversities_spec (d : db) :
  (corrupt (universities d) -> allUniversities d = Failed 500 "Internal server error") /\
  (~ corrupt (universities d) ->
   allUniversities d
   = All (length (jsonDocs (universities d)))
         (map withoutPassword (jsonDocs (universities d)))) /\
  (forall n us, allUniversities d = All n us ->
     n = length us /\ Forall (fun u : obj => u !! "password" = None) us).
Proof.
  unfold allUniversities. split; [|split].
  - intros Hbad. by rewrite universitiesOf_corrupt.
  - intros Hclean. rewrite universitiesOf_clean by done. cbn [app].
    by rewrite length_map.
  - intros n us.
    destruct (universitiesOf (universities d) []) as [us0|] eqn:Hloop; [|discriminate].
    intros [= <- <-]. split; [reflexivity|]. revert Hloop.
    assert (Hnil : Forall (fun a : obj => a !! "password" = None) []) by constructor.
    revert Hnil. generalize (@nil obj). generalize (universities d).
    intros files. induction files as [|[f content] rest IH]; intros acc Hacc.
    + by intros [= <-].
    + cbn [universitiesOf]. destruct (endsWith ".json" f); [|by apply IH].
      destruct content as [u|]; [|discriminate].
      apply IH. apply Forall_app. split; [done|].
      constructor; [apply withoutPassword_none | constructor].
Qed.

End Universities.

